(** * Rog-Game: a shallow embedding of the simulation core

    The TypeScript sources are embedded function by function.  A JavaScript
    [number] is modelled by an exact rational ([Q]); counters that the code
    only ever assigns integers to (the wave number, a boss phase, a bullet's
    [piercingLeft]) are modelled by [Z].  [Math.random()] and [uuid()] are
    oracles that are threaded through the functions that draw from them, and
    the transcendental functions of [Math] are parameters of the section
    that uses them.  Records keep the gameplay fields of the source types;
    display-only data (damage numbers aside, pop-ups, target-lock slots,
    translated text) is left out. *)

From Stdlib Require Import QArith Qround Qminmax ZArith List String Bool Lia Lqa.
From Stdlib Require Import Qabs Qfield Sorted.
Import ListNotations.
Open Scope Q_scope.

(** * Part I: the program *)

(** ** JavaScript numbers *)

Module JS.

Definition ltb (a b : Q) : bool := negb (Qle_bool b a).
Definition leb (a b : Q) : bool := Qle_bool a b.
Definition eqb (a b : Q) : bool := Qeq_bool a b.

(** [Math.floor], [Math.ceil] and [Math.round] (which rounds halves up). *)
Definition floor (a : Q) : Q := inject_Z (Qfloor a).
Definition ceil (a : Q) : Q := inject_Z (Qceiling a).
Definition round (a : Q) : Q := inject_Z (Qfloor (a + (1 # 2))).

(** [parseFloat(a.toFixed(2))]: the nearest multiple of one hundredth. *)
Definition toFixed2 (a : Q) : Q := round (a * 100) / 100.

Definition max (a b : Q) : Q := Qmax a b.
Definition min (a b : Q) : Q := Qmin a b.

(** [a || d] on a number: zero is falsy. *)
Definition or (a d : Q) : Q := if eqb a 0 then d else a.

(** [a || d] on an optional number: [undefined] and zero are falsy. *)
Definition orElse (a : option Q) (d : Q) : Q :=
  match a with
  | Some v => or v d
  | None => d
  end.

Definition orElseZ (a : option Z) (d : Z) : Z :=
  match a with
  | Some v => if Z.eqb v 0 then d else v
  | None => d
  end.

(** Truthiness of an optional timestamp such as [diesAt]. *)
Definition truthy (a : option Q) : bool :=
  match a with
  | Some v => negb (eqb v 0)
  | None => false
  end.

(** [a / b < c] for a finite bound [c]: a zero divisor gives an infinity
    or NaN, and only minus infinity lies below [c]. *)
Definition divLt (a b c : Q) : bool :=
  if eqb b 0 then ltb a 0 else ltb (a / b) c.

(** [arr[Math.floor(r * arr.length)]] for a draw [r] of [Math.random()]. *)
Definition pick {A : Type} (arr : list A) (r : Q) (d : A) : A :=
  List.nth (Z.to_nat (Qfloor (r * inject_Z (Z.of_nat (List.length arr))))) arr d.

End JS.

(** ** The oracles behind [Math.random()] and [uuid()] *)

Module Rng.

Record t : Type := mk {
  draws : nat -> Q;
  cursor : nat;
  ids : nat -> string;
  idCursor : nat
}.

(** A computation that consumes draws. *)
Definition M (A : Type) : Type := t -> A * t.

Definition ret {A : Type} (a : A) : M A := fun g => (a, g).

Definition bind {A B : Type} (m : M A) (k : A -> M B) : M B :=
  fun g => let (a, g') := m g in k a g'.

(** [Math.random()] *)
Definition random : M Q :=
  fun g => (draws g (cursor g), mk (draws g) (S (cursor g)) (ids g) (idCursor g)).

(** [uuid()] *)
Definition uuid : M string :=
  fun g => (ids g (idCursor g), mk (draws g) (cursor g) (ids g) (S (idCursor g))).

(** [randomInRange(min, max)] of utils.ts *)
Definition randomInRange (lo hi : Q) : M Q :=
  bind random (fun r => ret (r * (hi - lo) + lo)).

(** A [for] loop whose body draws. *)
Fixpoint forEach {A S : Type} (body : A -> S -> M S) (l : list A) (s : S) : M S :=
  match l with
  | [] => ret s
  | a :: l' => bind (body a s) (forEach body l')
  end.

Fixpoint times {S : Type} (n : nat) (body : S -> M S) (s : S) : M S :=
  match n with
  | O => ret s
  | Datatypes.S n' => bind (body s) (times n' body)
  end.

(** An oracle whose every draw is [r]. *)
Definition constant (r : Q) : t := mk (fun _ => r) 0 (fun _ => EmptyString) 0.

End Rng.

Notation "x <- m ;; k" := (Rng.bind m (fun x => k))
  (at level 61, m at next level, right associativity).

(** ** Geometry shared by all entities *)

Record Vector2D : Set := mkVector2D { x : Q; y : Q }.
Record Size : Set := mkSize { width : Q; height : Q }.

(** Anything with a [position] and a [size]. *)
Record GameObject : Set := mkGameObject { position : Vector2D; size : Size }.

(** ** constants.ts *)

Definition WORLD_WIDTH : Q := 2400.
Definition WORLD_HEIGHT : Q := 1800.
Definition PLAYER_SIZE : Q := 20.
Definition BOSS_SIZE : Q := 80.
Definition MINION_SIZE : Q := 12.
Definition BULLET_SIZE : Q := 8.
Definition ENEMY_BULLET_SIZE : Q := 10.
Definition EXPLOSIVE_BARREL_SIZE : Q := 30.
Definition EXPLOSION_DURATION : Q := 400.
Definition INVINCIBILITY_DURATION : Q := 3000.
Definition MONSTER_INTRO_LIFESPAN : Q := 8000.
Definition BULLET_LIFESPAN : Q := 3000.
Definition OBSTACLE_COUNT : nat := 25.
Definition EXPLOSIVE_BARREL_COUNT : nat := 10.
Definition MIN_OBSTACLE_SIZE : Q := 50.
Definition MAX_OBSTACLE_SIZE : Q := 150.
Definition OBSTACLE_PADDING : Q := 15.
Definition MAX_EQUIPPED_CARDS : nat := 5.

Record DifficultyModifiers : Set := mkDifficultyModifiers {
  playerDamageTaken : Q;
  monsterHealth : Q;
  monsterSpeed : Q;
  xpGain : Q;
  monsterDamage : Q
}.

(** [DIFFICULTY_SETTINGS.normal] *)
Definition DIFFICULTY_NORMAL : DifficultyModifiers :=
  mkDifficultyModifiers 1 1 1 1 1.

(** ** types.ts, as the simulation uses it *)

Inductive MonsterType : Set :=
  | normal | elite | shooter | shotgun_shooter | healer | summoner
  | minion | boss | wisp | bloater | lich_guard.

Definition MonsterType_eqb (a b : MonsterType) : bool :=
  match a, b with
  | normal, normal | elite, elite | shooter, shooter
  | shotgun_shooter, shotgun_shooter | healer, healer | summoner, summoner
  | minion, minion | boss, boss | wisp, wisp | bloater, bloater
  | lich_guard, lich_guard => true
  | _, _ => false
  end.

(** The [sourceType] of a hit: a monster archetype or ['event']. *)
Inductive SourceType : Set :=
  | fromMonster (t : MonsterType)
  | event.

Inductive DeathEffect : Set := explode | run_wild | spin_fade | run_and_explode.

Inductive AIStateType : Set :=
  | hesitate | barrage | charging | dashing | throwing | strafe | teleporting.

Inductive WeaponCategory : Set := special | smg | shotgun | launcher | rifle.

Inductive ZoneType : Set := fire | poison | goop.

Record OnImpact : Set := mkOnImpact {
  impactType : ZoneType;
  impactSize : Size;
  impactDamage : Q;
  impactDuration : Q
}.

Record DamageZone : Set := mkDamageZone {
  zoneType : ZoneType;
  zonePosition : Vector2D;
  zoneSize : Size;
  zoneDamage : Q;
  zoneDuration : Q;
  zoneCreatedAt : Q
}.

Record Explosion : Set := mkExplosion {
  explosionPosition : Vector2D;
  explosionSize : Size;
  explosionCreatedAt : Q;
  explosionDuration : Q;
  explosionDamage : Q
}.

Record LeaderboardEntry : Set := mkLeaderboardEntry {
  entryName : string;
  entryScore : Q;
  entryWave : Z
}.

Module AIState.

Record t : Type := mk {
  type : AIStateType;
  lastActionTime : Q;
  lastDialogueTime : option Q;
  dashTarget : option Vector2D;
  dashEndTime : option Q;
  barrageAngle : option Q;
  lastSpecialAttackTime : option Q;
  lastMinionSpawnTime : option Q
}.

Definition set_type (v : AIStateType) (p : t) : t :=
  mk v (lastActionTime p) (lastDialogueTime p) (dashTarget p) (dashEndTime p) (barrageAngle p) (lastSpecialAttackTime p) (lastMinionSpawnTime p).

Definition set_lastActionTime (v : Q) (p : t) : t :=
  mk (type p) v (lastDialogueTime p) (dashTarget p) (dashEndTime p) (barrageAngle p) (lastSpecialAttackTime p) (lastMinionSpawnTime p).

Definition set_lastDialogueTime (v : option Q) (p : t) : t :=
  mk (type p) (lastActionTime p) v (dashTarget p) (dashEndTime p) (barrageAngle p) (lastSpecialAttackTime p) (lastMinionSpawnTime p).

Definition set_dashTarget (v : option Vector2D) (p : t) : t :=
  mk (type p) (lastActionTime p) (lastDialogueTime p) v (dashEndTime p) (barrageAngle p) (lastSpecialAttackTime p) (lastMinionSpawnTime p).

Definition set_dashEndTime (v : option Q) (p : t) : t :=
  mk (type p) (lastActionTime p) (lastDialogueTime p) (dashTarget p) v (barrageAngle p) (lastSpecialAttackTime p) (lastMinionSpawnTime p).

Definition set_barrageAngle (v : option Q) (p : t) : t :=
  mk (type p) (lastActionTime p) (lastDialogueTime p) (dashTarget p) (dashEndTime p) v (lastSpecialAttackTime p) (lastMinionSpawnTime p).

Definition set_lastSpecialAttackTime (v : option Q) (p : t) : t :=
  mk (type p) (lastActionTime p) (lastDialogueTime p) (dashTarget p) (dashEndTime p) (barrageAngle p) v (lastMinionSpawnTime p).

Definition set_lastMinionSpawnTime (v : option Q) (p : t) : t :=
  mk (type p) (lastActionTime p) (lastDialogueTime p) (dashTarget p) (dashEndTime p) (barrageAngle p) (lastSpecialAttackTime p) v.

End AIState.

Module Monster.

Record t : Type := mk {
  id : string;
  type : MonsterType;
  position : Vector2D;
  size : Size;
  speed : Q;
  health : Q;
  maxHealth : Q;
  xpValue : Q;
  spawnTime : Q;
  phase : option Z;
  invincibleUntil : option Q;
  aiState : option AIState.t;
  diesAt : option Q;
  deathEffect : option DeathEffect
}.

Definition set_position (v : Vector2D) (p : t) : t :=
  mk (id p) (type p) v (size p) (speed p) (health p) (maxHealth p) (xpValue p) (spawnTime p) (phase p) (invincibleUntil p) (aiState p) (diesAt p) (deathEffect p).

Definition set_health (v : Q) (p : t) : t :=
  mk (id p) (type p) (position p) (size p) (speed p) v (maxHealth p) (xpValue p) (spawnTime p) (phase p) (invincibleUntil p) (aiState p) (diesAt p) (deathEffect p).

Definition set_phase (v : option Z) (p : t) : t :=
  mk (id p) (type p) (position p) (size p) (speed p) (health p) (maxHealth p) (xpValue p) (spawnTime p) v (invincibleUntil p) (aiState p) (diesAt p) (deathEffect p).

Definition set_invincibleUntil (v : option Q) (p : t) : t :=
  mk (id p) (type p) (position p) (size p) (speed p) (health p) (maxHealth p) (xpValue p) (spawnTime p) (phase p) v (aiState p) (diesAt p) (deathEffect p).

Definition set_aiState (v : option AIState.t) (p : t) : t :=
  mk (id p) (type p) (position p) (size p) (speed p) (health p) (maxHealth p) (xpValue p) (spawnTime p) (phase p) (invincibleUntil p) v (diesAt p) (deathEffect p).

Definition set_diesAt (v : option Q) (p : t) : t :=
  mk (id p) (type p) (position p) (size p) (speed p) (health p) (maxHealth p) (xpValue p) (spawnTime p) (phase p) (invincibleUntil p) (aiState p) v (deathEffect p).

Definition set_deathEffect (v : option DeathEffect) (p : t) : t :=
  mk (id p) (type p) (position p) (size p) (speed p) (health p) (maxHealth p) (xpValue p) (spawnTime p) (phase p) (invincibleUntil p) (aiState p) (diesAt p) v.

Definition obj (p : t) : GameObject := mkGameObject (position p) (size p).

(** [m.diesAt] used as a condition. *)
Definition dying (p : t) : bool := JS.truthy (diesAt p).

End Monster.

Module Obstacle.

Record t : Type := mk {
  id : string;
  position : Vector2D;
  size : Size;
  health : Q;
  maxHealth : Q
}.

Definition set_health (v : Q) (p : t) : t :=
  mk (id p) (position p) (size p) v (maxHealth p).

Definition obj (p : t) : GameObject := mkGameObject (position p) (size p).

End Obstacle.

Module ExplosiveBarrel.

Record t : Type := mk {
  id : string;
  position : Vector2D;
  size : Size;
  health : Q;
  maxHealth : Q;
  velocity : option Vector2D
}.

Definition set_health (v : Q) (p : t) : t :=
  mk (id p) (position p) (size p) v (maxHealth p) (velocity p).

Definition obj (p : t) : GameObject := mkGameObject (position p) (size p).

End ExplosiveBarrel.

Module Bullet.

Record t : Type := mk {
  id : string;
  ownerId : string;
  position : Vector2D;
  size : Size;
  velocity : Vector2D;
  damage : Q;
  piercingLeft : Z;
  createdAt : Q;
  onImpact : option OnImpact
}.

Definition set_position (v : Vector2D) (p : t) : t :=
  mk (id p) (ownerId p) v (size p) (velocity p) (damage p) (piercingLeft p) (createdAt p) (onImpact p).

Definition set_piercingLeft (v : Z) (p : t) : t :=
  mk (id p) (ownerId p) (position p) (size p) (velocity p) (damage p) v (createdAt p) (onImpact p).

Definition obj (p : t) : GameObject := mkGameObject (position p) (size p).

End Bullet.

Module EnemyBullet.

Record t : Type := mk {
  id : string;
  sourceId : string;
  sourceType : SourceType;
  position : Vector2D;
  size : Size;
  velocity : Vector2D;
  damage : Q;
  createdAt : Q
}.

Definition obj (p : t) : GameObject := mkGameObject (position p) (size p).

End EnemyBullet.

Module Orbitals.

Record t : Type := mk {
  count : Q;
  damage : Q;
  speed : Q;
  radius : Q;
  angle : Q
}.

Definition set_count (v : Q) (p : t) : t :=
  mk v (damage p) (speed p) (radius p) (angle p).

Definition set_damage (v : Q) (p : t) : t :=
  mk (count p) v (speed p) (radius p) (angle p).

Definition set_speed (v : Q) (p : t) : t :=
  mk (count p) (damage p) v (radius p) (angle p).

Definition set_radius (v : Q) (p : t) : t :=
  mk (count p) (damage p) (speed p) v (angle p).

End Orbitals.

Module Weapon.

Record t : Type := mk {
  name : string;
  category : WeaponCategory;
  damage : Q;
  fireRate : Q;
  bulletSpeed : Q;
  color : Q;
  bulletCount : option Q;
  piercing : option Q;
  critChance : option Q;
  critDamage : option Q;
  quality : Q;
  durability : option Q;
  maxDurability : option Q;
  clipSize : option Q;
  ammoInClip : option Q;
  reloadTime : option Q
}.

Definition set_name (v : string) (p : t) : t :=
  mk v (category p) (damage p) (fireRate p) (bulletSpeed p) (color p) (bulletCount p) (piercing p) (critChance p) (critDamage p) (quality p) (durability p) (maxDurability p) (clipSize p) (ammoInClip p) (reloadTime p).

Definition set_category (v : WeaponCategory) (p : t) : t :=
  mk (name p) v (damage p) (fireRate p) (bulletSpeed p) (color p) (bulletCount p) (piercing p) (critChance p) (critDamage p) (quality p) (durability p) (maxDurability p) (clipSize p) (ammoInClip p) (reloadTime p).

Definition set_damage (v : Q) (p : t) : t :=
  mk (name p) (category p) v (fireRate p) (bulletSpeed p) (color p) (bulletCount p) (piercing p) (critChance p) (critDamage p) (quality p) (durability p) (maxDurability p) (clipSize p) (ammoInClip p) (reloadTime p).

Definition set_fireRate (v : Q) (p : t) : t :=
  mk (name p) (category p) (damage p) v (bulletSpeed p) (color p) (bulletCount p) (piercing p) (critChance p) (critDamage p) (quality p) (durability p) (maxDurability p) (clipSize p) (ammoInClip p) (reloadTime p).

Definition set_color (v : Q) (p : t) : t :=
  mk (name p) (category p) (damage p) (fireRate p) (bulletSpeed p) v (bulletCount p) (piercing p) (critChance p) (critDamage p) (quality p) (durability p) (maxDurability p) (clipSize p) (ammoInClip p) (reloadTime p).

Definition set_bulletCount (v : option Q) (p : t) : t :=
  mk (name p) (category p) (damage p) (fireRate p) (bulletSpeed p) (color p) v (piercing p) (critChance p) (critDamage p) (quality p) (durability p) (maxDurability p) (clipSize p) (ammoInClip p) (reloadTime p).

Definition set_piercing (v : option Q) (p : t) : t :=
  mk (name p) (category p) (damage p) (fireRate p) (bulletSpeed p) (color p) (bulletCount p) v (critChance p) (critDamage p) (quality p) (durability p) (maxDurability p) (clipSize p) (ammoInClip p) (reloadTime p).

Definition set_critChance (v : option Q) (p : t) : t :=
  mk (name p) (category p) (damage p) (fireRate p) (bulletSpeed p) (color p) (bulletCount p) (piercing p) v (critDamage p) (quality p) (durability p) (maxDurability p) (clipSize p) (ammoInClip p) (reloadTime p).

Definition set_critDamage (v : option Q) (p : t) : t :=
  mk (name p) (category p) (damage p) (fireRate p) (bulletSpeed p) (color p) (bulletCount p) (piercing p) (critChance p) v (quality p) (durability p) (maxDurability p) (clipSize p) (ammoInClip p) (reloadTime p).

Definition set_quality (v : Q) (p : t) : t :=
  mk (name p) (category p) (damage p) (fireRate p) (bulletSpeed p) (color p) (bulletCount p) (piercing p) (critChance p) (critDamage p) v (durability p) (maxDurability p) (clipSize p) (ammoInClip p) (reloadTime p).

Definition set_durability (v : option Q) (p : t) : t :=
  mk (name p) (category p) (damage p) (fireRate p) (bulletSpeed p) (color p) (bulletCount p) (piercing p) (critChance p) (critDamage p) (quality p) v (maxDurability p) (clipSize p) (ammoInClip p) (reloadTime p).

Definition set_maxDurability (v : option Q) (p : t) : t :=
  mk (name p) (category p) (damage p) (fireRate p) (bulletSpeed p) (color p) (bulletCount p) (piercing p) (critChance p) (critDamage p) (quality p) (durability p) v (clipSize p) (ammoInClip p) (reloadTime p).

Definition set_clipSize (v : option Q) (p : t) : t :=
  mk (name p) (category p) (damage p) (fireRate p) (bulletSpeed p) (color p) (bulletCount p) (piercing p) (critChance p) (critDamage p) (quality p) (durability p) (maxDurability p) v (ammoInClip p) (reloadTime p).

Definition set_ammoInClip (v : option Q) (p : t) : t :=
  mk (name p) (category p) (damage p) (fireRate p) (bulletSpeed p) (color p) (bulletCount p) (piercing p) (critChance p) (critDamage p) (quality p) (durability p) (maxDurability p) (clipSize p) v (reloadTime p).

Definition set_reloadTime (v : option Q) (p : t) : t :=
  mk (name p) (category p) (damage p) (fireRate p) (bulletSpeed p) (color p) (bulletCount p) (piercing p) (critChance p) (critDamage p) (quality p) (durability p) (maxDurability p) (clipSize p) (ammoInClip p) v.

End Weapon.

Module Player.

Record t : Type := mk {
  name : string;
  position : Vector2D;
  size : Size;
  health : Q;
  maxHealth : Q;
  shield : Q;
  maxShield : Q;
  shieldAbsorption : Q;
  speed : Q;
  baseDamage : Q;
  damageMultiplier : Q;
  thornsDamage : Q;
  gemMagnetRadius : Q;
  level : Z;
  xp : Q;
  xpToNextLevel : Q;
  invincibleUntil : Q;
  artifacts : list string;
  orbitals : option Orbitals.t;
  fireRate : option Q;
  critChance : option Q;
  critDamage : option Q;
  bulletSpeed : option Q
}.

Definition set_health (v : Q) (p : t) : t :=
  mk (name p) (position p) (size p) v (maxHealth p) (shield p) (maxShield p) (shieldAbsorption p) (speed p) (baseDamage p) (damageMultiplier p) (thornsDamage p) (gemMagnetRadius p) (level p) (xp p) (xpToNextLevel p) (invincibleUntil p) (artifacts p) (orbitals p) (fireRate p) (critChance p) (critDamage p) (bulletSpeed p).

Definition set_maxHealth (v : Q) (p : t) : t :=
  mk (name p) (position p) (size p) (health p) v (shield p) (maxShield p) (shieldAbsorption p) (speed p) (baseDamage p) (damageMultiplier p) (thornsDamage p) (gemMagnetRadius p) (level p) (xp p) (xpToNextLevel p) (invincibleUntil p) (artifacts p) (orbitals p) (fireRate p) (critChance p) (critDamage p) (bulletSpeed p).

Definition set_shield (v : Q) (p : t) : t :=
  mk (name p) (position p) (size p) (health p) (maxHealth p) v (maxShield p) (shieldAbsorption p) (speed p) (baseDamage p) (damageMultiplier p) (thornsDamage p) (gemMagnetRadius p) (level p) (xp p) (xpToNextLevel p) (invincibleUntil p) (artifacts p) (orbitals p) (fireRate p) (critChance p) (critDamage p) (bulletSpeed p).

Definition set_maxShield (v : Q) (p : t) : t :=
  mk (name p) (position p) (size p) (health p) (maxHealth p) (shield p) v (shieldAbsorption p) (speed p) (baseDamage p) (damageMultiplier p) (thornsDamage p) (gemMagnetRadius p) (level p) (xp p) (xpToNextLevel p) (invincibleUntil p) (artifacts p) (orbitals p) (fireRate p) (critChance p) (critDamage p) (bulletSpeed p).

Definition set_speed (v : Q) (p : t) : t :=
  mk (name p) (position p) (size p) (health p) (maxHealth p) (shield p) (maxShield p) (shieldAbsorption p) v (baseDamage p) (damageMultiplier p) (thornsDamage p) (gemMagnetRadius p) (level p) (xp p) (xpToNextLevel p) (invincibleUntil p) (artifacts p) (orbitals p) (fireRate p) (critChance p) (critDamage p) (bulletSpeed p).

Definition set_baseDamage (v : Q) (p : t) : t :=
  mk (name p) (position p) (size p) (health p) (maxHealth p) (shield p) (maxShield p) (shieldAbsorption p) (speed p) v (damageMultiplier p) (thornsDamage p) (gemMagnetRadius p) (level p) (xp p) (xpToNextLevel p) (invincibleUntil p) (artifacts p) (orbitals p) (fireRate p) (critChance p) (critDamage p) (bulletSpeed p).

Definition set_damageMultiplier (v : Q) (p : t) : t :=
  mk (name p) (position p) (size p) (health p) (maxHealth p) (shield p) (maxShield p) (shieldAbsorption p) (speed p) (baseDamage p) v (thornsDamage p) (gemMagnetRadius p) (level p) (xp p) (xpToNextLevel p) (invincibleUntil p) (artifacts p) (orbitals p) (fireRate p) (critChance p) (critDamage p) (bulletSpeed p).

Definition set_thornsDamage (v : Q) (p : t) : t :=
  mk (name p) (position p) (size p) (health p) (maxHealth p) (shield p) (maxShield p) (shieldAbsorption p) (speed p) (baseDamage p) (damageMultiplier p) v (gemMagnetRadius p) (level p) (xp p) (xpToNextLevel p) (invincibleUntil p) (artifacts p) (orbitals p) (fireRate p) (critChance p) (critDamage p) (bulletSpeed p).

Definition set_gemMagnetRadius (v : Q) (p : t) : t :=
  mk (name p) (position p) (size p) (health p) (maxHealth p) (shield p) (maxShield p) (shieldAbsorption p) (speed p) (baseDamage p) (damageMultiplier p) (thornsDamage p) v (level p) (xp p) (xpToNextLevel p) (invincibleUntil p) (artifacts p) (orbitals p) (fireRate p) (critChance p) (critDamage p) (bulletSpeed p).

Definition set_invincibleUntil (v : Q) (p : t) : t :=
  mk (name p) (position p) (size p) (health p) (maxHealth p) (shield p) (maxShield p) (shieldAbsorption p) (speed p) (baseDamage p) (damageMultiplier p) (thornsDamage p) (gemMagnetRadius p) (level p) (xp p) (xpToNextLevel p) v (artifacts p) (orbitals p) (fireRate p) (critChance p) (critDamage p) (bulletSpeed p).

Definition set_artifacts (v : list string) (p : t) : t :=
  mk (name p) (position p) (size p) (health p) (maxHealth p) (shield p) (maxShield p) (shieldAbsorption p) (speed p) (baseDamage p) (damageMultiplier p) (thornsDamage p) (gemMagnetRadius p) (level p) (xp p) (xpToNextLevel p) (invincibleUntil p) v (orbitals p) (fireRate p) (critChance p) (critDamage p) (bulletSpeed p).

Definition set_orbitals (v : option Orbitals.t) (p : t) : t :=
  mk (name p) (position p) (size p) (health p) (maxHealth p) (shield p) (maxShield p) (shieldAbsorption p) (speed p) (baseDamage p) (damageMultiplier p) (thornsDamage p) (gemMagnetRadius p) (level p) (xp p) (xpToNextLevel p) (invincibleUntil p) (artifacts p) v (fireRate p) (critChance p) (critDamage p) (bulletSpeed p).

Definition set_fireRate (v : option Q) (p : t) : t :=
  mk (name p) (position p) (size p) (health p) (maxHealth p) (shield p) (maxShield p) (shieldAbsorption p) (speed p) (baseDamage p) (damageMultiplier p) (thornsDamage p) (gemMagnetRadius p) (level p) (xp p) (xpToNextLevel p) (invincibleUntil p) (artifacts p) (orbitals p) v (critChance p) (critDamage p) (bulletSpeed p).

Definition set_critChance (v : option Q) (p : t) : t :=
  mk (name p) (position p) (size p) (health p) (maxHealth p) (shield p) (maxShield p) (shieldAbsorption p) (speed p) (baseDamage p) (damageMultiplier p) (thornsDamage p) (gemMagnetRadius p) (level p) (xp p) (xpToNextLevel p) (invincibleUntil p) (artifacts p) (orbitals p) (fireRate p) v (critDamage p) (bulletSpeed p).

Definition set_critDamage (v : option Q) (p : t) : t :=
  mk (name p) (position p) (size p) (health p) (maxHealth p) (shield p) (maxShield p) (shieldAbsorption p) (speed p) (baseDamage p) (damageMultiplier p) (thornsDamage p) (gemMagnetRadius p) (level p) (xp p) (xpToNextLevel p) (invincibleUntil p) (artifacts p) (orbitals p) (fireRate p) (critChance p) v (bulletSpeed p).

Definition set_bulletSpeed (v : option Q) (p : t) : t :=
  mk (name p) (position p) (size p) (health p) (maxHealth p) (shield p) (maxShield p) (shieldAbsorption p) (speed p) (baseDamage p) (damageMultiplier p) (thornsDamage p) (gemMagnetRadius p) (level p) (xp p) (xpToNextLevel p) (invincibleUntil p) (artifacts p) (orbitals p) (fireRate p) (critChance p) (critDamage p) v.

Definition set_level (v : Z) (p : t) : t :=
  mk (name p) (position p) (size p) (health p) (maxHealth p) (shield p) (maxShield p) (shieldAbsorption p) (speed p) (baseDamage p) (damageMultiplier p) (thornsDamage p) (gemMagnetRadius p) v (xp p) (xpToNextLevel p) (invincibleUntil p) (artifacts p) (orbitals p) (fireRate p) (critChance p) (critDamage p) (bulletSpeed p).

Definition set_xp (v : Q) (p : t) : t :=
  mk (name p) (position p) (size p) (health p) (maxHealth p) (shield p) (maxShield p) (shieldAbsorption p) (speed p) (baseDamage p) (damageMultiplier p) (thornsDamage p) (gemMagnetRadius p) (level p) v (xpToNextLevel p) (invincibleUntil p) (artifacts p) (orbitals p) (fireRate p) (critChance p) (critDamage p) (bulletSpeed p).

Definition set_xpToNextLevel (v : Q) (p : t) : t :=
  mk (name p) (position p) (size p) (health p) (maxHealth p) (shield p) (maxShield p) (shieldAbsorption p) (speed p) (baseDamage p) (damageMultiplier p) (thornsDamage p) (gemMagnetRadius p) (level p) (xp p) v (invincibleUntil p) (artifacts p) (orbitals p) (fireRate p) (critChance p) (critDamage p) (bulletSpeed p).

Definition obj (p : t) : GameObject := mkGameObject (position p) (size p).

End Player.

Module Ally.

(** The fields of an ally that the collision stages of the loop read and
    write. *)
Record t : Type := mk {
  id : string;
  position : Vector2D;
  size : Size;
  health : Q;
  maxHealth : Q;
  invincibleUntil : option Q;
  disappearsAt : Q
}.

Definition set_health (v : Q) (p : t) : t :=
  mk (id p) (position p) (size p) v (maxHealth p) (invincibleUntil p) (disappearsAt p).

Definition set_invincibleUntil (v : option Q) (p : t) : t :=
  mk (id p) (position p) (size p) (health p) (maxHealth p) v (disappearsAt p).

Definition obj (p : t) : GameObject := mkGameObject (position p) (size p).

End Ally.

(** ** utils.ts *)

Module Utils.

(** [checkCollision]: AABB overlap of two rectangles. *)
Definition checkCollision (a b : GameObject) : bool :=
  JS.ltb (x (position a)) (x (position b) + width (size b)) &&
  JS.ltb (x (position b)) (x (position a) + width (size a)) &&
  JS.ltb (y (position a)) (y (position b) + height (size b)) &&
  JS.ltb (y (position b)) (y (position a) + height (size a)).

(** The [for ... if (checkCollision(c, obs)) { ...; break; }] loops of the
    sources set their flag exactly when some element collides. *)
Definition collidesAny (c : GameObject) (obstacles : list GameObject) : bool :=
  existsb (checkCollision c) obstacles.

(** [getSlidingMove]: the X move is tried first and reverted on a hit; the
    Y move is then tried from the original Y and the (possibly reverted) X. *)
Definition getSlidingMove (entity : GameObject) (moveVector : Vector2D)
    (speed : Q) (obstacles : list GameObject) : Vector2D :=
  let movedX := x (position entity) + x moveVector * speed in
  let colliderX :=
    mkGameObject (mkVector2D movedX (y (position entity))) (size entity) in
  let newX :=
    if collidesAny colliderX obstacles then x (position entity) else movedX in
  let tempPosY := y (position entity) + y moveVector * speed in
  let colliderY := mkGameObject (mkVector2D newX tempPosY) (size entity) in
  let newY :=
    if collidesAny colliderY obstacles then y (position entity) else tempPosY in
  mkVector2D newX newY.

(** The [do ... while (collision && tries < maxTries)] loop of
    [findSafeTeleportLocation], with [remaining] samples left. *)
Fixpoint sampleLocation (remaining : nat) (entitySize : Size)
    (existingObjects : list GameObject) : Rng.M (option Vector2D) :=
  match remaining with
  | O => Rng.ret None
  | S n =>
      px <- Rng.randomInRange 0 (WORLD_WIDTH - width entitySize) ;;
      py <- Rng.randomInRange 0 (WORLD_HEIGHT - height entitySize) ;;
      let candidate := mkVector2D px py in
      if collidesAny (mkGameObject candidate entitySize) existingObjects
      then sampleLocation n entitySize existingObjects
      else Rng.ret (Some candidate)
  end.

Definition findSafeTeleportLocation (entitySize : Size)
    (existingObjects : list GameObject) : Rng.M Vector2D :=
  found <- sampleLocation 100 entitySize existingObjects ;;
  Rng.ret match found with
          | Some p => p
          | None => mkVector2D (WORLD_WIDTH / 2) (WORLD_HEIGHT / 2)
          end.

(** [calculateWrappedDistanceVector]: the shortest vector on the torus. *)
Definition wrapDelta (d world : Q) : Q :=
  if JS.ltb (world / 2) (Qabs d)
  then if JS.ltb 0 d then d - world else d + world
  else d.

Definition calculateWrappedDistanceVector (pos1 pos2 : Vector2D) : Vector2D :=
  mkVector2D (wrapDelta (x pos2 - x pos1) WORLD_WIDTH)
             (wrapDelta (y pos2 - y pos1) WORLD_HEIGHT).

(** *** [generateWorldObjects] *)

(** An avoid zone grown by 50 on every side. *)
Definition padZone (zone : GameObject) : GameObject :=
  mkGameObject
    (mkVector2D (x (position zone) - 50) (y (position zone) - 50))
    (mkSize (width (size zone) + 100) (height (size zone) + 100)).

(** An already placed object grown by [OBSTACLE_PADDING] on every side. *)
Definition padObstacle (existingObj : GameObject) : GameObject :=
  mkGameObject
    (mkVector2D (x (position existingObj) - OBSTACLE_PADDING)
                (y (position existingObj) - OBSTACLE_PADDING))
    (mkSize (width (size existingObj) + OBSTACLE_PADDING * 2)
            (height (size existingObj) + OBSTACLE_PADDING * 2)).

(** [placeObject(size)]: the [do ... while (collision)] loop, which gives up
    with [null] once [tries] exceeds 100; [remaining] samples are left. *)
Fixpoint placeObject (remaining : nat) (paddedAvoidZones allObjects : list GameObject)
    (size : Size) : Rng.M (option Vector2D) :=
  match remaining with
  | O => Rng.ret None
  | S n =>
      rx <- Rng.random ;;
      ry <- Rng.random ;;
      let position :=
        mkVector2D (rx * (WORLD_WIDTH - width size))
                   (ry * (WORLD_HEIGHT - height size)) in
      let newObject := mkGameObject position size in
      if collidesAny newObject paddedAvoidZones
         || collidesAny newObject (map padObstacle allObjects)
      then placeObject n paddedAvoidZones allObjects size
      else Rng.ret (Some position)
  end.

(** The three arrays that [generateWorldObjects] fills. *)
Record WorldObjects : Type := mkWorldObjects {
  worldObstacles : list Obstacle.t;
  worldBarrels : list ExplosiveBarrel.t;
  worldAll : list GameObject
}.

(** One iteration of the obstacle loop. *)
Definition generateObstacle (paddedAvoidZones : list GameObject)
    (acc : WorldObjects) : Rng.M WorldObjects :=
  w <- Rng.randomInRange MIN_OBSTACLE_SIZE MAX_OBSTACLE_SIZE ;;
  h <- Rng.randomInRange MIN_OBSTACLE_SIZE MAX_OBSTACLE_SIZE ;;
  let size := mkSize w h in
  placed <- placeObject 100 paddedAvoidZones (worldAll acc) size ;;
  match placed with
  | Some position =>
      health <- Rng.randomInRange 100 2000 ;;
      id <- Rng.uuid ;;
      let newObstacle := Obstacle.mk id position size health health in
      Rng.ret (mkWorldObjects (worldObstacles acc ++ [newObstacle])
                 (worldBarrels acc)
                 (worldAll acc ++ [Obstacle.obj newObstacle]))
  | None => Rng.ret acc
  end.

(** One iteration of the barrel loop. *)
Definition generateBarrel (paddedAvoidZones : list GameObject)
    (acc : WorldObjects) : Rng.M WorldObjects :=
  let size := mkSize EXPLOSIVE_BARREL_SIZE EXPLOSIVE_BARREL_SIZE in
  placed <- placeObject 100 paddedAvoidZones (worldAll acc) size ;;
  match placed with
  | Some position =>
      id <- Rng.uuid ;;
      let newBarrel := ExplosiveBarrel.mk id position size 10 10 None in
      Rng.ret (mkWorldObjects (worldObstacles acc)
                 (worldBarrels acc ++ [newBarrel])
                 (worldAll acc ++ [ExplosiveBarrel.obj newBarrel]))
  | None => Rng.ret acc
  end.

(** [generateWorldObjects(avoidZones)] *)
Definition generateWorldObjects (avoidZones : list GameObject)
    : Rng.M WorldObjects :=
  let paddedAvoidZones := map padZone avoidZones in
  withObstacles <-
    Rng.times OBSTACLE_COUNT (generateObstacle paddedAvoidZones)
      (mkWorldObjects [] [] []) ;;
  Rng.times EXPLOSIVE_BARREL_COUNT (generateBarrel paddedAvoidZones) withObstacles.

End Utils.

(** ** systems/wrapSystem.ts *)

Module WrapSystem.

(** One axis of [handleWrapAround]. *)
Definition wrapAxis (p extent world : Q) : Q :=
  if JS.ltb world p then - extent
  else if JS.ltb (p + extent) 0 then world
  else p.

(** [handleWrapAround]: an entity entirely beyond one edge re-enters from
    the opposite edge. *)
Definition handleWrapAround (entity : GameObject) : Vector2D :=
  mkVector2D
    (wrapAxis (x (position entity)) (width (size entity)) WORLD_WIDTH)
    (wrapAxis (y (position entity)) (height (size entity)) WORLD_HEIGHT).

(** The entity after [entity.position = handleWrapAround(entity)]. *)
Definition wrapped (entity : GameObject) : GameObject :=
  mkGameObject (handleWrapAround entity) (size entity).

End WrapSystem.

(** ** data/weaponNames.ts and services/geminiService.ts *)

Module GeminiService.

(** The English halves of the name pools. *)
Definition WEAPON_PREFIXES : list string :=
  [ "Void-forged"; "Infernal"; "Glacial"; "Thunderclap"; "Stardust";
    "Shadow-fused"; "Hallowed"; "Demonsbane"; "Giga-Pulse"; "Nanotech";
    "Quantum"; "Galactic"; "Apocalyptic"; "Crystalline"; "Hyper-Kinetic";
    "Phase-Shift" ]%string.

Definition WEAPON_SUFFIXES : list string :=
  [ "Rifle"; "Cannon"; "Blaster"; "Repeater"; "Launcher"; "Annihilator";
    "Shredder"; "Disruptor"; "Obliterator"; "Executioner"; "Vindicator";
    "Howitzer"; "Carbine"; "Devastator"; "Reaver"; "Striker" ]%string.

Definition pickRandom (arr : list string) : Rng.M string :=
  r <- Rng.random ;; Rng.ret (JS.pick arr r EmptyString).

Definition isShotgun (c : WeaponCategory) : bool :=
  match c with shotgun => true | _ => false end.

(** One iteration of the stat-point loop. *)
Definition applyStatPoint (wave : Z) (newStats : Weapon.t) : Rng.M Weapon.t :=
  roll <- Rng.random ;;
  if JS.ltb roll (25 # 100) then
    r <- Rng.random ;;
    Rng.ret (Weapon.set_damage
      (JS.round (Weapon.damage newStats * ((105 # 100) + r * (1 # 10))
                 * (1 + inject_Z wave / 50))) newStats)
  else if JS.ltb roll (5 # 10) then
    r <- Rng.random ;;
    Rng.ret (Weapon.set_fireRate
      (JS.toFixed2 (Weapon.fireRate newStats * ((102 # 100) + r * (8 # 100))))
      newStats)
  else if JS.ltb roll (6 # 10) then
    r <- Rng.randomInRange 1 5 ;;
    Rng.ret (Weapon.set_clipSize
      (Some (JS.orElse (Weapon.clipSize newStats) 10 + JS.ceil r)) newStats)
  else if JS.ltb roll (7 # 10) then
    r <- Rng.random ;;
    Rng.ret (Weapon.set_reloadTime
      (Some (JS.max 500 (JS.orElse (Weapon.reloadTime newStats) 2000
                         * ((95 # 100) - r * (5 # 100))))) newStats)
  else if JS.ltb roll (8 # 10) then
    Rng.ret (Weapon.set_critChance
      (Some (JS.min (75 # 100)
               (JS.orElse (Weapon.critChance newStats) (5 # 100) + (1 # 100))))
      newStats)
  else if JS.ltb roll (9 # 10) then
    Rng.ret (Weapon.set_critDamage
      (Some (JS.orElse (Weapon.critDamage newStats) (15 # 10) + (5 # 100)))
      newStats)
  else if JS.ltb roll (95 # 100) && Z.ltb 5 wave then
    Rng.ret (Weapon.set_piercing
      (Some (JS.orElse (Weapon.piercing newStats) 1 + 1)) newStats)
  else if isShotgun (Weapon.category newStats) then
    r <- Rng.randomInRange 1 2 ;;
    Rng.ret (Weapon.set_bulletCount
      (Some (JS.orElse (Weapon.bulletCount newStats) 1 + JS.floor r)) newStats)
  else Rng.ret newStats.

(** The quality score recomputed from the final stats. *)
Definition qualityScore (newStats : Weapon.t) : Q :=
  JS.floor
    (Weapon.damage newStats * Weapon.fireRate newStats
       * JS.orElse (Weapon.bulletCount newStats) 1
       * (1 + JS.orElse (Weapon.critChance newStats) 0
              * JS.orElse (Weapon.critDamage newStats) 0)
     + JS.orElse (Weapon.piercing newStats) 1 * 20
     + JS.or (Weapon.bulletSpeed newStats) 5 * 5
     - JS.orElse (Weapon.reloadTime newStats) 2000 / 100).

(** [generateUpgradedWeapon]; [None] stands for the [null] of the [catch]
    branch, which no arithmetic step of the body reaches. *)
Definition generateUpgradedWeapon (currentWeapon : Weapon.t) (wave : Z)
    : Rng.M (option Weapon.t) :=
  let statPoints := Z.to_nat (5 + wave / 3) in
  rolled <- Rng.times statPoints (applyStatPoint wave) currentWeapon ;;
  let withDamage :=
    Weapon.set_damage
      (JS.max (Weapon.damage rolled)
              (JS.round (Weapon.damage currentWeapon * (11 # 10)))) rolled in
  let withFireRate :=
    Weapon.set_fireRate
      (JS.max (Weapon.fireRate withDamage)
              (JS.toFixed2 (Weapon.fireRate currentWeapon * (101 # 100))))
      withDamage in
  prefix <- pickRandom WEAPON_PREFIXES ;;
  suffix <- pickRandom WEAPON_SUFFIXES ;;
  let name := (prefix ++ " " ++ suffix)%string in
  c <- Rng.random ;;
  let color := JS.floor (c * 16777215) in
  let quality := qualityScore withFireRate in
  let newStats :=
    Weapon.set_quality
      (JS.max quality (Weapon.quality currentWeapon + 10)) withFireRate in
  let durability := JS.max 100 (JS.floor (Weapon.quality newStats * (25 # 10))) in
  let finalWeapon :=
    Weapon.set_category special
      (Weapon.set_maxDurability (Some durability)
        (Weapon.set_durability (Some durability)
          (Weapon.set_ammoInClip (Weapon.clipSize newStats)
            (Weapon.set_color color
              (Weapon.set_name name newStats))))) in
  Rng.ret (Some finalWeapon).

(** [INITIAL_WEAPON] of constants.ts *)
Definition INITIAL_WEAPON : Weapon.t :=
  Weapon.mk "Pea Shooter" special 10 3 6 10741301 (Some 1) (Some 1)
    (Some (5 # 100)) (Some (15 # 10)) 50 (Some 999999) (Some 999999)
    (Some 20) (Some 20) (Some 2000).

(** [PISTOL_WEAPON] of constants.ts *)
Definition PISTOL_WEAPON : Weapon.t :=
  Weapon.mk "Basic Pistol" smg 5 2 7 10265519 (Some 1) (Some 1)
    (Some (1 # 100)) (Some (15 # 10)) 10 (Some 999999) (Some 999999)
    (Some 12) (Some 12) (Some 1500).

End GeminiService.

(** ** hooks/useGameLoop.ts *)

Module GameLoop.

(** *** The draft variables that [_takeDamage] closes over *)

Record Draft : Type := mkDraft {
  now : Q;
  difficultyModifiers : DifficultyModifiers;
  screenShakeEnabled : bool;
  score : Q;
  draftWave : Z;
  player : Player.t;
  isGameOver : bool;
  screenShake : Q;
  damageNumbers : list Q;
  leaderboard : list LeaderboardEntry;
  encounteredMonsters : list MonsterType;
  monsterIntro : option (MonsterType * Q)
}.

(** [.sort((a, b) => b.score - a.score)]: a stable sort, best score first. *)
Fixpoint insertByScore (e : LeaderboardEntry) (l : list LeaderboardEntry)
    : list LeaderboardEntry :=
  match l with
  | [] => [e]
  | h :: l' =>
      if JS.ltb (entryScore h) (entryScore e) then e :: h :: l'
      else h :: insertByScore e l'
  end.

Definition sortByScore (l : list LeaderboardEntry) : list LeaderboardEntry :=
  fold_left (fun acc e => insertByScore e acc) l [].

Definition invincible (d : Draft) : bool :=
  negb (JS.eqb (Player.invincibleUntil (player d)) 0) &&
  JS.ltb (now d) (Player.invincibleUntil (player d)).

Definition hasMonster (t : MonsterType) (seen : list MonsterType) : bool :=
  existsb (MonsterType_eqb t) seen.

(** [_takeDamage(amount, sourceType)] *)
Definition _takeDamage (amount : Q) (sourceType : option SourceType)
    (d : Draft) : Draft :=
  if isGameOver d || invincible d then d
  else
    let finalAmount :=
      JS.ceil (amount * playerDamageTaken (difficultyModifiers d)) in
    if JS.leb finalAmount 0 then d
    else
      let p := player d in
      let damageToShield := JS.min (Player.shield p) finalAmount in
      let damageAbsorbedByShield :=
        damageToShield * JS.or (Player.shieldAbsorption p) (75 # 100) in
      let remainingDamage := finalAmount - damageAbsorbedByShield in
      let p1 := Player.set_invincibleUntil (now d + INVINCIBILITY_DURATION) p in
      let p2 := Player.set_shield (Player.shield p1 - damageToShield) p1 in
      let p3 :=
        if JS.ltb 0 remainingDamage
        then Player.set_health
               (JS.max 0 (Player.health p2 - remainingDamage)) p2
        else p2 in
      let shake :=
        if screenShakeEnabled d then JS.min 15 (screenShake d + 5)
        else screenShake d in
      let dead := JS.leb (Player.health p3) 0 in
      let board :=
        if dead
        then firstn 10
               (sortByScore
                  (leaderboard d ++
                   [mkLeaderboardEntry (Player.name p3) (score d) (draftWave d)]))
        else leaderboard d in
      let newlySeen :=
        match sourceType with
        | Some (fromMonster t) =>
            if hasMonster t (encounteredMonsters d) then None else Some t
        | _ => None
        end in
      mkDraft (now d) (difficultyModifiers d) (screenShakeEnabled d) (score d)
        (draftWave d) p3 (isGameOver d || dead) shake
        (damageNumbers d ++ [finalAmount]) board
        match newlySeen with
        | Some t => encounteredMonsters d ++ [t]
        | None => encounteredMonsters d
        end
        match newlySeen with
        | Some t => Some (t, now d + MONSTER_INTRO_LIFESPAN)
        | None => monsterIntro d
        end.

(** The other two places of the loop that write [player.health]. *)





(** *** Player bullets (the loop over [bullets]) *)

Record Combat : Type := mkCombat {
  obstacles : list Obstacle.t;
  explosiveBarrels : list ExplosiveBarrel.t;
  monsters : list Monster.t;
  damageZones : list DamageZone;
  newBullets : list Bullet.t
}.

(** A [for] loop that updates the first element passing [test] and breaks;
    [None] when no element passes. *)
Fixpoint hitFirst {A : Type} (test : A -> bool) (upd : A -> A) (l : list A)
    : option (list A) :=
  match l with
  | [] => None
  | a :: l' =>
      if test a then Some (upd a :: l')
      else option_map (cons a) (hitFirst test upd l')
  end.

Definition zoneOf (now : Q) (at_ : Vector2D) (i : OnImpact) : DamageZone :=
  mkDamageZone (impactType i) at_ (impactSize i) (impactDamage i)
    (impactDuration i) now.

Definition hitsMonster (bullet : Bullet.t) (m : Monster.t) : bool :=
  negb (Monster.dying m) &&
  Utils.checkCollision (Bullet.obj bullet) (Monster.obj m).

(** The body of [for (const b of bullets)]. *)
Definition processPlayerBullet (now : Q) (weaponUsed : Weapon.t)
    (b : Bullet.t) (c : Combat) : Rng.M Combat :=
  let moved :=
    Bullet.set_position
      (mkVector2D (x (Bullet.position b) + x (Bullet.velocity b))
                  (y (Bullet.position b) + y (Bullet.velocity b))) b in
  let bullet :=
    Bullet.set_position (WrapSystem.handleWrapAround (Bullet.obj moved)) moved in
  if JS.ltb BULLET_LIFESPAN (now - Bullet.createdAt bullet) then
    Rng.ret
      match Bullet.onImpact bullet with
      | Some i =>
          mkCombat (obstacles c) (explosiveBarrels c) (monsters c)
            (damageZones c ++ [zoneOf now (Bullet.position bullet) i])
            (newBullets c)
      | None => c
      end
  else
    (* vs Obstacles *)
    let '(obstacles1, piercing1, hit1) :=
      match hitFirst
              (fun o => Utils.checkCollision (Bullet.obj bullet) (Obstacle.obj o))
              (fun o => Obstacle.set_health
                          (Obstacle.health o - Bullet.damage bullet) o)
              (obstacles c) with
      | Some l => (l, (Bullet.piercingLeft bullet - 1)%Z, true)
      | None => (obstacles c, Bullet.piercingLeft bullet, false)
      end in
    if hit1 && (piercing1 <=? 0)%Z then
      Rng.ret (mkCombat obstacles1 (explosiveBarrels c) (monsters c)
                 (damageZones c) (newBullets c))
    else
      (* vs Barrels *)
      let '(barrels2, piercing2, hit2) :=
        match hitFirst
                (fun o => Utils.checkCollision (Bullet.obj bullet)
                            (ExplosiveBarrel.obj o))
                (fun o => ExplosiveBarrel.set_health
                            (ExplosiveBarrel.health o - Bullet.damage bullet) o)
                (explosiveBarrels c) with
        | Some l => (l, (piercing1 - 1)%Z, true)
        | None => (explosiveBarrels c, piercing1, hit1)
        end in
      if hit2 && (piercing2 <=? 0)%Z then
        Rng.ret (mkCombat obstacles1 barrels2 (monsters c)
                   (damageZones c) (newBullets c))
      else
        (* vs Monsters *)
        stage3 <-
          (if existsb (hitsMonster bullet) (monsters c) then
             roll <- Rng.random ;;
             let critChance := JS.orElse (Weapon.critChance weaponUsed) 0 in
             let isCrit := JS.ltb roll critChance in
             let critDamageMultiplier :=
               if isCrit then JS.orElse (Weapon.critDamage weaponUsed) (15 # 10)
               else 1 in
             let finalDamage := Bullet.damage bullet * critDamageMultiplier in
             Rng.ret
               (match hitFirst (hitsMonster bullet)
                        (fun m => Monster.set_health
                                    (Monster.health m - finalDamage) m)
                        (monsters c) with
                | Some l => l
                | None => monsters c
                end, (piercing2 - 1)%Z, true)
           else Rng.ret (monsters c, piercing2, hit2)) ;;
        let '(monsters3, piercing3, hit3) := stage3 in
        if (0 <? piercing3)%Z && negb hit3 then
          Rng.ret (mkCombat obstacles1 barrels2 monsters3 (damageZones c)
                     (newBullets c ++ [Bullet.set_piercingLeft piercing3 bullet]))
        else
          Rng.ret (mkCombat obstacles1 barrels2 monsters3
                     (damageZones c) (newBullets c)).

(** [for (const b of bullets) { ... } bullets = newBullets]; the combat
    state enters with [newBullets] empty. *)
Definition processPlayerBullets (now : Q) (weaponUsed : Weapon.t)
    (bullets : list Bullet.t) (c : Combat) : Rng.M Combat :=
  Rng.forEach (processPlayerBullet now weaponUsed) bullets
    (mkCombat (obstacles c) (explosiveBarrels c) (monsters c) (damageZones c) []).


(** *** Post-collision cleanup *)

Definition DEATH_EFFECTS : list DeathEffect := [explode; run_wild; spin_fade].

(** The death effect drawn for a monster that has just been killed. *)
Definition chooseDeathEffect (t : MonsterType) : Rng.M DeathEffect :=
  let fromPool :=
    r <- Rng.random ;; Rng.ret (JS.pick DEATH_EFFECTS r explode) in
  match t with
  | normal =>
      r <- Rng.random ;;
      if JS.ltb r (3 # 10) then Rng.ret run_and_explode else fromPool
  | _ => fromPool
  end.

(** [monsters = monsters.map(m => ...)]: a monster at or below zero health
    that is not yet dying gets [diesAt = now]; the second component collects
    [newlyKilledMonsters]. *)
Definition markKilled (now : Q) (m : Monster.t)
    (acc : list Monster.t * list Monster.t)
    : Rng.M (list Monster.t * list Monster.t) :=
  let (done, newlyKilled) := acc in
  if JS.leb (Monster.health m) 0 && negb (Monster.dying m) then
    chosenEffect <- chooseDeathEffect (Monster.type m) ;;
    Rng.ret (done ++ [Monster.set_deathEffect (Some chosenEffect)
                        (Monster.set_diesAt (Some now) m)],
             newlyKilled ++ [m])
  else Rng.ret (done ++ [m], newlyKilled).

Definition postCollisionCleanup (now : Q) (monsters : list Monster.t)
    : Rng.M (list Monster.t * list Monster.t) :=
  Rng.forEach (markKilled now) monsters ([], []).




(** *** Level-up check and wave progression *)

(** The fields of [GameState] that gate the tick and drive the waves. *)
Record GameState : Type := mkGameState {
  isPaused : bool;
  gameOver : bool;
  isLevelingUp : bool;
  wave : Z;
  monstersKilledThisWave : Q;
  monstersToKillForNextWave : Q;
  isWaitingForBossClear : bool;
  isBossWave : bool;
  currentWaveTheme : option Z;
  statePlayer : Player.t
}.

(** The draft variables as they stand when control reaches the level-up
    check: the outcome of the movement, AI, barrel, bullet, collision and
    pick-up stages of this tick. *)
Record Frame : Type := mkFrame {
  frameNow : Q;
  framePlayer : Player.t;
  frameMonsters : list Monster.t;
  newlyKilledMonsters : list Monster.t;
  frameGameOver : bool;
  allObstacles : list GameObject
}.

Definition isBoss (m : Monster.t) : bool := MonsterType_eqb (Monster.type m) boss.

Definition waveHealthBonus (wave : Z) : Q :=
  if (1 <? wave)%Z then 200 + (inject_Z wave - 2) * 150 else 0.

(** The boss pushed onto [monsters] when the last regular monster is gone. *)
Definition spawnBoss (dm : DifficultyModifiers) (now : Q) (wave : Z)
    (allObstacles : list GameObject) : Rng.M Monster.t :=
  let health :=
    (800 + inject_Z wave * 150 + waveHealthBonus wave * 5) * monsterHealth dm in
  pos <- Utils.findSafeTeleportLocation (mkSize BOSS_SIZE BOSS_SIZE) allObstacles ;;
  id <- Rng.uuid ;;
  Rng.ret (Monster.mk id boss pos (mkSize BOSS_SIZE BOSS_SIZE)
             (((15 # 10) + inject_Z wave * (1 # 10)) * monsterSpeed dm)
             health health 200 now (Some 1%Z) None None None None).

(** [isWaitingForBossClear] after the kill-count test. *)
Definition waitingAfterKills (s : GameState) (f : Frame) : bool :=
  let killed :=
    monstersKilledThisWave s +
    inject_Z (Z.of_nat (List.length
      (filter (fun m => negb (isBoss m)) (newlyKilledMonsters f)))) in
  if negb (isWaitingForBossClear s) && negb (isBossWave s) &&
     JS.leb (monstersToKillForNextWave s) killed
  then true else isWaitingForBossClear s.

(** Whether the boss wave starts in this tick. *)
Definition bossWaveStarts (s : GameState) (f : Frame) : bool :=
  waitingAfterKills s f &&
  (List.length (filter (fun m => negb (Monster.dying m) && negb (isBoss m))
                  (frameMonsters f)) =? 0)%nat.

(** The local [isBossWave] when the boss-kill test is reached. *)
Definition bossWaveNow (s : GameState) (f : Frame) : bool :=
  if bossWaveStarts s f then true else isBossWave s.

(** [newlyKilledMonsters.find(m => m.type === 'boss')] *)
Definition bossKilled (f : Frame) : option Monster.t :=
  find isBoss (newlyKilledMonsters f).

(** The wave block of the loop on the gating fields; the second component
    is the boss it spawns, if any.  The world regeneration, achievements
    and timed events of a wave advance do not write these fields. *)
Definition waveProgression (dm : DifficultyModifiers) (s : GameState)
    (f : Frame) : Rng.M (GameState * option Monster.t) :=
  let killed :=
    monstersKilledThisWave s +
    inject_Z (Z.of_nat (List.length
      (filter (fun m => negb (isBoss m)) (newlyKilledMonsters f)))) in
  let waiting1 := waitingAfterKills s f in
  let starts := bossWaveStarts s f in
  let waiting2 := if starts then false else waiting1 in
  let bossWave2 := bossWaveNow s f in
  spawned <-
    (if starts then
       match currentWaveTheme s with
       | Some _ =>
           b <- spawnBoss dm (frameNow f) (wave s) (allObstacles f) ;;
           Rng.ret (Some b)
       | None => Rng.ret None
       end
     else Rng.ret None) ;;
  let advance :=
    bossWave2 && match bossKilled f with Some _ => true | None => false end in
  Rng.ret
    (if advance then
       mkGameState (isPaused s) (gameOver s || frameGameOver f) (isLevelingUp s)
         (wave s + 1)%Z 0
         (JS.floor (monstersToKillForNextWave s * (12 # 10) + 5))
         waiting2 false (Some (wave s + 1)%Z) (framePlayer f)
     else
       mkGameState (isPaused s) (gameOver s || frameGameOver f) (isLevelingUp s)
         (wave s) killed (monstersToKillForNextWave s)
         waiting2 bossWave2 (currentWaveTheme s) (framePlayer f),
     spawned).

(** The player after [player.level += 1; ...] of the level-up check. *)
Definition levelUp (p : Player.t) : Player.t :=
  Player.set_xpToNextLevel (JS.floor (Player.xpToNextLevel p * (15 # 10)))
    (Player.set_xp (Player.xp p - Player.xpToNextLevel p)
       (Player.set_level (Player.level p + 1)%Z p)).

(** [gameLoop] on the gating fields: the pause gate, the early return of the
    level-up check, and the wave block. *)
Definition gameLoop (dm : DifficultyModifiers) (prevState : GameState)
    (f : Frame) : Rng.M (GameState * option Monster.t) :=
  if isPaused prevState || gameOver prevState || isLevelingUp prevState then
    Rng.ret (prevState, None)
  else if JS.leb (Player.xpToNextLevel (framePlayer f)) (Player.xp (framePlayer f))
  then
    Rng.ret
      (mkGameState (isPaused prevState) (gameOver prevState || frameGameOver f)
         true (wave prevState) (monstersKilledThisWave prevState)
         (monstersToKillForNextWave prevState)
         (isWaitingForBossClear prevState) (isBossWave prevState)
         (currentWaveTheme prevState) (levelUp (framePlayer f)),
       None)
  else waveProgression dm prevState f.

(** A run of ticks, one frame outcome per tick. *)
Fixpoint runTicks (dm : DifficultyModifiers) (s : GameState)
    (frames : list Frame) : Rng.M GameState :=
  match frames with
  | [] => Rng.ret s
  | f :: rest =>
      r <- gameLoop dm s f ;;
      runTicks dm (fst r) rest
  end.

(** *** Regular spawning *)

(** [Math.max(200, 3000 - wave * 100)] *)
Definition monsterSpawnInterval (wave : Z) : Q :=
  JS.max 200 (3000 - inject_Z wave * 100).

(** [15 + wave * 3] *)
Definition maxMonsters (wave : Z) : Z := (15 + wave * 3)%Z.

(** The guard of the regular spawn, evaluated on the counters that the wave
    block of the same tick has just produced. *)
Definition regularSpawnDue (s : GameState) (now lastMonsterSpawnTime : Q)
    (monsters : list Monster.t) : bool :=
  negb (isWaitingForBossClear s) && negb (isBossWave s) &&
  JS.ltb (monsterSpawnInterval (wave s)) (now - lastMonsterSpawnTime) &&
  (Z.of_nat (List.length (filter (fun m => negb (Monster.dying m)) monsters))
   <? maxMonsters (wave s))%Z.

(** *** Reloading *)

(** [a ?? 0] *)
Definition nullish (a : option Q) : Q :=
  match a with Some v => v | None => 0 end.

(** The two reload fields of the player. *)
Record Reloading : Set := mkReloading {
  isReloading : bool;
  reloadUntil : option Q
}.

(** The weapon slots, the equipped index and the reload fields. *)
Record Arsenal : Type := mkArsenal {
  equippedWeapons : list (option Weapon.t);
  equippedWeaponIndex : nat;
  reloading : Reloading
}.

(** [equippedWeapons[weaponIndex]], [null] and out-of-range alike. *)
Definition currentWeaponOf (a : Arsenal) : option Weapon.t :=
  match nth_error (equippedWeapons a) (equippedWeaponIndex a) with
  | Some w => w
  | None => None
  end.

Fixpoint replaceAt {A : Type} (i : nat) (v : A) (l : list A) : list A :=
  match l, i with
  | [], _ => []
  | _ :: l', O => v :: l'
  | a :: l', S i' => a :: replaceAt i' v l'
  end.

(** [handleReload]: the manual reload request, at time [now]. *)
Definition handleReload (isGameOver isPaused : bool) (now : Q) (a : Arsenal)
    : Arsenal :=
  if isGameOver || isPaused then a
  else
    match currentWeaponOf a with
    | None => a
    | Some currentWeapon =>
        if isReloading (reloading a)
           || JS.leb (nullish (Weapon.clipSize currentWeapon))
                     (nullish (Weapon.ammoInClip currentWeapon))
           || JS.leb (nullish (Weapon.durability currentWeapon)) 0
        then a
        else
          mkArsenal (equippedWeapons a) (equippedWeaponIndex a)
            (mkReloading true
               (Some (now + JS.orElse (Weapon.reloadTime currentWeapon) 2000)))
    end.

(** The clip refilled from the reserve. *)
Definition refill (currentWeapon : Weapon.t) : Weapon.t :=
  let neededAmmo :=
    JS.orElse (Weapon.clipSize currentWeapon) 0
    - JS.orElse (Weapon.ammoInClip currentWeapon) 0 in
  let ammoFromReserve :=
    JS.min neededAmmo (nullish (Weapon.durability currentWeapon)) in
  if JS.ltb 0 ammoFromReserve then
    let loaded :=
      Weapon.set_ammoInClip
        (Some (JS.orElse (Weapon.ammoInClip currentWeapon) 0 + ammoFromReserve))
        currentWeapon in
    if JS.ltb (nullish (Weapon.durability loaded)) 9999
    then Weapon.set_durability
           (Some (nullish (Weapon.durability loaded) - ammoFromReserve)) loaded
    else loaded
  else currentWeapon.

(** The reloading logic at the top of the tick. *)
Definition finishReload (now : Q) (a : Arsenal) : Arsenal :=
  if isReloading (reloading a)
     && JS.leb (JS.orElse (reloadUntil (reloading a)) 0) now
  then
    mkArsenal
      match currentWeaponOf a with
      | Some currentWeapon =>
          replaceAt (equippedWeaponIndex a) (Some (refill currentWeapon))
            (equippedWeapons a)
      | None => equippedWeapons a
      end
      (equippedWeaponIndex a) (mkReloading false None)
  else a.

(** *** Health of obstacles and allies across a tick *)














End GameLoop.

(** ** ai/monsters/explosiveBarrelAI.ts *)

Module ExplosiveBarrelAI.

(** A value of the [barrelsToExplode] map. *)
Record Blast : Set := mkBlast {
  blastPosition : Vector2D;
  blastDamage : Q;
  blastSize : Q
}.

(** [barrelsToExplode]: a [Map] keyed by barrel id, kept in insertion order,
    which is the order [forEach] visits. *)
Definition Pending : Set := list (string * Blast).

Definition has (id : string) (m : Pending) : bool :=
  existsb (fun e => String.eqb (fst e) id) m.

Fixpoint set (id : string) (v : Blast) (m : Pending) : Pending :=
  match m with
  | [] => [(id, v)]
  | (k, w) :: m' =>
      if String.eqb k id then (k, v) :: m' else (k, w) :: set id v m'
  end.

(** The slices of [GameState] that the function destructures. *)
Record State : Type := mkState {
  explosiveBarrels : list ExplosiveBarrel.t;
  player : Player.t;
  monsters : list Monster.t;
  obstacles : list Obstacle.t;
  targetedObstacle : option string
}.

Record BarrelProcessingResult : Type := mkResult {
  updatedBarrels : list ExplosiveBarrel.t;
  updatedObstacles : list Obstacle.t;
  updatedMonsters : list Monster.t;
  newExplosions : list Explosion;
  newDamageNumbers : list Q;
  newAchievements : nat;
  updatedTargetedObstacle : option string
}.

Definition touchedByMonster (monsters : list Monster.t)
    (barrel : ExplosiveBarrel.t) : bool :=
  existsb (fun m => negb (Monster.dying m) &&
                    Utils.checkCollision (Monster.obj m) (ExplosiveBarrel.obj barrel))
    monsters.

(** Stage 1, the body of [explosiveBarrels.forEach]. *)
Definition detect (st : State) (pending : Pending) (barrel : ExplosiveBarrel.t)
    : Pending :=
  let blast := mkBlast (ExplosiveBarrel.position barrel) 100 150 in
  if JS.leb (ExplosiveBarrel.health barrel) 0 then
    if has (ExplosiveBarrel.id barrel) pending then pending
    else set (ExplosiveBarrel.id barrel) blast pending
  else if Utils.checkCollision (Player.obj (player st)) (ExplosiveBarrel.obj barrel)
  then set (ExplosiveBarrel.id barrel) blast pending
  else if touchedByMonster (monsters st) barrel
  then set (ExplosiveBarrel.id barrel) blast pending
  else pending.

(** The trigger condition of one barrel. *)
Definition triggered (st : State) (barrel : ExplosiveBarrel.t) : bool :=
  JS.leb (ExplosiveBarrel.health barrel) 0 ||
  Utils.checkCollision (Player.obj (player st)) (ExplosiveBarrel.obj barrel) ||
  touchedByMonster (monsters st) barrel.

Definition centre (o : GameObject) : Vector2D :=
  mkVector2D (x (position o) + width (size o) / 2)
             (y (position o) + height (size o) / 2).

Definition expCenter (exp : Blast) : Vector2D :=
  mkVector2D (x (blastPosition exp) + EXPLOSIVE_BARREL_SIZE / 2)
             (y (blastPosition exp) + EXPLOSIVE_BARREL_SIZE / 2).

(** The radius test [dist² < (exp.size / 2)²] around the blast centre. *)
Definition inBlast (exp : Blast) (c : Vector2D) : bool :=
  let e := expCenter exp in
  JS.ltb ((x c - x e) * (x c - x e) + (y c - y e) * (y c - y e))
         ((blastSize exp / 2) * (blastSize exp / 2)).

Definition explosionCollider (exp : Blast) : GameObject :=
  let e := expCenter exp in
  mkGameObject
    (mkVector2D (x e - blastSize exp / 2) (y e - blastSize exp / 2))
    (mkSize (blastSize exp) (blastSize exp)).

(** The accumulator of stage 2. *)
Record Effects (W : Type) : Type := mkEffects {
  world : W;
  effMonsters : list Monster.t;
  effObstacles : list Obstacle.t;
  effExplosions : list Explosion;
  effDamageNumbers : list Q
}.

Arguments mkEffects {W}.
Arguments world {W}.
Arguments effMonsters {W}.
Arguments effObstacles {W}.
Arguments effExplosions {W}.
Arguments effDamageNumbers {W}.

Section Process.

(** The world that the [takeDamage] callback writes to. *)
Variable W : Type.
Variable takeDamage : Q -> option SourceType -> W -> W.

(** Stage 2, the body of [barrelsToExplode.forEach]. *)
Definition explode (st : State) (now : Q) (acc : Effects W) (exp : Blast)
    : Effects W :=
  let explosion :=
    mkExplosion (blastPosition exp) (mkSize (blastSize exp) (blastSize exp))
      now EXPLOSION_DURATION (blastDamage exp) in
  let w1 :=
    if inBlast exp (centre (Player.obj (player st)))
    then takeDamage (blastDamage exp) (Some event) (world acc)
    else world acc in
  let hit (m : Monster.t) : bool :=
    negb (Monster.dying m) && inBlast exp (centre (Monster.obj m)) in
  let monsters1 :=
    map (fun m => if hit m
                  then Monster.set_health (Monster.health m - blastDamage exp) m
                  else m) (effMonsters acc) in
  let numbers :=
    map (fun _ => blastDamage exp) (filter hit (effMonsters acc)) in
  let obstacles1 :=
    map (fun o => if Utils.checkCollision (Obstacle.obj o) (explosionCollider exp)
                  then Obstacle.set_health
                         (Obstacle.health o - blastDamage exp * 2) o
                  else o) (effObstacles acc) in
  mkEffects w1 monsters1 obstacles1 (effExplosions acc ++ [explosion])
    (effDamageNumbers acc ++ numbers).

(** [processExplosiveBarrels(state, takeDamage, now, t)] *)
Definition processExplosiveBarrels (st : State) (now : Q) (w : W)
    : BarrelProcessingResult * W :=
  let barrelsToExplode := fold_left (detect st) (explosiveBarrels st) [] in
  let effects :=
    fold_left (explode st now) (map snd barrelsToExplode)
      (mkEffects w (monsters st) (obstacles st) [] []) in
  let remainingBarrels :=
    filter (fun b => negb (has (ExplosiveBarrel.id b) barrelsToExplode))
      (explosiveBarrels st) in
  let target :=
    match targetedObstacle st with
    | Some id => if has id barrelsToExplode then None else Some id
    | None => None
    end in
  (mkResult remainingBarrels (effObstacles effects) (effMonsters effects)
     (effExplosions effects) (effDamageNumbers effects)
     (if List.length barrelsToExplode =? 0 then 0 else 1)%nat target,
   world effects).

End Process.

End ExplosiveBarrelAI.

(** ** ai/monsters/bossAI.ts *)

Module BossAI.

(** A line pushed to [newDialogueHistory]; [dialoguePick] is the draw that
    indexes the dialogue pool. *)
Record DialogueEntry : Set := mkDialogueEntry {
  dialogueCreatedAt : Q;
  dialoguePick : Q
}.

Record AIResult : Type := mkAIResult {
  updatedMonster : Monster.t;
  newEnemyBullets : list EnemyBullet.t;
  newMonsters : list Monster.t;
  newExplosiveBarrels : list ExplosiveBarrel.t;
  newDialogueHistory : list DialogueEntry
}.

(** The phase transition logic: [nextPhase] from the current phase and the
    health fraction. *)
Definition nextPhaseOf (currentPhase : Z) (health maxHealth : Q) : Z :=
  let nextPhase :=
    if (currentPhase =? 1)%Z && JS.divLt health maxHealth (75 # 100)
    then 2%Z else currentPhase in
  if (currentPhase =? 2)%Z && JS.divLt health maxHealth (4 # 10)
  then 3%Z else nextPhase.

Definition phaseAtLeast (p : option Z) (n : Z) : bool :=
  match p with Some v => (n <=? v)%Z | None => false end.

Definition phaseIs (p : option Z) (n : Z) : bool :=
  match p with Some v => (v =? n)%Z | None => false end.

Definition enterHesitate (now : Q) (a : AIState.t) : AIState.t :=
  AIState.set_lastActionTime now (AIState.set_type hesitate a).

Section WithMath.

(** [Math.sqrt], [Math.cos], [Math.sin] and [Math.PI]. *)
Variables (sqrt cos sin : Q -> Q) (PI : Q).

(** The [for] loop of the barrage. *)
Fixpoint barrageBullets (monster : Monster.t) (dm : DifficultyModifiers)
    (now base : Q) (bulletsPerTick : Q) (indices : list Q)
    : Rng.M (list EnemyBullet.t) :=
  match indices with
  | [] => Rng.ret []
  | i :: rest =>
      let angle := base + i * 2 * PI / bulletsPerTick in
      id <- Rng.uuid ;;
      more <- barrageBullets monster dm now base bulletsPerTick rest ;;
      Rng.ret
        (EnemyBullet.mk id (Monster.id monster)
           (fromMonster (Monster.type monster))
           (mkVector2D
              (x (Monster.position monster) + width (Monster.size monster) / 2)
              (y (Monster.position monster) + height (Monster.size monster) / 2))
           (mkSize ENEMY_BULLET_SIZE ENEMY_BULLET_SIZE)
           (mkVector2D (cos angle * 5) (sin angle * 5))
           (12 * monsterDamage dm) now :: more)
  end.

(** The [for] loop that spawns minions. *)
Fixpoint spawnMinions (monster : Monster.t) (dm : DifficultyModifiers)
    (now : Q) (minionCount : nat) : Rng.M (list Monster.t) :=
  match minionCount with
  | O => Rng.ret []
  | S n =>
      let health := 30 * monsterHealth dm in
      id <- Rng.uuid ;;
      dx <- Rng.randomInRange (-50) 50 ;;
      dy <- Rng.randomInRange (-50) 50 ;;
      more <- spawnMinions monster dm now n ;;
      Rng.ret
        (Monster.mk id minion
           (mkVector2D (x (Monster.position monster) + dx)
                       (y (Monster.position monster) + dy))
           (mkSize MINION_SIZE MINION_SIZE)
           ((18 # 10) * monsterSpeed dm) health health 5 now
           None None None None None :: more)
  end.

(** Dialogue trigger: the state and the lines pushed to
    [newDialogueHistory]. *)
Definition dialogueTrigger (now : Q) (aiState : AIState.t)
    : Rng.M (AIState.t * list DialogueEntry) :=
  if JS.ltb 10000 (now - JS.orElse (AIState.lastDialogueTime aiState) 0) then
    r <- Rng.random ;;
    if JS.ltb r (2 # 10) then
      pick <- Rng.random ;;
      Rng.ret (AIState.set_lastDialogueTime (Some now) aiState,
               [mkDialogueEntry now pick])
    else Rng.ret (aiState, [])
  else Rng.ret (aiState, []).

(** [if (dashing && dashTarget) { ... } else if (hesitate && timeInState > 2000) { ... }]:
    the state and the boss position afterwards. *)
Definition dashOrChoose (monster : Monster.t) (allObstacles : list GameObject)
    (now timeInState : Q) (phase : option Z) (aiState : AIState.t)
    : Rng.M (AIState.t * Vector2D) :=
  match AIState.type aiState, AIState.dashTarget aiState with
  | dashing, Some target =>
      let dx := x target - x (Monster.position monster) in
      let dy := y target - y (Monster.position monster) in
      let dist := sqrt (dx * dx + dy * dy) in
      if JS.ltb dist 30 || JS.ltb (JS.orElse (AIState.dashEndTime aiState) 0) now
      then Rng.ret (enterHesitate now aiState, Monster.position monster)
      else Rng.ret
             (aiState,
              Utils.getSlidingMove (Monster.obj monster)
                (mkVector2D (dx / dist) (dy / dist))
                (Monster.speed monster * 3) allObstacles)
  | hesitate, _ =>
      if JS.ltb 2000 timeInState then
        randomAction <- Rng.random ;;
        let a := AIState.set_lastActionTime now aiState in
        if JS.ltb randomAction (4 # 10) then
          Rng.ret (AIState.set_barrageAngle (Some 0) (AIState.set_type barrage a),
                   Monster.position monster)
        else if JS.ltb randomAction (7 # 10) && phaseAtLeast phase 2 then
          Rng.ret (AIState.set_type charging a, Monster.position monster)
        else Rng.ret (AIState.set_type throwing a, Monster.position monster)
      else Rng.ret (aiState, Monster.position monster)
  | _, _ => Rng.ret (aiState, Monster.position monster)
  end.

(** [switch (aiState.type)]: the state, the bullets and the barrels. *)
Definition actOnState (monster : Monster.t) (player : Player.t)
    (dm : DifficultyModifiers) (now timeInState : Q) (phase : option Z)
    (aiState : AIState.t)
    : Rng.M (AIState.t * list EnemyBullet.t * list ExplosiveBarrel.t) :=
  match AIState.type aiState with
  | barrage =>
      if JS.ltb 3000 timeInState then
        Rng.ret (enterHesitate now aiState, [], [])
      else
        let indices := if phaseIs phase 3 then [0; 1; 2] else [0; 1] in
        let bulletsPerTick := if phaseIs phase 3 then 3 else 2 in
        let base := JS.orElse (AIState.barrageAngle aiState) 0 in
        bullets <- barrageBullets monster dm now base bulletsPerTick indices ;;
        Rng.ret (AIState.set_barrageAngle (Some (base + (15 # 100))) aiState,
                 bullets, [])
  | charging =>
      if JS.ltb 1500 timeInState then
        Rng.ret
          (AIState.set_dashEndTime (Some (now + 1000))
             (AIState.set_dashTarget (Some (Player.position player))
                (AIState.set_lastActionTime now
                   (AIState.set_type dashing aiState))), [], [])
      else Rng.ret (aiState, [], [])
  | throwing =>
      if JS.ltb 2500 timeInState then
        Rng.ret (enterHesitate now aiState, [], [])
      else if JS.ltb 800
                (now - JS.orElse (AIState.lastSpecialAttackTime aiState) 0)
      then
        let barrelVelX :=
          (x (Player.position player) - x (Monster.position monster)) / 50 in
        let barrelVelY :=
          (y (Player.position player) - y (Monster.position monster)) / 50 - 5 in
        id <- Rng.uuid ;;
        Rng.ret
          (AIState.set_lastSpecialAttackTime (Some now) aiState, [],
           [ExplosiveBarrel.mk id (Monster.position monster)
              (mkSize EXPLOSIVE_BARREL_SIZE EXPLOSIVE_BARREL_SIZE) 1 1
              (Some (mkVector2D barrelVelX barrelVelY))])
      else Rng.ret (aiState, [], [])
  | _ => Rng.ret (aiState, [], [])
  end.

(** Minion spawning, independent of state. *)
Definition minionSpawning (monster : Monster.t) (dm : DifficultyModifiers)
    (now : Q) (phase : option Z) (aiState : AIState.t)
    : Rng.M (AIState.t * list Monster.t) :=
  let spawnCooldown := 8000 - inject_Z (JS.orElseZ phase 1) * 1000 in
  if JS.ltb spawnCooldown
       (now - JS.orElse (AIState.lastMinionSpawnTime aiState) 0)
  then
    minions <-
      spawnMinions monster dm now (Z.to_nat (1 + JS.orElseZ phase 1)) ;;
    Rng.ret (AIState.set_lastMinionSpawnTime (Some now) aiState, minions)
  else Rng.ret (aiState, []).

(** [handleBossAI(monster, player, allObstacles, difficultyModifiers, now, viewport)] *)
Definition handleBossAI (monster : Monster.t) (player : Player.t)
    (allObstacles : list GameObject) (dm : DifficultyModifiers) (now : Q)
    : Rng.M AIResult :=
  let aiState0 :=
    match Monster.aiState monster with
    | Some a => a
    | None => AIState.mk hesitate now None None None None None None
    end in
  (* Phase transition logic *)
  let currentPhase := JS.orElseZ (Monster.phase monster) 1 in
  let nextPhase :=
    nextPhaseOf currentPhase (Monster.health monster) (Monster.maxHealth monster) in
  let changes := (currentPhase <? nextPhase)%Z in
  let phase1 := if changes then Some nextPhase else Monster.phase monster in
  let invincibleUntil1 :=
    if changes then Some (now + 2000) else Monster.invincibleUntil monster in
  let aiState1 := if changes then enterHesitate now aiState0 else aiState0 in
  (* Main AI state machine *)
  let timeInState := now - AIState.lastActionTime aiState1 in
  spoken <- dialogueTrigger now aiState1 ;;
  moved <- dashOrChoose monster allObstacles now timeInState phase1 (fst spoken) ;;
  acted <- actOnState monster player dm now timeInState phase1 (fst moved) ;;
  spawned <- minionSpawning monster dm now phase1 (fst (fst acted)) ;;
  Rng.ret
    (mkAIResult
       (Monster.set_aiState (Some (fst spawned))
          (Monster.set_position (snd moved)
             (Monster.set_invincibleUntil invincibleUntil1
                (Monster.set_phase phase1 monster))))
       (snd (fst acted)) (snd spawned) (snd acted) (snd spoken)).

End WithMath.

End BossAI.

(** ** Game.tsx: applying a chosen upgrade *)

Module Game.

(** The [stat] names that upgrades, cards and buffs carry. *)
Inductive Stat : Set :=
  | stat_maxHealth | stat_speed | stat_gemMagnetRadius | stat_thornsDamage
  | stat_maxShield | stat_baseDamage | stat_damageMultiplier
  | stat_fireRate | stat_critChance | stat_critDamage | stat_bulletSpeed.

Inductive Op : Set := op_add | op_multiply.

Inductive WeaponMod : Set := mod_piercing | mod_bulletCount.

Inductive Effect : Set :=
  | STAT_MOD (stat : Stat) (op : Op) (value : Q)
  | WEAPON_MOD (mod_ : WeaponMod) (value : Q)
  | HEAL (amount : Q)
  | ADD_SHIELD (amount : Q)
  | ORBITAL_SHIELD (count damage speed radius : Q).

Record UpgradeChoice : Set := mkUpgradeChoice {
  choiceId : string;
  effects : list Effect;
  isArtifact : bool;
  isCursed : bool
}.

(** [p[stat] || d] *)
Definition readStat (stat : Stat) (p : Player.t) (d : Q) : Q :=
  match stat with
  | stat_maxHealth => JS.or (Player.maxHealth p) d
  | stat_speed => JS.or (Player.speed p) d
  | stat_gemMagnetRadius => JS.or (Player.gemMagnetRadius p) d
  | stat_thornsDamage => JS.or (Player.thornsDamage p) d
  | stat_maxShield => JS.or (Player.maxShield p) d
  | stat_baseDamage => JS.or (Player.baseDamage p) d
  | stat_damageMultiplier => JS.or (Player.damageMultiplier p) d
  | stat_fireRate => JS.orElse (Player.fireRate p) d
  | stat_critChance => JS.orElse (Player.critChance p) d
  | stat_critDamage => JS.orElse (Player.critDamage p) d
  | stat_bulletSpeed => JS.orElse (Player.bulletSpeed p) d
  end.

(** [p[stat] = v] *)
Definition writeStat (stat : Stat) (v : Q) (p : Player.t) : Player.t :=
  match stat with
  | stat_maxHealth => Player.set_maxHealth v p
  | stat_speed => Player.set_speed v p
  | stat_gemMagnetRadius => Player.set_gemMagnetRadius v p
  | stat_thornsDamage => Player.set_thornsDamage v p
  | stat_maxShield => Player.set_maxShield v p
  | stat_baseDamage => Player.set_baseDamage v p
  | stat_damageMultiplier => Player.set_damageMultiplier v p
  | stat_fireRate => Player.set_fireRate (Some v) p
  | stat_critChance => Player.set_critChance (Some v) p
  | stat_critDamage => Player.set_critDamage (Some v) p
  | stat_bulletSpeed => Player.set_bulletSpeed (Some v) p
  end.

Definition modWeapon (mod_ : WeaponMod) (value : Q) (w : option Weapon.t)
    : option Weapon.t :=
  match w with
  | Some w =>
      Some match mod_ with
           | mod_piercing =>
               Weapon.set_piercing
                 (Some (JS.orElse (Weapon.piercing w) 1 + value)) w
           | mod_bulletCount =>
               Weapon.set_bulletCount
                 (Some (JS.orElse (Weapon.bulletCount w) 1 + value)) w
           end
  | None => None
  end.

(** The body of [choice.effects.forEach]: one case of the [switch]. *)
Definition applyEffect (acc : Player.t * list (option Weapon.t))
    (effect : Effect) : Player.t * list (option Weapon.t) :=
  let (p, newEquippedWeapons) := acc in
  match effect with
  | STAT_MOD stat op_add value =>
      let p1 := writeStat stat (readStat stat p 0 + value) p in
      let p2 :=
        match stat with
        | stat_maxHealth => Player.set_health (Player.health p1 + value) p1
        | stat_maxShield => Player.set_shield (Player.shield p1 + value) p1
        | _ => p1
        end in
      (p2, newEquippedWeapons)
  | STAT_MOD stat op_multiply value =>
      (writeStat stat (readStat stat p 1 * value) p, newEquippedWeapons)
  | WEAPON_MOD mod_ value =>
      (p, map (modWeapon mod_ value) newEquippedWeapons)
  | HEAL amount =>
      (Player.set_health
         (JS.min (Player.maxHealth p)
                 (Player.health p + Player.maxHealth p * (amount / 100))) p,
       newEquippedWeapons)
  | ADD_SHIELD amount =>
      (Player.set_shield
         (JS.min (Player.maxShield p) (Player.shield p + amount)) p,
       newEquippedWeapons)
  | ORBITAL_SHIELD count damage speed radius =>
      let o :=
        match Player.orbitals p with
        | Some o => o
        | None => Orbitals.mk 0 0 0 0 0
        end in
      let o1 := Orbitals.set_count (Orbitals.count o + count) o in
      let o2 := Orbitals.set_damage (JS.max (Orbitals.damage o1) damage) o1 in
      let o3 := Orbitals.set_speed (JS.max (Orbitals.speed o2) speed) o2 in
      let o4 := Orbitals.set_radius (JS.max (Orbitals.radius o3) radius) o3 in
      (Player.set_orbitals (Some o4) p, newEquippedWeapons)
  end.

(** The fields of [GameState] that [handleLevelUpSelect] computes with. *)
Record LevelUpState : Type := mkLevelUpState {
  player : Player.t;
  equippedWeapons : list (option Weapon.t);
  score : Q;
  isLevelingUp : bool;
  isPaused : bool
}.

(** [handleLevelUpSelect(choice)], as the state update it queues. *)
Definition handleLevelUpSelect (choice : UpgradeChoice) (prev : LevelUpState)
    : LevelUpState :=
  let p0 :=
    if isArtifact choice
    then Player.set_artifacts
           (Player.artifacts (player prev) ++ [choiceId choice]) (player prev)
    else player prev in
  let (p1, newEquippedWeapons) :=
    fold_left applyEffect (effects choice) (p0, equippedWeapons prev) in
  let p2 :=
    if JS.ltb (Player.maxHealth p1) (Player.health p1)
    then Player.set_health (Player.maxHealth p1) p1 else p1 in
  let p3 :=
    if JS.ltb (Player.maxShield p2) (Player.shield p2)
    then Player.set_shield (Player.maxShield p2) p2 else p2 in
  let newScore :=
    if isCursed choice then JS.floor (score prev * (12 # 10)) else score prev in
  mkLevelUpState p3 newEquippedWeapons newScore false false.

End Game.

(** ** ai/monsters/normalMonsterAI.ts *)

Module NormalMonsterAI.

Section WithMath.

(** [Math.sqrt] *)
Variable sqrt : Q -> Q.




End WithMath.

End NormalMonsterAI.

(** ** CardManagementScreen.tsx: equipping cards *)

Module CardManagementScreen.

Record InventoryCard : Set := mkInventoryCard {
  cardId : string;
  count : Z
}.

(** The two fields of [PlayerProfile] that a click on a card writes. *)
Record PlayerProfile : Set := mkPlayerProfile {
  equippedCardIds : list string;
  cardInventory : list InventoryCard
}.

(** [inventoryCard.count++] and [inventoryCard.count--], [inventoryCard]
    being the first entry of the inventory for the card, as seen in
    [newInventory]. *)
Fixpoint bump (id : string) (d : Z) (l : list InventoryCard)
    : list InventoryCard :=
  match l with
  | [] => []
  | c :: l' =>
      if String.eqb (cardId c) id
      then mkInventoryCard (cardId c) (count c + d) :: l'
      else c :: bump id d l'
  end.

(** [handleCardClick(card)], as the profile update it queues. *)
Definition handleCardClick (card : string) (p : PlayerProfile) : PlayerProfile :=
  let isEquipped := existsb (String.eqb card) (equippedCardIds p) in
  let inventoryCard :=
    find (fun c => String.eqb (cardId c) card) (cardInventory p) in
  if isEquipped then
    mkPlayerProfile
      (filter (fun id => negb (String.eqb id card)) (equippedCardIds p))
      match inventoryCard with
      | Some _ => bump card 1 (cardInventory p)
      | None => cardInventory p ++ [mkInventoryCard card 1]
      end
  else
    match inventoryCard with
    | Some c =>
        if (List.length (equippedCardIds p) <? MAX_EQUIPPED_CARDS)%nat
           && (0 <? count c)%Z
        then mkPlayerProfile (equippedCardIds p ++ [card])
               (bump card (-1) (cardInventory p))
        else p
    | None => p
    end.

End CardManagementScreen.

(** ** Notions and scenes that the properties are stated with *)

(** The player of [getInitialState], and a draft on normal difficulty. *)
Definition initialPlayer : Player.t :=
  Player.mk "player" (mkVector2D 1190 890) (mkSize PLAYER_SIZE PLAYER_SIZE)
    100 100 50 50 (75 # 100) 4 0 1 0 60 1 0 100 0 [] None None None None None.

Definition initialDraft (now : Q) : GameLoop.Draft :=
  GameLoop.mkDraft now DIFFICULTY_NORMAL true 0 1 initialPlayer false 0 [] []
    [] None.


(** A pistol bullet of damage 25 and [piercingLeft] [n] one step away from
    a monster of 10 health. *)
Definition bulletAt (n : Z) : Bullet.t :=
  Bullet.mk "b1" "player" (mkVector2D 96 100) (mkSize BULLET_SIZE BULLET_SIZE)
    (mkVector2D 7 0) 25 n 1000 None.

Definition weakMonster : Monster.t :=
  Monster.mk "m1" normal (mkVector2D 100 100) (mkSize 24 24) (12 # 10)
    10 10 10 0 None None None None None.

Definition toughMonster : Monster.t :=
  Monster.mk "m2" elite (mkVector2D 100 100) (mkSize 40 40) (12 # 10)
    200 200 50 0 None None None None None.

Definition arena (m : Monster.t) : GameLoop.Combat :=
  GameLoop.mkCombat [] [] [m] [] [].

(** The position a bullet is tested at: moved by its velocity, then wrapped. *)
Definition advanced (b : Bullet.t) : Bullet.t :=
  let moved :=
    Bullet.set_position
      (mkVector2D (x (Bullet.position b) + x (Bullet.velocity b))
                  (y (Bullet.position b) + y (Bullet.velocity b))) b in
  Bullet.set_position (WrapSystem.handleWrapAround (Bullet.obj moved)) moved.

(** The explosion that stage 2 creates for one entry of the map. *)
Definition explosionOf (now : Q) (exp : ExplosiveBarrelAI.Blast) : Explosion :=
  mkExplosion (ExplosiveBarrelAI.blastPosition exp)
    (mkSize (ExplosiveBarrelAI.blastSize exp) (ExplosiveBarrelAI.blastSize exp))
    now EXPLOSION_DURATION (ExplosiveBarrelAI.blastDamage exp).

Definition blastOf (barrel : ExplosiveBarrel.t) : ExplosiveBarrelAI.Blast :=
  ExplosiveBarrelAI.mkBlast (ExplosiveBarrel.position barrel) 100 150.

(** Every entry of the map carries the blast of an input barrel with that id. *)
Definition fromBarrels (barrels : list ExplosiveBarrel.t)
    (pending : ExplosiveBarrelAI.Pending) : Prop :=
  forall k v, In (k, v) pending ->
    exists b, In b barrels /\ ExplosiveBarrel.id b = k /\ v = blastOf b.


Definition barrelB : ExplosiveBarrel.t :=
  ExplosiveBarrel.mk "B" (mkVector2D 140 100)
    (mkSize EXPLOSIVE_BARREL_SIZE EXPLOSIVE_BARREL_SIZE) 10 10 None.


(** The Kinetic Orb upgrade, and a player who holds one orb already. *)
Definition kineticOrb : Game.UpgradeChoice :=
  Game.mkUpgradeChoice "orbital_shield_1" [Game.ORBITAL_SHIELD 1 15 2 70]
    false false.

Definition playerWithOrb : Game.LevelUpState :=
  Game.mkLevelUpState
    (Player.set_orbitals (Some (Orbitals.mk 1 15 2 70 0)) initialPlayer)
    [Some GeminiService.INITIAL_WEAPON; None; None] 0 true false.

(** Every draw of the oracle lies in the range of [Math.random()]. *)
Definition unitDraws (g : Rng.t) : Prop :=
  forall n, 0 <= Rng.draws g n /\ Rng.draws g n < 1.

(** The rectangle of the world. *)
Definition insideWorld (p : Vector2D) : Prop :=
  0 <= x p /\ x p <= WORLD_WIDTH /\ 0 <= y p /\ y p <= WORLD_HEIGHT.

(** The leaderboard order: best score first. *)
Definition byScoreDesc (a b : LeaderboardEntry) : Prop :=
  entryScore b <= entryScore a.

(** The shield invariant of the player. *)
Definition shieldInBounds (p : Player.t) : Prop :=
  0 <= Player.shield p /\ Player.shield p <= Player.maxShield p.

(** A hit that gets past the game-over and invincibility gates and still
    amounts to something after the difficulty modifier. *)
Definition hitLands (amount : Q) (d : GameLoop.Draft) : Prop :=
  GameLoop.isGameOver d = false /\
  GameLoop.invincible d = false /\
  JS.leb (JS.ceil (amount * playerDamageTaken (GameLoop.difficultyModifiers d))) 0
    = false.

(** Two monsters that differ in nothing but their health, and not at all when
    the first is dying; likewise obstacles and barrels. *)
Definition monsterHurt (m m' : Monster.t) : Prop :=
  Monster.set_health 0 m' = Monster.set_health 0 m /\
  (Monster.dying m = true -> m' = m).

Definition obstacleHurt (o o' : Obstacle.t) : Prop :=
  Obstacle.set_health 0 o' = Obstacle.set_health 0 o.

Definition barrelHurt (o o' : ExplosiveBarrel.t) : Prop :=
  ExplosiveBarrel.set_health 0 o' = ExplosiveBarrel.set_health 0 o.

(** The combat state [c'] is [c] with some healths changed, entry by entry. *)
Definition onlyHealthsChanged (c c' : GameLoop.Combat) : Prop :=
  Forall2 obstacleHurt (GameLoop.obstacles c) (GameLoop.obstacles c') /\
  Forall2 barrelHurt (GameLoop.explosiveBarrels c) (GameLoop.explosiveBarrels c') /\
  Forall2 monsterHurt (GameLoop.monsters c) (GameLoop.monsters c').

(** The three collision tests of the bullet loop all fail for [bullet]. *)
Definition touchesNothing (bullet : Bullet.t) (c : GameLoop.Combat) : bool :=
  negb (existsb
          (fun o => Utils.checkCollision (Bullet.obj bullet) (Obstacle.obj o))
          (GameLoop.obstacles c)) &&
  negb (existsb
          (fun o => Utils.checkCollision (Bullet.obj bullet)
                      (ExplosiveBarrel.obj o))
          (GameLoop.explosiveBarrels c)) &&
  negb (existsb (GameLoop.hitsMonster bullet) (GameLoop.monsters c)).

(** What the bullet loop leaves in [newBullets] for an input bullet [b]. *)
Definition survivorOf (now : Q) (c : GameLoop.Combat) (b b' : Bullet.t) : Prop :=
  b' = advanced b /\
  (0 < Bullet.piercingLeft b)%Z /\
  now - Bullet.createdAt b <= BULLET_LIFESPAN /\
  touchesNothing (advanced b) c = true.

(** The test of the post-collision cleanup: out of health and not yet dying. *)
Definition justKilled (m : Monster.t) : bool :=
  JS.leb (Monster.health m) 0 && negb (Monster.dying m).

(** What the cleanup makes of one monster. *)
Definition cleaned (now : Q) (m m' : Monster.t) : Prop :=
  if justKilled m
  then exists e,
         m' = Monster.set_deathEffect (Some e) (Monster.set_diesAt (Some now) m) /\
         (e = run_and_explode -> Monster.type m = normal)
  else m' = m.

(** A monster shot down to -15 health. *)
Definition shotMonster : Monster.t := Monster.set_health (-15) weakMonster.

(** The tick gets past the pause gate and the level-up check, and so runs
    the wave block. *)
Definition reachesWaveBlock (s : GameLoop.GameState) (f : GameLoop.Frame) : Prop :=
  GameLoop.isPaused s = false /\
  GameLoop.gameOver s = false /\
  GameLoop.isLevelingUp s = false /\
  JS.leb (Player.xpToNextLevel (GameLoop.framePlayer f))
         (Player.xp (GameLoop.framePlayer f)) = false.

(** The local [monstersKilledThisWave] of the wave block. *)
Definition killsSoFar (s : GameLoop.GameState) (f : GameLoop.Frame) : Q :=
  GameLoop.monstersKilledThisWave s +
  inject_Z (Z.of_nat (List.length
    (filter (fun m => negb (GameLoop.isBoss m)) (GameLoop.newlyKilledMonsters f)))).

(** Wave 1 with nine kills out of ten behind it. *)
Definition nineKills : GameLoop.GameState :=
  GameLoop.mkGameState false false false 1 9 10 false false (Some 1%Z)
    initialPlayer.

(** Wave 1 with the kill count reached, waiting for the field to clear. *)
Definition waitingForClear : GameLoop.GameState :=
  GameLoop.mkGameState false false false 1 10 10 true false (Some 1%Z)
    initialPlayer.

(** The boss wave of wave 1, and a boss that has just been shot down. *)
Definition bossWaveOne : GameLoop.GameState :=
  GameLoop.mkGameState false false false 1 10 10 false true (Some 1%Z)
    initialPlayer.

Definition fallenBoss : Monster.t :=
  Monster.mk "boss1" boss (mkVector2D 500 500) (mkSize BOSS_SIZE BOSS_SIZE)
    (16 # 10) (-5) 950 200 0 (Some 3%Z) None None None None.

(** A tick in which [shotMonster] is the kill of the frame while
    [toughMonster] is still about; a tick on an empty field; and the tick
    in which the boss falls. *)
Definition tenthKillFrame : GameLoop.Frame :=
  GameLoop.mkFrame 5000 initialPlayer
    [Monster.set_diesAt (Some 5000) shotMonster; toughMonster]
    [shotMonster] false [].

Definition clearFrame : GameLoop.Frame :=
  GameLoop.mkFrame 5000 initialPlayer [] [] false [].

Definition bossFallsFrame : GameLoop.Frame :=
  GameLoop.mkFrame 5000 initialPlayer [fallenBoss] [fallenBoss] false [].

(** A frame in which the player has gathered the experience of a level. *)
Definition levelFrame : GameLoop.Frame :=
  GameLoop.mkFrame 5000 (Player.set_xp 130 initialPlayer) [] [] false [].

(** A weapon with 3 rounds left in its clip of 20 and 40 in reserve, in the
    first of three slots. *)
Definition spentWeapon : Weapon.t :=
  Weapon.set_ammoInClip (Some 3)
    (Weapon.set_durability (Some 40) GeminiService.INITIAL_WEAPON).

Definition spentArsenal : GameLoop.Arsenal :=
  GameLoop.mkArsenal [Some spentWeapon; None; None] 0
    (GameLoop.mkReloading false None).

(** A monster hurt, its health not higher than before; likewise an obstacle. *)
Definition monsterBlasted (m m' : Monster.t) : Prop :=
  monsterHurt m m' /\ Monster.health m' <= Monster.health m.

Definition obstacleBlasted (o o' : Obstacle.t) : Prop :=
  obstacleHurt o o' /\ Obstacle.health o' <= Obstacle.health o.

(** A barrel at full health with nobody near it, targeted by the player. *)
Definition quietBarrel : ExplosiveBarrelAI.State :=
  ExplosiveBarrelAI.mkState [barrelB] initialPlayer [] [] (Some "B"%string).

(** A rectangle that overlaps none of the obstacles. *)
Definition clearOf (obstacles : list GameObject) (o : GameObject) : Prop :=
  forall b, In b obstacles -> Utils.checkCollision o b = false.

(** A pillar in the middle of the arena, and a boss in its dash towards a
    point beyond it. *)
Definition pillar : GameObject := mkGameObject (mkVector2D 600 500) (mkSize 50 50).

Definition dashingBoss : Monster.t :=
  Monster.mk "boss1" boss (mkVector2D 500 500) (mkSize BOSS_SIZE BOSS_SIZE)
    (16 # 10) 900 950 200 0 (Some 2%Z) None
    (Some (AIState.mk dashing 4900 None (Some (mkVector2D 900 500))
             (Some 6000) None None None))
    None None.

(** Two weapon slots that hold the same weapon up to [piercing] and
    [bulletCount], or are both empty. *)
Definition sameSlot (w w' : option Weapon.t) : Prop :=
  match w, w' with
  | Some a, Some b =>
      Weapon.set_piercing None (Weapon.set_bulletCount None b)
      = Weapon.set_piercing None (Weapon.set_bulletCount None a)
  | None, None => True
  | _, _ => False
  end.

(** The copies of a card that a profile holds: in stock and equipped. *)
Definition inStock (c : string) (l : list CardManagementScreen.InventoryCard) : Z :=
  fold_right
    (fun e acc =>
       if String.eqb (CardManagementScreen.cardId e) c
       then (CardManagementScreen.count e + acc)%Z else acc)
    0%Z l.

Definition owned (c : string) (p : CardManagementScreen.PlayerProfile) : Z :=
  (inStock c (CardManagementScreen.cardInventory p)
   + Z.of_nat (count_occ string_dec (CardManagementScreen.equippedCardIds p) c))%Z.

(** A profile with one card equipped and two kinds in stock. *)
Definition someProfile : CardManagementScreen.PlayerProfile :=
  CardManagementScreen.mkPlayerProfile ["swift"%string]
    [CardManagementScreen.mkInventoryCard "tough" 2;
     CardManagementScreen.mkInventoryCard "swift" 0].

(** What the two loops keep true of the objects placed so far. *)
Definition wellPlaced (zones : list GameObject) (acc : Utils.WorldObjects) : Prop :=
  Utils.worldAll acc
  = map Obstacle.obj (Utils.worldObstacles acc)
    ++ map ExplosiveBarrel.obj (Utils.worldBarrels acc) /\
  (forall o z, In o (Utils.worldAll acc) -> In z zones ->
     Utils.checkCollision o z = false) /\
  ForallOrdPairs
    (fun a b => Utils.checkCollision b (Utils.padObstacle a) = false)
    (Utils.worldAll acc).

(** An optional stat that is at most, or at least, a bound when present. *)
Definition optionLe (o : option Q) (c : Q) : Prop :=
  match o with Some v => v <= c | None => True end.

Definition optionGe (o : option Q) (c : Q) : Prop :=
  match o with Some v => c <= v | None => True end.

(** The [k]-th position that [findSafeTeleportLocation] samples when it
    runs on the oracle [g], and whether the entity overlaps something
    there. *)
Definition sampleAt (entitySize : Size) (g : Rng.t) (k : nat) : Vector2D :=
  mkVector2D
    (Rng.draws g (2 * k + Rng.cursor g)
     * (WORLD_WIDTH - width entitySize - 0) + 0)
    (Rng.draws g (S (2 * k + Rng.cursor g))
     * (WORLD_HEIGHT - height entitySize - 0) + 0).

Definition blocked (entitySize : Size) (existingObjects : list GameObject)
    (p : Vector2D) : bool :=
  Utils.collidesAny (mkGameObject p entitySize) existingObjects.









(** * Part II: properties *)

(** ** Comparisons and rounding *)

Lemma ltb_lt a b : JS.ltb a b = true <-> a < b.
Proof.
  unfold JS.ltb. rewrite negb_true_iff. split; intro H.
  - destruct (Qlt_le_dec a b) as [L | L]; [exact L |].
    apply Qle_bool_iff in L. congruence.
  - destruct (Qle_bool b a) eqn:E; [| reflexivity].
    apply Qle_bool_iff in E. lra.
Qed.

Lemma ltb_ge a b : JS.ltb a b = false <-> b <= a.
Proof. unfold JS.ltb. rewrite negb_false_iff. apply Qle_bool_iff. Qed.

Lemma leb_le a b : JS.leb a b = true <-> a <= b.
Proof. apply Qle_bool_iff. Qed.

Lemma leb_gt a b : JS.leb a b = false <-> b < a.
Proof.
  unfold JS.leb. split; intro H.
  - destruct (Qlt_le_dec b a) as [L | L]; [exact L |].
    apply Qle_bool_iff in L. congruence.
  - destruct (Qle_bool a b) eqn:E; [| reflexivity].
    apply Qle_bool_iff in E. lra.
Qed.

Lemma eqb_eq a b : JS.eqb a b = true <-> a == b.
Proof. apply Qeq_bool_iff. Qed.

Lemma eqb_neq a b : JS.eqb a b = false <-> ~ a == b.
Proof.
  unfold JS.eqb. split.
  - intros H E. apply Qeq_bool_iff in E. congruence.
  - intro H. destruct (Qeq_bool a b) eqn:E; [| reflexivity].
    apply Qeq_bool_iff in E. contradiction.
Qed.

Lemma max_l a b : a <= JS.max a b.
Proof. apply Q.le_max_l. Qed.

Lemma max_r a b : b <= JS.max a b.
Proof. apply Q.le_max_r. Qed.

Lemma max_case a b : JS.max a b == a \/ JS.max a b == b.
Proof.
  unfold JS.max. destruct (Q.max_spec a b) as [[_ H] | [_ H]]; auto.
Qed.

Lemma min_l a b : JS.min a b <= a.
Proof. apply Q.le_min_l. Qed.

Lemma min_r a b : JS.min a b <= b.
Proof. apply Q.le_min_r. Qed.

Lemma min_glb a b c : c <= a -> c <= b -> c <= JS.min a b.
Proof. apply Q.min_glb. Qed.



(** [Math.round] stays within one half of its argument. *)
Lemma round_close a : a - (1 # 2) < JS.round a /\ JS.round a <= a + (1 # 2).
Proof.
  unfold JS.round. split.
  - pose proof (Qlt_floor (a + (1 # 2))) as H.
    rewrite inject_Z_plus in H. change (inject_Z 1) with 1 in H. lra.
  - apply Qfloor_le.
Qed.

(** ** utils.ts: sliding moves *)

Lemma collidesAny_false c obstacles :
  Utils.collidesAny c obstacles = false <->
  forall o, In o obstacles -> Utils.checkCollision c o = false.
Proof.
  unfold Utils.collidesAny. induction obstacles as [| o os IH]; simpl.
  - split; [intros _ o [] | reflexivity].
  - rewrite orb_false_iff, IH. split.
    + intros [H1 H2] o' [<- | Hin]; auto.
    + intro H. split; [apply H; now left | intros o' Hin; apply H; now right].
Qed.

(** C10. If the entity's starting rectangle overlaps no obstacle or barrel
    of the list, then for every direction vector and every speed the
    rectangle at the position returned by [getSlidingMove] overlaps none of
    them either. *)
Theorem getSlidingMove_never_enters_obstacle
    (entity : GameObject) (moveVector : Vector2D) (speed : Q)
    (obstacles : list GameObject) :
  (forall o, In o obstacles -> Utils.checkCollision entity o = false) ->
  forall o, In o obstacles ->
    Utils.checkCollision
      (mkGameObject (Utils.getSlidingMove entity moveVector speed obstacles)
                    (size entity)) o = false.
Proof.
  intros Hstart. apply collidesAny_false.
  destruct entity as [[ex ey] sz]. unfold Utils.getSlidingMove. cbn [position size x y].
  destruct (Utils.collidesAny
              (mkGameObject (mkVector2D (ex + x moveVector * speed) ey) sz)
              obstacles) eqn:EX.
  - destruct (Utils.collidesAny
                (mkGameObject (mkVector2D ex (ey + y moveVector * speed)) sz)
                obstacles) eqn:EY.
    + apply collidesAny_false. exact Hstart.
    + exact EY.
  - destruct (Utils.collidesAny
                (mkGameObject
                   (mkVector2D (ex + x moveVector * speed)
                               (ey + y moveVector * speed)) sz)
                obstacles) eqn:EY.
    + exact EX.
    + exact EY.
Qed.

(** A wall 5 units to the right of the entity stops a 15-unit step. *)
Lemma getSlidingMove_never_enters_obstacle_witness :
  let entity := mkGameObject (mkVector2D 0 0) (mkSize 20 20) in
  let wall := mkGameObject (mkVector2D 25 0) (mkSize 50 50) in
  (forall o, In o [wall] -> Utils.checkCollision entity o = false) /\
  Utils.checkCollision
    (mkGameObject (Utils.getSlidingMove entity (mkVector2D 1 0) 15 [wall])
                  (size entity)) wall = false.
Proof.
  intros entity wall.
  assert (H : forall o, In o [wall] -> Utils.checkCollision entity o = false).
  { intros o [<- | []]. reflexivity. }
  split; [exact H |].
  apply (getSlidingMove_never_enters_obstacle entity (mkVector2D 1 0) 15 [wall] H).
  simpl. left. reflexivity.
Defined.

(** ** wrapSystem.ts *)

Lemma wrapAxis_fixed p extent world :
  p <= world -> 0 <= p + extent -> WrapSystem.wrapAxis p extent world = p.
Proof.
  intros H1 H2. unfold WrapSystem.wrapAxis.
  destruct (JS.ltb world p) eqn:E1.
  - apply ltb_lt in E1. lra.
  - destruct (JS.ltb (p + extent) 0) eqn:E2; [| reflexivity].
    apply ltb_lt in E2. lra.
Qed.

Lemma wrapAxis_range p extent world :
  0 <= extent -> 0 <= world ->
  WrapSystem.wrapAxis p extent world <= world /\
  0 <= WrapSystem.wrapAxis p extent world + extent.
Proof.
  intros He Hw. unfold WrapSystem.wrapAxis.
  destruct (JS.ltb world p) eqn:E1.
  - split; lra.
  - destruct (JS.ltb (p + extent) 0) eqn:E2.
    + split; lra.
    + apply ltb_ge in E1. apply ltb_ge in E2. split; assumption.
Qed.

Lemma wrapAxis_idempotent p extent world :
  0 <= extent -> 0 <= world ->
  WrapSystem.wrapAxis (WrapSystem.wrapAxis p extent world) extent world
  = WrapSystem.wrapAxis p extent world.
Proof.
  intros He Hw.
  destruct (wrapAxis_range p extent world He Hw) as [H1 H2].
  now apply wrapAxis_fixed.
Qed.

(** C8. For an entity of positive width (and non-negative height), one
    application of [handleWrapAround] to an entity standing exactly at
    [x = WORLD_WIDTH + size.width] puts it at [x = -size.width], and
    applying [handleWrapAround] to the wrapped entity changes nothing. *)
Theorem handleWrapAround_edge_then_fixed (entity : GameObject) :
  0 < width (size entity) -> 0 <= height (size entity) ->
  (x (position entity) == WORLD_WIDTH + width (size entity) ->
   x (WrapSystem.handleWrapAround entity) = - width (size entity)) /\
  WrapSystem.handleWrapAround (WrapSystem.wrapped entity)
  = WrapSystem.handleWrapAround entity.
Proof.
  intros Hw Hh. split.
  - intro Hx. unfold WrapSystem.handleWrapAround, WrapSystem.wrapAxis. cbn [x].
    destruct (JS.ltb WORLD_WIDTH (x (position entity))) eqn:E; [reflexivity |].
    apply ltb_ge in E. lra.
  - unfold WrapSystem.wrapped, WrapSystem.handleWrapAround. cbn [position size x y].
    rewrite !wrapAxis_idempotent; try reflexivity; try lra;
      unfold WORLD_WIDTH, WORLD_HEIGHT; lra.
Qed.

(** A bullet that has just left the right edge. *)
Lemma handleWrapAround_edge_then_fixed_witness :
  let bullet :=
    mkGameObject (mkVector2D (WORLD_WIDTH + BULLET_SIZE) 300)
                 (mkSize BULLET_SIZE BULLET_SIZE) in
  x (WrapSystem.handleWrapAround bullet) = - BULLET_SIZE /\
  WrapSystem.handleWrapAround (WrapSystem.wrapped bullet)
  = WrapSystem.handleWrapAround bullet.
Proof.
  intro bullet.
  assert (Hw : 0 < width (size bullet)) by (vm_compute; reflexivity).
  assert (Hh : 0 <= height (size bullet)) by (vm_compute; discriminate).
  destruct (handleWrapAround_edge_then_fixed bullet Hw Hh) as [Hedge Hfix].
  split; [apply Hedge; reflexivity | exact Hfix].
Defined.

(** ** useGameLoop.ts: damage to the player *)

Lemma takeDamage_unfold amount sourceType d :
  GameLoop.isGameOver d = false -> GameLoop.invincible d = false ->
  JS.leb (JS.ceil (amount * playerDamageTaken (GameLoop.difficultyModifiers d))) 0
    = false ->
  let p := GameLoop.player d in
  let finalAmount :=
    JS.ceil (amount * playerDamageTaken (GameLoop.difficultyModifiers d)) in
  let damageToShield := JS.min (Player.shield p) finalAmount in
  let remainingDamage :=
    finalAmount - damageToShield * JS.or (Player.shieldAbsorption p) (75 # 100) in
  Player.shield (GameLoop.player (GameLoop._takeDamage amount sourceType d))
    = Player.shield p - damageToShield /\
  Player.health (GameLoop.player (GameLoop._takeDamage amount sourceType d))
    = (if JS.ltb 0 remainingDamage
       then JS.max 0 (Player.health p - remainingDamage)
       else Player.health p) /\
  Player.invincibleUntil (GameLoop.player (GameLoop._takeDamage amount sourceType d))
    = GameLoop.now d + INVINCIBILITY_DURATION.
Proof.
  intros Hover Hinv Hpos. unfold GameLoop._takeDamage.
  rewrite Hover, Hinv, Hpos. cbn [orb GameLoop.player].
  destruct (JS.ltb 0 _); cbn; repeat split; reflexivity.
Qed.

(** C2. A player with [shield = 50], [shieldAbsorption = 0.75] and
    [health = 100] who is not invincible, under a damage-taken modifier
    of 1, takes a 40-damage hit: 40 shield is consumed, 30 of the damage is
    absorbed, the remaining 10 goes to health; [shield = 10] and
    [health = 90] afterwards. *)
Theorem takeDamage_shield_absorption_scenario
    (d : GameLoop.Draft) (sourceType : option SourceType) :
  GameLoop.isGameOver d = false ->
  GameLoop.invincible d = false ->
  playerDamageTaken (GameLoop.difficultyModifiers d) == 1 ->
  Player.shield (GameLoop.player d) == 50 ->
  Player.shieldAbsorption (GameLoop.player d) == 75 # 100 ->
  Player.health (GameLoop.player d) == 100 ->
  let p := GameLoop.player d in
  let p' := GameLoop.player (GameLoop._takeDamage 40 sourceType d) in
  Player.shield p - Player.shield p' == JS.min 50 40 /\
  JS.min 50 40 == 40 /\
  Player.health p - Player.health p' == 40 - 40 * (75 # 100) /\
  Player.shield p' == 10 /\
  Player.health p' == 90.
Proof.
  intros Hover Hinv Hmod Hshield Habs Hhealth p p'.
  assert (Hfinal :
    JS.ceil (40 * playerDamageTaken (GameLoop.difficultyModifiers d)) = 40).
  { unfold JS.ceil.
    assert (E : 40 * playerDamageTaken (GameLoop.difficultyModifiers d) == 40)
      by (rewrite Hmod; reflexivity).
    rewrite E. reflexivity. }
  assert (Hpos :
    JS.leb (JS.ceil (40 * playerDamageTaken (GameLoop.difficultyModifiers d))) 0
    = false) by (rewrite Hfinal; reflexivity).
  destruct (takeDamage_unfold 40 sourceType d Hover Hinv Hpos)
    as (Hs & Hh & _).
  rewrite Hfinal in Hs, Hh. fold p in Hs, Hh, Hshield, Habs, Hhealth.
  fold p' in Hs, Hh.
  assert (Hmin : JS.min (Player.shield p) 40 == 40).
  { unfold JS.min. destruct (Q.min_spec (Player.shield p) 40) as [[L E] | [L E]];
      rewrite E; lra. }
  assert (Hor : JS.or (Player.shieldAbsorption p) (75 # 100) == 75 # 100).
  { unfold JS.or. destruct (JS.eqb (Player.shieldAbsorption p) 0) eqn:E.
    - reflexivity.
    - exact Habs. }
  assert (Hrem :
    40 - JS.min (Player.shield p) 40 * JS.or (Player.shieldAbsorption p) (75 # 100)
    == 10) by (rewrite Hmin, Hor; reflexivity).
  assert (Hlt :
    JS.ltb 0 (40 - JS.min (Player.shield p) 40
                   * JS.or (Player.shieldAbsorption p) (75 # 100)) = true)
    by (apply ltb_lt; rewrite Hrem; reflexivity).
  rewrite Hlt in Hh.
  assert (Hmax : Player.health p' == 90).
  { rewrite Hh. unfold JS.max.
    destruct (Q.max_spec 0 (Player.health p -
      (40 - JS.min (Player.shield p) 40
            * JS.or (Player.shieldAbsorption p) (75 # 100)))) as [[L E] | [L E]];
      rewrite E; rewrite Hrem in *; lra. }
  assert (Hm : JS.min 50 40 == 40) by reflexivity.
  split; [| split; [| split; [| split]]].
  - rewrite Hs, Hm. lra.
  - exact Hm.
  - rewrite Hmax, Hhealth. reflexivity.
  - rewrite Hs, Hmin, Hshield. reflexivity.
  - exact Hmax.
Qed.

(** The initial player, hit for 40 by a shooter's bullet. *)
Lemma takeDamage_shield_absorption_scenario_witness :
  let d := initialDraft 1000 in
  let p' := GameLoop.player (GameLoop._takeDamage 40 (Some (fromMonster shooter)) d) in
  Player.shield p' == 10 /\ Player.health p' == 90.
Proof.
  intros d p'.
  assert (H1 : GameLoop.isGameOver d = false) by reflexivity.
  assert (H2 : GameLoop.invincible d = false) by reflexivity.
  assert (H3 : playerDamageTaken (GameLoop.difficultyModifiers d) == 1)
    by reflexivity.
  assert (H4 : Player.shield (GameLoop.player d) == 50) by reflexivity.
  assert (H5 : Player.shieldAbsorption (GameLoop.player d) == 75 # 100)
    by reflexivity.
  assert (H6 : Player.health (GameLoop.player d) == 100) by reflexivity.
  pose proof (takeDamage_shield_absorption_scenario d
                (Some (fromMonster shooter)) H1 H2 H3 H4 H5 H6) as H.
  cbv zeta in H. destruct H as (_ & _ & _ & Hs & Hh).
  split; [exact Hs | exact Hh].
Defined.

(** ** useGameLoop.ts: the player's health stays within its bounds *)







(** ** useGameLoop.ts: player bullets against monsters *)

Lemma advanced_piercingLeft b :
  Bullet.piercingLeft (advanced b) = Bullet.piercingLeft b.
Proof. destruct b; reflexivity. Qed.

(** The three ways the body of the loop ends, with the monad unfolded. *)
Ltac bullet_cases c :=
  unfold Rng.bind, Rng.ret;
  repeat match goal with
  | |- context [GameLoop.hitFirst ?t ?u (GameLoop.obstacles c)] =>
      destruct (GameLoop.hitFirst t u (GameLoop.obstacles c)); cbv beta iota
  | |- context [GameLoop.hitFirst ?t ?u (GameLoop.explosiveBarrels c)] =>
      destruct (GameLoop.hitFirst t u (GameLoop.explosiveBarrels c));
      cbv beta iota
  | |- context [(?n <=? 0)%Z] => destruct (n <=? 0)%Z; cbn [andb]
  end.

(** Whatever its [piercingLeft], a bullet that reaches a monster is not
    pushed to [newBullets]. *)
Lemma bullet_that_hits_monster_is_dropped now weaponUsed b c g :
  existsb (GameLoop.hitsMonster (advanced b)) (GameLoop.monsters c) = true ->
  GameLoop.newBullets (fst (GameLoop.processPlayerBullet now weaponUsed b c g))
  = GameLoop.newBullets c.
Proof.
  unfold GameLoop.processPlayerBullet. fold (advanced b).
  generalize (advanced b). intros bullet Hhit.
  destruct (JS.ltb BULLET_LIFESPAN (now - Bullet.createdAt bullet)).
  - unfold Rng.ret. cbn [fst]. destruct (Bullet.onImpact bullet); reflexivity.
  - bullet_cases c; try reflexivity; rewrite Hhit; cbn;
      rewrite andb_false_r; reflexivity.
Qed.

(** Every bullet of the next tick either was already pushed, or is the
    advanced bullet with its [piercingLeft] untouched. *)
Lemma surviving_bullet_keeps_piercing now weaponUsed b c g b' :
  In b' (GameLoop.newBullets (fst (GameLoop.processPlayerBullet now weaponUsed b c g))) ->
  In b' (GameLoop.newBullets c) \/
  (b' = Bullet.set_piercingLeft (Bullet.piercingLeft b) (advanced b) /\
   (0 < Bullet.piercingLeft b)%Z).
Proof.
  unfold GameLoop.processPlayerBullet. fold (advanced b).
  rewrite <- (advanced_piercingLeft b).
  generalize (advanced b). intros bullet.
  destruct (JS.ltb BULLET_LIFESPAN (now - Bullet.createdAt bullet)).
  - unfold Rng.ret. cbn [fst]. destruct (Bullet.onImpact bullet); cbn; auto.
  - bullet_cases c; try (cbn; now auto);
      destruct (existsb _ _); cbn;
      rewrite ?andb_false_r, ?andb_true_r; cbn; auto;
      destruct (0 <? Bullet.piercingLeft bullet)%Z eqn:E; cbn; auto;
      intro H; apply in_app_or in H; destruct H as [H | [<- | []]]; auto;
      right; (split; [reflexivity | now apply Z.ltb_lt]).
Qed.

(** C3 at its failing input.  A bullet with [piercingLeft = 3], 16 ms old,
    reaches a live monster of 200 health: the monster loses 25 health, and
    although the decremented [piercingLeft] would be 2 the bullet is not in
    the list kept for the next tick. *)
Theorem piercing_bullet_dropped_on_first_hit :
  let result :=
    fst (GameLoop.processPlayerBullets 1016 GeminiService.PISTOL_WEAPON
           [bulletAt 3] (arena toughMonster) (Rng.constant (1 # 2))) in
  JS.ltb BULLET_LIFESPAN (1016 - Bullet.createdAt (bulletAt 3)) = false /\
  GameLoop.newBullets result = [] /\
  exists m, GameLoop.monsters result = [m] /\ Monster.health m == 175.
Proof.
  cbv zeta. split; [reflexivity |]. split; [reflexivity |].
  eexists. split; [vm_compute; reflexivity | reflexivity].
Qed.

(** ** geminiService.ts: generated weapons *)

(** What the fail-safe and the quality clamp give for every baseline, every
    wave and every sequence of draws: quality grows by at least 10, and
    damage reaches the rounded value of 110 percent of the baseline. *)
Lemma generateUpgradedWeapon_guarantees currentWeapon wave g w :
  fst (GeminiService.generateUpgradedWeapon currentWeapon wave g) = Some w ->
  Weapon.quality currentWeapon + 10 <= Weapon.quality w /\
  JS.round (Weapon.damage currentWeapon * (11 # 10)) <= Weapon.damage w.
Proof.
  unfold GeminiService.generateUpgradedWeapon, GeminiService.pickRandom,
    Rng.bind, Rng.ret, Rng.random.
  destruct (Rng.times _ _ currentWeapon g) as [rolled g1].
  cbn. intro H. injection H as <-. cbn. split.
  - apply max_r.
  - apply max_r.
Qed.

(** The generator always returns a weapon: the [catch] branch is dead. *)
Lemma generateUpgradedWeapon_returns currentWeapon wave g :
  exists w, fst (GeminiService.generateUpgradedWeapon currentWeapon wave g) = Some w.
Proof.
  unfold GeminiService.generateUpgradedWeapon, GeminiService.pickRandom,
    Rng.bind, Rng.ret, Rng.random.
  destruct (Rng.times _ _ currentWeapon g) as [rolled g1].
  cbn. eexists. reflexivity.
Qed.

(** C1 at its failing input.  With draws that never select the damage
    upgrade, the weapon generated from [INITIAL_WEAPON] has damage 11, and
    the weapon generated from that one has damage 12, which is below
    1.1 x 11 = 12.1. *)
Theorem generateUpgradedWeapon_damage_below_110_percent :
  exists w1 w2,
    fst (GeminiService.generateUpgradedWeapon GeminiService.INITIAL_WEAPON 1
           (Rng.constant (3 # 10))) = Some w1 /\
    fst (GeminiService.generateUpgradedWeapon w1 1 (Rng.constant (3 # 10)))
      = Some w2 /\
    Weapon.damage w1 == 11 /\
    Weapon.damage w2 == 12 /\
    Weapon.damage w2 < (11 # 10) * Weapon.damage w1.
Proof.
  eexists. eexists.
  split; [vm_compute; reflexivity |].
  split; [vm_compute; reflexivity |].
  split; [reflexivity |]. split; [reflexivity |]. reflexivity.
Qed.

(** ** useGameLoop.ts: the wave counter *)

Lemma isBoss_type m : GameLoop.isBoss m = true -> Monster.type m = boss.
Proof. unfold GameLoop.isBoss. destruct (Monster.type m); now intros. Qed.

(** One tick either leaves [wave] alone or adds one to it, and adds one
    only when a boss is among the monsters killed in this tick while the
    boss wave is on. *)
Lemma gameLoop_wave_step dm s f g :
  let s' := fst (fst (GameLoop.gameLoop dm s f g)) in
  GameLoop.wave s' = GameLoop.wave s \/
  (GameLoop.wave s' = (GameLoop.wave s + 1)%Z /\
   (exists b, In b (GameLoop.newlyKilledMonsters f) /\ Monster.type b = boss) /\
   (GameLoop.isBossWave s = true \/ GameLoop.bossWaveStarts s f = true) /\
   GameLoop.isBossWave s' = false).
Proof.
  unfold GameLoop.gameLoop.
  destruct (GameLoop.isPaused s || GameLoop.gameOver s || GameLoop.isLevelingUp s);
    [now left |].
  destruct (JS.leb _ _); [now left |].
  unfold GameLoop.waveProgression, Rng.bind, Rng.ret.
  match goal with
  | |- context [(if GameLoop.bossWaveStarts s f then ?a else ?b) g] =>
      destruct ((if GameLoop.bossWaveStarts s f then a else b) g) as [spawned g1]
  end.
  cbn [fst].
  destruct (GameLoop.bossWaveNow s f && _) eqn:E; cbn [GameLoop.wave]; [| now left].
  right. apply andb_prop in E. destruct E as [Ewave Ekill].
  split; [reflexivity |]. split; [| split; [| reflexivity]].
  - unfold GameLoop.bossKilled in Ekill.
    destruct (find GameLoop.isBoss (GameLoop.newlyKilledMonsters f)) as [b |] eqn:Ef;
      [| discriminate].
    apply find_some in Ef. destruct Ef as [Hin Hb].
    exists b. split; [exact Hin | now apply isBoss_type].
  - unfold GameLoop.bossWaveNow in Ewave.
    destruct (GameLoop.bossWaveStarts s f); [now right | now left].
Qed.

Lemma runTicks_wave_le dm frames : forall s g,
  (GameLoop.wave s <= GameLoop.wave (fst (GameLoop.runTicks dm s frames g)))%Z.
Proof.
  induction frames as [| f frames IH]; intros s g; cbn.
  - lia.
  - unfold Rng.bind.
    pose proof (gameLoop_wave_step dm s f g) as Hstep. cbv zeta in Hstep.
    destruct (GameLoop.gameLoop dm s f g) as [r g1]. cbn [fst] in Hstep.
    specialize (IH (fst r) g1).
    destruct Hstep as [E | (E & _)]; lia.
Qed.

(** C6. Across any sequence of ticks the wave counter does not decrease;
    in one tick it either stays or grows by exactly 1, and it grows only in
    a tick in which a boss is among the newly killed monsters while the
    boss wave is on. *)
Theorem wave_monotone_and_boss_gated (dm : DifficultyModifiers) :
  (forall s frames g,
     (GameLoop.wave s <= GameLoop.wave (fst (GameLoop.runTicks dm s frames g)))%Z) /\
  (forall s f g,
     let s' := fst (fst (GameLoop.gameLoop dm s f g)) in
     GameLoop.wave s' = GameLoop.wave s \/
     (GameLoop.wave s' = (GameLoop.wave s + 1)%Z /\
      (exists b, In b (GameLoop.newlyKilledMonsters f) /\ Monster.type b = boss) /\
      (GameLoop.isBossWave s = true \/ GameLoop.bossWaveStarts s f = true) /\
      GameLoop.isBossWave s' = false)).
Proof.
  split.
  - intros s frames g. apply runTicks_wave_le.
  - intros s f g. apply gameLoop_wave_step.
Qed.

(** A boss wave in which the boss has just been killed moves on to the next
    wave. *)
Example wave_advances_on_boss_kill :
  let theBoss :=
    Monster.mk "boss1" boss (mkVector2D 500 500) (mkSize BOSS_SIZE BOSS_SIZE)
      (16 # 10) (-5) 950 200 0 (Some 3%Z) None None None None in
  let s := GameLoop.mkGameState false false false 1 10 10 false true (Some 1%Z)
             initialPlayer in
  let f := GameLoop.mkFrame 5000 initialPlayer [theBoss] [theBoss] false [] in
  let s' := fst (fst (GameLoop.gameLoop DIFFICULTY_NORMAL s f (Rng.constant (1 # 2)))) in
  GameLoop.wave s' = 2%Z /\ GameLoop.isBossWave s' = false /\
  GameLoop.monstersToKillForNextWave s' == 17.
Proof. cbv zeta. split; [reflexivity |]. split; reflexivity. Qed.

(** ** bossAI.ts: phases *)



Section BossStages.

Variables (sqrt cos sin : Q -> Q) (PI : Q).







End BossStages.


(** ** explosiveBarrelAI.ts: detonation in batches *)







Lemma fold_explode_explosions W takeDamage st now blasts : forall acc,
  ExplosiveBarrelAI.effExplosions
    (fold_left (ExplosiveBarrelAI.explode W takeDamage st now) blasts acc)
  = ExplosiveBarrelAI.effExplosions acc ++ map (explosionOf now) blasts.
Proof.
  induction blasts as [| exp blasts IH]; intros acc; cbn [fold_left map].
  - now rewrite app_nil_r.
  - rewrite IH. cbn. now rewrite <- app_assoc.
Qed.

Lemma set_fromBarrels barrels pending b :
  In b barrels -> fromBarrels barrels pending ->
  fromBarrels barrels
    (ExplosiveBarrelAI.set (ExplosiveBarrel.id b) (blastOf b) pending).
Proof.
  intros Hb. induction pending as [| [k w] pending IH]; intros H k' v' Hin; cbn in Hin.
  - destruct Hin as [E | []]. injection E as <- <-. now exists b.
  - destruct (String.eqb k (ExplosiveBarrel.id b)) eqn:E.
    + destruct Hin as [E' | Hin].
      * injection E' as <- <-. apply String.eqb_eq in E. now exists b.
      * apply (H k' v'). now right.
    + destruct Hin as [E' | Hin].
      * apply (H k' v'). left. exact E'.
      * apply IH; [| exact Hin]. intros k2 v2 H2. apply (H k2 v2). now right.
Qed.

Lemma detect_fromBarrels st barrels pending b :
  In b barrels -> fromBarrels barrels pending ->
  fromBarrels barrels (ExplosiveBarrelAI.detect st pending b).
Proof.
  intros Hb H. unfold ExplosiveBarrelAI.detect. fold (blastOf b).
  repeat match goal with
         | |- context [if ?c then _ else _] => destruct c
         end; auto using set_fromBarrels.
Qed.

Lemma fold_detect_fromBarrels st barrels : forall some pending,
  (forall b, In b some -> In b barrels) ->
  fromBarrels barrels pending ->
  fromBarrels barrels (fold_left (ExplosiveBarrelAI.detect st) some pending).
Proof.
  induction some as [| b some IH]; intros pending Hsub H; cbn.
  - exact H.
  - apply IH.
    + intros b' Hb'. apply Hsub. now right.
    + apply detect_fromBarrels; [apply Hsub; now left | exact H].
Qed.






(** ** Game.tsx: orbital upgrades *)

(** C9, as the code has it.  Choosing an upgrade whose only effect is
    [ORBITAL_SHIELD] for a player who already has orbitals adds the
    effect's [count] to the existing count, and sets [damage], [speed] and
    [radius] each to the larger of the existing value and the effect's. *)
Theorem orbital_shield_stacks_count_and_maxes_rest
    (choice : Game.UpgradeChoice) (prev : Game.LevelUpState)
    (o : Orbitals.t) (count damage speed radius : Q) :
  Player.orbitals (Game.player prev) = Some o ->
  Game.effects choice = [Game.ORBITAL_SHIELD count damage speed radius] ->
  exists o',
    Player.orbitals (Game.player (Game.handleLevelUpSelect choice prev)) = Some o' /\
    Orbitals.count o' = Orbitals.count o + count /\
    Orbitals.damage o' = JS.max (Orbitals.damage o) damage /\
    Orbitals.speed o' = JS.max (Orbitals.speed o) speed /\
    Orbitals.radius o' = JS.max (Orbitals.radius o) radius /\
    Orbitals.angle o' = Orbitals.angle o.
Proof.
  intros Ho He. unfold Game.handleLevelUpSelect. rewrite He.
  cbn [fold_left Game.applyEffect].
  assert (Hp0 : Player.orbitals
                  (if Game.isArtifact choice
                   then Player.set_artifacts
                          (Player.artifacts (Game.player prev) ++ [Game.choiceId choice])
                          (Game.player prev)
                   else Game.player prev) = Some o).
  { destruct (Game.isArtifact choice); [| exact Ho].
    destruct (Game.player prev); exact Ho. }
  rewrite Hp0.
  eexists. split.
  - cbn [Game.player].
    repeat match goal with
           | |- context [if ?c then _ else _] => destruct c
           end; reflexivity.
  - destruct o; cbn. repeat split; reflexivity.
Qed.

(** A second Kinetic Orb for a player who holds one. *)
Lemma orbital_shield_stacks_count_and_maxes_rest_witness :
  exists o',
    Player.orbitals (Game.player (Game.handleLevelUpSelect kineticOrb playerWithOrb))
      = Some o' /\
    Orbitals.count o' = 1 + 1 /\
    Orbitals.damage o' = JS.max 15 15.
Proof.
  assert (Ho : Player.orbitals (Game.player playerWithOrb)
               = Some (Orbitals.mk 1 15 2 70 0)) by reflexivity.
  assert (He : Game.effects kineticOrb = [Game.ORBITAL_SHIELD 1 15 2 70])
    by reflexivity.
  destruct (orbital_shield_stacks_count_and_maxes_rest kineticOrb playerWithOrb
              (Orbitals.mk 1 15 2 70 0) 1 15 2 70 Ho He)
    as (o' & Hsome & Hc & Hd & _).
  exists o'. split; [exact Hsome |]. split; [exact Hc | exact Hd].
Defined.

(** C9 fails for [count]: a second Kinetic Orb leaves the player with two
    orbs, not with the maximum of one and one. *)
Lemma orbital_count_is_summed :
  exists o',
    Player.orbitals (Game.player (Game.handleLevelUpSelect kineticOrb playerWithOrb))
      = Some o' /\
    Orbitals.count o' == 2 /\
    ~ Orbitals.count o' == JS.max 1 1.
Proof.
  eexists. split; [reflexivity |]. split; [reflexivity |].
  intro H. vm_compute in H. discriminate.
Qed.

(** * Part III: further properties of the code *)

(** ** utils.ts: collision *)

(** X1. [checkCollision] does not depend on the order of its arguments. *)
Theorem checkCollision_symmetric (a b : GameObject) :
  Utils.checkCollision a b = Utils.checkCollision b a.
Proof.
  unfold Utils.checkCollision.
  destruct (JS.ltb (x (position a)) _), (JS.ltb (x (position b)) _),
    (JS.ltb (y (position a)) _), (JS.ltb (y (position b)) _); reflexivity.
Qed.

Lemma checkCollision_swap a b :
  Utils.checkCollision a b = Utils.checkCollision b a.
Proof.
  unfold Utils.checkCollision.
  destruct (JS.ltb (x (position a)) _), (JS.ltb (x (position b)) _),
    (JS.ltb (y (position a)) _), (JS.ltb (y (position b)) _); reflexivity.
Qed.

(** ** utils.ts: teleport locations and wrapped distances *)

Lemma half_mult a : a / 2 == a * (1 # 2).
Proof. field. Qed.

Lemma randomInRange_run lo hi g :
  Rng.randomInRange lo hi g
  = (Rng.draws g (Rng.cursor g) * (hi - lo) + lo,
     Rng.mk (Rng.draws g) (S (Rng.cursor g)) (Rng.ids g) (Rng.idCursor g)).
Proof. reflexivity. Qed.

Lemma scaled_draw_range r c : 0 <= r -> r < 1 -> 0 <= c -> 0 <= r * c /\ r * c <= c.
Proof.
  intros H0 H1 Hc. split.
  - now apply Qmult_le_0_compat.
  - rewrite <- (Qmult_1_l c) at 2. apply Qmult_le_compat_r; lra.
Qed.

Lemma sampleLocation_found remaining entitySize existingObjects : forall g p,
  fst (Utils.sampleLocation remaining entitySize existingObjects g) = Some p ->
  Utils.collidesAny (mkGameObject p entitySize) existingObjects = false /\
  (unitDraws g ->
   0 <= WORLD_WIDTH - width entitySize -> 0 <= WORLD_HEIGHT - height entitySize ->
   0 <= x p /\ x p <= WORLD_WIDTH - width entitySize /\
   0 <= y p /\ y p <= WORLD_HEIGHT - height entitySize).
Proof.
  induction remaining as [| n IH]; intros g p; cbn [Utils.sampleLocation].
  - discriminate.
  - unfold Rng.bind. rewrite !randomInRange_run. cbn [Rng.draws Rng.cursor].
    destruct (Utils.collidesAny _ existingObjects) eqn:E.
    + intro H. destruct (IH _ _ H) as [Hfree Hin]. split; [exact Hfree |].
      intros Hu. apply Hin. exact Hu.
    + unfold Rng.ret. cbn [fst]. intro H. injection H as <-.
      split; [exact E |]. intros Hu Hw Hh. cbn [x y].
      destruct (Hu (Rng.cursor g)) as [A0 A1].
      destruct (Hu (S (Rng.cursor g))) as [B0 B1].
      destruct (scaled_draw_range _ (WORLD_WIDTH - width entitySize - 0) A0 A1)
        as [P0 P1]; [lra |].
      destruct (scaled_draw_range _ (WORLD_HEIGHT - height entitySize - 0) B0 B1)
        as [R0 R1]; [lra |].
      repeat split; lra.
Qed.

Lemma sampleAt_next entitySize g ids idCursor k :
  sampleAt entitySize
    (Rng.mk (Rng.draws g) (S (S (Rng.cursor g))) ids idCursor) k
  = sampleAt entitySize g (S k).
Proof.
  unfold sampleAt. cbn [Rng.draws Rng.cursor].
  replace (2 * S k + Rng.cursor g)%nat with (2 * k + S (S (Rng.cursor g)))%nat
    by lia.
  reflexivity.
Qed.

(** The loop returns the first sample that is free, if one of its
    [remaining] samples is. *)
Lemma sampleLocation_first remaining entitySize existingObjects : forall g,
  (exists k, (k < remaining)%nat /\
     fst (Utils.sampleLocation remaining entitySize existingObjects g)
     = Some (sampleAt entitySize g k) /\
     blocked entitySize existingObjects (sampleAt entitySize g k) = false /\
     forall j, (j < k)%nat ->
       blocked entitySize existingObjects (sampleAt entitySize g j) = true) \/
  (fst (Utils.sampleLocation remaining entitySize existingObjects g) = None /\
   forall j, (j < remaining)%nat ->
     blocked entitySize existingObjects (sampleAt entitySize g j) = true).
Proof.
  induction remaining as [| n IH]; intro g; cbn [Utils.sampleLocation].
  - right. split; [reflexivity |]. intros j Hj. lia.
  - unfold Rng.bind. rewrite !randomInRange_run. cbn [Rng.draws Rng.cursor].
    change (mkVector2D _ _) with (sampleAt entitySize g 0).
    fold (blocked entitySize existingObjects (sampleAt entitySize g 0)).
    destruct (blocked entitySize existingObjects (sampleAt entitySize g 0)) eqn:E.
    + set (g' := Rng.mk (Rng.draws g) (S (S (Rng.cursor g))) (Rng.ids g)
                   (Rng.idCursor g)).
      assert (Hnext : forall k, sampleAt entitySize g' k = sampleAt entitySize g (S k))
        by (intro k; apply sampleAt_next).
      destruct (IH g') as [(k & Hk & Efound & Hfree & Hbefore) | (Enone & Hall)].
      * left. exists (S k). rewrite Hnext in Efound, Hfree.
        split; [lia |]. split; [exact Efound |]. split; [exact Hfree |].
        intros [| j] Hj; [exact E |]. rewrite <- Hnext. apply Hbefore. lia.
      * right. split; [exact Enone |].
        intros [| j] Hj; [exact E |]. rewrite <- Hnext. apply Hall. lia.
    + left. exists 0%nat. split; [lia |]. split; [reflexivity |].
      split; [exact E |]. intros j Hj. lia.
Qed.

(** X4. [findSafeTeleportLocation] draws up to 100 positions and returns
    the first of them at which the entity overlaps none of the existing
    objects; it returns the centre of the world only when all 100 samples
    overlap something. *)
Theorem findSafeTeleportLocation_free_or_centre
    (entitySize : Size) (existingObjects : list GameObject) (g : Rng.t) :
  let p := fst (Utils.findSafeTeleportLocation entitySize existingObjects g) in
  (exists k, (k < 100)%nat /\
     p = sampleAt entitySize g k /\
     (forall o, In o existingObjects ->
        Utils.checkCollision (mkGameObject p entitySize) o = false) /\
     forall j, (j < k)%nat ->
       blocked entitySize existingObjects (sampleAt entitySize g j) = true) \/
  ((forall j, (j < 100)%nat ->
      blocked entitySize existingObjects (sampleAt entitySize g j) = true) /\
   p = mkVector2D (WORLD_WIDTH / 2) (WORLD_HEIGHT / 2)).
Proof.
  cbv zeta. unfold Utils.findSafeTeleportLocation, Rng.bind, Rng.ret.
  destruct (sampleLocation_first 100 entitySize existingObjects g)
    as [(k & Hk & Efound & Hfree & Hbefore) | (Enone & Hall)].
  - left. exists k.
    destruct (Utils.sampleLocation 100 entitySize existingObjects g) as [found g1].
    cbn [fst] in *. subst found.
    split; [exact Hk |]. split; [reflexivity |]. split; [| exact Hbefore].
    apply collidesAny_false. exact Hfree.
  - right.
    destruct (Utils.sampleLocation 100 entitySize existingObjects g) as [found g1].
    cbn [fst] in *. subst found. split; [exact Hall | reflexivity].
Qed.

(** X5. With draws in [0, 1) and an entity no larger than half the world on
    either axis, the position returned by [findSafeTeleportLocation] keeps
    the whole entity inside the world rectangle. *)
Theorem findSafeTeleportLocation_inside_world
    (entitySize : Size) (existingObjects : list GameObject) (g : Rng.t) :
  unitDraws g ->
  0 <= width entitySize -> width entitySize <= WORLD_WIDTH / 2 ->
  0 <= height entitySize -> height entitySize <= WORLD_HEIGHT / 2 ->
  let p := fst (Utils.findSafeTeleportLocation entitySize existingObjects g) in
  0 <= x p /\ x p + width entitySize <= WORLD_WIDTH /\
  0 <= y p /\ y p + height entitySize <= WORLD_HEIGHT.
Proof.
  intros Hu Hw0 Hw Hh0 Hh. cbv zeta.
  rewrite half_mult in Hw, Hh.
  unfold Utils.findSafeTeleportLocation, Rng.bind, Rng.ret.
  unfold WORLD_WIDTH, WORLD_HEIGHT in *.
  destruct (Utils.sampleLocation 100 entitySize existingObjects g)
    as [[p |] g1] eqn:E; cbn [fst].
  - assert (E' : fst (Utils.sampleLocation 100 entitySize existingObjects g) = Some p)
      by now rewrite E.
    destruct (sampleLocation_found 100 entitySize existingObjects g p E') as [_ Hin].
    unfold WORLD_WIDTH, WORLD_HEIGHT in Hin.
    destruct (Hin Hu) as (A & B & C & D); [lra | lra |].
    repeat split; lra.
  - cbn [x y]. rewrite !half_mult. repeat split; lra.
Qed.

Lemma unitDraws_constant : unitDraws (Rng.constant (1 # 2)).
Proof. intro n. cbn. split; lra. Qed.

(** A boss-sized entity, one obstacle, every draw one half. *)
Lemma findSafeTeleportLocation_inside_world_witness :
  let size := mkSize BOSS_SIZE BOSS_SIZE in
  let p :=
    fst (Utils.findSafeTeleportLocation size
           [mkGameObject (mkVector2D 0 0) (mkSize 100 100)]
           (Rng.constant (1 # 2))) in
  unitDraws (Rng.constant (1 # 2)) /\
  0 <= x p /\ x p + width size <= WORLD_WIDTH /\
  0 <= y p /\ y p + height size <= WORLD_HEIGHT.
Proof.
  intros size p. split; [exact unitDraws_constant |].
  apply (findSafeTeleportLocation_inside_world size _ (Rng.constant (1 # 2))
           unitDraws_constant); vm_compute; discriminate.
Defined.

Lemma wrapDelta_spec d world :
  0 <= world -> - world <= d -> d <= world ->
  let r := Utils.wrapDelta d world in
  - (world / 2) <= r /\ r <= world / 2 /\
  (r == d \/ r == d - world \/ r == d + world).
Proof.
  intros Hw Hlo Hhi. cbv zeta. unfold Utils.wrapDelta.
  destruct (JS.ltb (world / 2) (Qabs d)) eqn:E.
  - apply ltb_lt in E.
    destruct (JS.ltb 0 d) eqn:Ed.
    + apply ltb_lt in Ed. rewrite Qabs_pos in E by lra.
      rewrite half_mult in *. repeat split; lra.
    + apply ltb_ge in Ed. rewrite Qabs_neg in E by lra.
      rewrite half_mult in *. repeat split; lra.
  - apply ltb_ge in E. apply Qabs_Qle_condition in E.
    rewrite half_mult in *. repeat split; lra.
Qed.

(** X6. For two points of the world rectangle,
    [calculateWrappedDistanceVector] returns a vector that is at most half
    the world long on each axis and differs from [pos2 - pos1] by zero or
    one world size on each axis. *)
Theorem calculateWrappedDistanceVector_shortest (pos1 pos2 : Vector2D) :
  insideWorld pos1 -> insideWorld pos2 ->
  let v := Utils.calculateWrappedDistanceVector pos1 pos2 in
  Qabs (x v) <= WORLD_WIDTH / 2 /\ Qabs (y v) <= WORLD_HEIGHT / 2 /\
  (x v == x pos2 - x pos1 \/ x v == x pos2 - x pos1 - WORLD_WIDTH \/
   x v == x pos2 - x pos1 + WORLD_WIDTH) /\
  (y v == y pos2 - y pos1 \/ y v == y pos2 - y pos1 - WORLD_HEIGHT \/
   y v == y pos2 - y pos1 + WORLD_HEIGHT).
Proof.
  intros (A1 & A2 & A3 & A4) (B1 & B2 & B3 & B4). cbv zeta.
  unfold Utils.calculateWrappedDistanceVector. cbn [x y].
  destruct (wrapDelta_spec (x pos2 - x pos1) WORLD_WIDTH) as (X1 & X2 & X3);
    [unfold WORLD_WIDTH; lra | lra | lra |].
  destruct (wrapDelta_spec (y pos2 - y pos1) WORLD_HEIGHT) as (Y1 & Y2 & Y3);
    [unfold WORLD_HEIGHT; lra | lra | lra |].
  split; [apply Qabs_Qle_condition; split; assumption |].
  split; [apply Qabs_Qle_condition; split; assumption |].
  split; assumption.
Qed.

(** Two points near opposite edges are 100 apart through the edge. *)
Lemma calculateWrappedDistanceVector_shortest_witness :
  let pos1 := mkVector2D 2350 900 in
  let pos2 := mkVector2D 50 900 in
  insideWorld pos1 /\ insideWorld pos2 /\
  Qabs (x (Utils.calculateWrappedDistanceVector pos1 pos2)) <= WORLD_WIDTH / 2.
Proof.
  intros pos1 pos2.
  assert (H1 : insideWorld pos1) by (repeat split; vm_compute; discriminate).
  assert (H2 : insideWorld pos2) by (repeat split; vm_compute; discriminate).
  split; [exact H1 |]. split; [exact H2 |].
  exact (proj1 (calculateWrappedDistanceVector_shortest pos1 pos2 H1 H2)).
Defined.

(** ** wrapSystem.ts: where a wrapped entity can be *)

(** X7. After [handleWrapAround] an entity of non-negative size is never
    entirely beyond an edge, and an entity that was not entirely beyond an
    edge is left where it is. *)
Theorem handleWrapAround_range_and_fixpoint (entity : GameObject) :
  0 <= width (size entity) -> 0 <= height (size entity) ->
  let p := WrapSystem.handleWrapAround entity in
  (- width (size entity) <= x p /\ x p <= WORLD_WIDTH /\
   - height (size entity) <= y p /\ y p <= WORLD_HEIGHT) /\
  (- width (size entity) <= x (position entity) ->
   x (position entity) <= WORLD_WIDTH ->
   - height (size entity) <= y (position entity) ->
   y (position entity) <= WORLD_HEIGHT ->
   p = position entity).
Proof.
  intros Hw Hh. cbv zeta. unfold WrapSystem.handleWrapAround. cbn [x y]. split.
  - destruct (wrapAxis_range (x (position entity)) (width (size entity))
                WORLD_WIDTH Hw) as [A B]; [unfold WORLD_WIDTH; lra |].
    destruct (wrapAxis_range (y (position entity)) (height (size entity))
                WORLD_HEIGHT Hh) as [C D]; [unfold WORLD_HEIGHT; lra |].
    repeat split; lra.
  - intros A B C D. rewrite !wrapAxis_fixed by lra.
    destruct entity as [[px py] sz]. reflexivity.
Qed.

(** A monster half-way through the left edge stays; one past the bottom
    edge comes back at the top. *)
Lemma handleWrapAround_range_and_fixpoint_witness :
  let m := mkGameObject (mkVector2D (-10) 1900) (mkSize 24 24) in
  let p := WrapSystem.handleWrapAround m in
  - width (size m) <= x p /\ x p <= WORLD_WIDTH /\
  - height (size m) <= y p /\ y p <= WORLD_HEIGHT.
Proof.
  intros m p.
  assert (Hw : 0 <= width (size m)) by (vm_compute; discriminate).
  assert (Hh : 0 <= height (size m)) by (vm_compute; discriminate).
  exact (proj1 (handleWrapAround_range_and_fixpoint m Hw Hh)).
Defined.

(** ** utils.ts: the generated obstacle field *)

(** A loop of [n] rounds establishes what every round carries one step on. *)
Lemma times_invariant {S : Type} (P : nat -> S -> Prop) (body : S -> Rng.M S) :
  (forall k s g, P k s -> P (Datatypes.S k) (fst (body s g))) ->
  forall n k s g, P k s -> P (n + k)%nat (fst (Rng.times n body s g)).
Proof.
  intros Hstep. induction n as [| n IH]; intros k s g H; cbn.
  - exact H.
  - unfold Rng.bind. specialize (Hstep k s g H).
    destruct (body s g) as [s1 g1]. cbn [fst] in Hstep.
    replace (Datatypes.S (n + k)) with (n + Datatypes.S k)%nat by lia.
    now apply IH.
Qed.

Lemma ForallOrdPairs_snoc {A : Type} (R : A -> A -> Prop) (l : list A) (n : A) :
  ForallOrdPairs R l -> (forall a, In a l -> R a n) ->
  ForallOrdPairs R (l ++ [n]).
Proof.
  induction 1 as [| a l Ha Hl IH]; intro Hn; cbn.
  - constructor; [constructor | constructor].
  - constructor.
    + apply Forall_app. split; [exact Ha |].
      constructor; [apply Hn; now left | constructor].
    + apply IH. intros b Hb. apply Hn. now right.
Qed.

Lemma ForallOrdPairs_weaken {A : Type} (R R' : A -> A -> Prop) (l : list A) :
  (forall a b, R a b -> R' a b) -> ForallOrdPairs R l -> ForallOrdPairs R' l.
Proof.
  intros Himp. induction 1 as [| a l Ha Hl IH]; constructor; [| exact IH].
  eapply Forall_impl; [| exact Ha]. intros b. apply Himp.
Qed.

(** Missing a grown rectangle means missing the rectangle itself. *)
Lemma misses_padZone o zone :
  Utils.checkCollision o (Utils.padZone zone) = false ->
  Utils.checkCollision o zone = false.
Proof.
  unfold Utils.checkCollision, Utils.padZone. cbn [position size x y width height].
  rewrite !andb_false_iff, !ltb_ge. intros H.
  repeat match goal with H : _ \/ _ |- _ => destruct H as [H | H] end.
  - left. left. left. lra.
  - left. left. right. lra.
  - left. right. lra.
  - right. lra.
Qed.

Lemma misses_padObstacle o existingObj :
  Utils.checkCollision o (Utils.padObstacle existingObj) = false ->
  Utils.checkCollision o existingObj = false.
Proof.
  unfold Utils.checkCollision, Utils.padObstacle, OBSTACLE_PADDING.
  cbn [position size x y width height].
  rewrite !andb_false_iff, !ltb_ge. intros H.
  repeat match goal with H : _ \/ _ |- _ => destruct H as [H | H] end.
  - left. left. left. lra.
  - left. left. right. lra.
  - left. right. lra.
  - right. lra.
Qed.

Lemma placeObject_found remaining zones allObjects size : forall g p,
  fst (Utils.placeObject remaining zones allObjects size g) = Some p ->
  Utils.collidesAny (mkGameObject p size) zones = false /\
  Utils.collidesAny (mkGameObject p size) (map Utils.padObstacle allObjects) = false.
Proof.
  induction remaining as [| n IH]; intros g p; cbn [Utils.placeObject].
  - discriminate.
  - unfold Rng.bind, Rng.random. cbn [Rng.draws Rng.cursor].
    destruct (Utils.collidesAny _ zones || Utils.collidesAny _ _) eqn:E.
    + apply IH.
    + unfold Rng.ret. cbn [fst]. intro H. injection H as <-.
      now apply orb_false_iff in E.
Qed.

Lemma wellPlaced_add zones acc p size :
  (forall o z, In o (Utils.worldAll acc) -> In z zones ->
     Utils.checkCollision o z = false) ->
  ForallOrdPairs
    (fun a b => Utils.checkCollision b (Utils.padObstacle a) = false)
    (Utils.worldAll acc) ->
  Utils.collidesAny (mkGameObject p size) zones = false ->
  Utils.collidesAny (mkGameObject p size) (map Utils.padObstacle (Utils.worldAll acc))
    = false ->
  (forall o z, In o (Utils.worldAll acc ++ [mkGameObject p size]) -> In z zones ->
     Utils.checkCollision o z = false) /\
  ForallOrdPairs
    (fun a b => Utils.checkCollision b (Utils.padObstacle a) = false)
    (Utils.worldAll acc ++ [mkGameObject p size]).
Proof.
  intros Hz Hp Hfz Hfo. split.
  - intros o z Ho Hin. apply in_app_or in Ho. destruct Ho as [Ho | [<- | []]].
    + now apply Hz.
    + now apply (proj1 (collidesAny_false _ _) Hfz).
  - apply ForallOrdPairs_snoc; [exact Hp |].
    intros a Ha. apply (proj1 (collidesAny_false _ _) Hfo).
    now apply in_map.
Qed.

Lemma generateObstacle_step zones k acc g :
  (wellPlaced zones acc /\ Utils.worldBarrels acc = [] /\
   (List.length (Utils.worldObstacles acc) <= k)%nat) ->
  let acc' := fst (Utils.generateObstacle zones acc g) in
  wellPlaced zones acc' /\ Utils.worldBarrels acc' = [] /\
  (List.length (Utils.worldObstacles acc') <= Datatypes.S k)%nat.
Proof.
  intros ((Hall & Hz & Hp) & Hb & Hlen). cbv zeta.
  unfold Utils.generateObstacle, Rng.bind. rewrite !randomInRange_run.
  match goal with
  | |- context [Utils.placeObject 100 zones ?a ?s ?g1] =>
      pose proof (placeObject_found 100 zones a s g1) as Hfound;
      destruct (Utils.placeObject 100 zones a s g1) as [[p |] g2]
  end; cbn [fst] in *.
  - rewrite !randomInRange_run. unfold Rng.uuid, Rng.ret. cbn [fst].
    destruct (Hfound p eq_refl) as [Hfz Hfo].
    destruct (wellPlaced_add zones acc p _ Hz Hp Hfz Hfo) as [Hz' Hp'].
    split; [| split].
    + unfold wellPlaced. cbn [Utils.worldAll Utils.worldObstacles Utils.worldBarrels].
      split; [| split; [exact Hz' | exact Hp']].
      rewrite Hall, Hb, map_app. cbn. now rewrite !app_nil_r.
    + exact Hb.
    + cbn [Utils.worldObstacles]. rewrite length_app. cbn. lia.
  - unfold Rng.ret. cbn [fst]. repeat split; auto.
Qed.

Lemma generateBarrel_step zones k acc g :
  (wellPlaced zones acc /\ (List.length (Utils.worldBarrels acc) <= k)%nat) ->
  let acc' := fst (Utils.generateBarrel zones acc g) in
  wellPlaced zones acc' /\
  (List.length (Utils.worldBarrels acc') <= Datatypes.S k)%nat /\
  Utils.worldObstacles acc' = Utils.worldObstacles acc.
Proof.
  intros ((Hall & Hz & Hp) & Hlen). cbv zeta.
  unfold Utils.generateBarrel, Rng.bind.
  match goal with
  | |- context [Utils.placeObject 100 zones ?a ?s ?g1] =>
      pose proof (placeObject_found 100 zones a s g1) as Hfound;
      destruct (Utils.placeObject 100 zones a s g1) as [[p |] g2]
  end; cbn [fst] in *.
  - unfold Rng.uuid, Rng.ret. cbn [fst].
    destruct (Hfound p eq_refl) as [Hfz Hfo].
    destruct (wellPlaced_add zones acc p _ Hz Hp Hfz Hfo) as [Hz' Hp'].
    split; [| split].
    + unfold wellPlaced. cbn [Utils.worldAll Utils.worldObstacles Utils.worldBarrels].
      split; [| split; [exact Hz' | exact Hp']].
      rewrite Hall, map_app. cbn. now rewrite app_assoc.
    + cbn [Utils.worldBarrels]. rewrite length_app. cbn. lia.
    + reflexivity.
  - unfold Rng.ret. cbn [fst]. repeat split; auto.
Qed.

(** X8. Whatever the draws, the obstacles and barrels returned by
    [generateWorldObjects] overlap no avoid zone and do not overlap one
    another; there are at most 25 obstacles and 10 barrels. *)
Theorem generateWorldObjects_disjoint (avoidZones : list GameObject) (g : Rng.t) :
  let world := fst (Utils.generateWorldObjects avoidZones g) in
  let placed :=
    map Obstacle.obj (Utils.worldObstacles world)
    ++ map ExplosiveBarrel.obj (Utils.worldBarrels world) in
  (forall o z, In o placed -> In z avoidZones -> Utils.checkCollision o z = false) /\
  ForallOrdPairs (fun a b => Utils.checkCollision a b = false) placed /\
  (List.length (Utils.worldObstacles world) <= 25)%nat /\
  (List.length (Utils.worldBarrels world) <= 10)%nat.
Proof.
  cbv zeta. unfold Utils.generateWorldObjects, Rng.bind.
  set (zones := map Utils.padZone avoidZones).
  pose proof (times_invariant
    (fun k acc => wellPlaced zones acc /\ Utils.worldBarrels acc = [] /\
                  (List.length (Utils.worldObstacles acc) <= k)%nat)
    (Utils.generateObstacle zones)
    (fun k s g0 H => generateObstacle_step zones k s g0 H)
    OBSTACLE_COUNT 0%nat (Utils.mkWorldObjects [] [] []) g) as H1.
  destruct (Rng.times OBSTACLE_COUNT _ _ g) as [withObstacles g1].
  cbn [fst] in H1.
  destruct H1 as (Hwell & Hnil & Hlen).
  { repeat split; cbn; auto; try constructor. intros o z []. }
  pose proof (times_invariant
    (fun k acc => wellPlaced zones acc /\
                  (List.length (Utils.worldBarrels acc) <= k)%nat /\
                  Utils.worldObstacles acc = Utils.worldObstacles withObstacles)
    (Utils.generateBarrel zones)) as H2.
  specialize (H2 (fun k s g0 H =>
    let (Hw, Hr) := H in let (Hl, Ho) := Hr in
    match generateBarrel_step zones k s g0 (conj Hw Hl) with
    | conj A (conj B C) => conj A (conj B (eq_trans C Ho))
    end)).
  specialize (H2 EXPLOSIVE_BARREL_COUNT 0%nat withObstacles g1).
  destruct H2 as ((Hall & Hz & Hp) & Hlenb & Hobs).
  { split; [exact Hwell |]. split; [rewrite Hnil; cbn; lia | reflexivity]. }
  rewrite <- Hall. split; [| split; [| split]].
  - intros o z Ho Hin. apply misses_padZone. apply Hz; [exact Ho |].
    unfold zones. now apply in_map.
  - eapply ForallOrdPairs_weaken; [| exact Hp].
    intros a b H. cbv beta in H. rewrite checkCollision_swap.
    now apply misses_padObstacle.
  - rewrite Hobs. cbn in Hlen. exact Hlen.
  - cbn in Hlenb. exact Hlenb.
Qed.

(** ** geminiService.ts: what a generated weapon always looks like *)

Ltac run_stat_point :=
  unfold GeminiService.applyStatPoint, Rng.bind, Rng.randomInRange, Rng.random,
    Rng.ret;
  cbn [Rng.draws Rng.cursor];
  repeat match goal with
         | |- context [if ?c then _ else _] => destruct c eqn:?
         end;
  cbn [fst snd].

(** What a stat point never changes. *)
Lemma applyStatPoint_keeps wave s g :
  let s' := fst (GeminiService.applyStatPoint wave s g) in
  Weapon.bulletSpeed s' = Weapon.bulletSpeed s /\
  Weapon.category s' = Weapon.category s /\
  ((wave <= 5)%Z -> Weapon.piercing s' = Weapon.piercing s) /\
  (GeminiService.isShotgun (Weapon.category s) = false ->
   Weapon.bulletCount s' = Weapon.bulletCount s).
Proof.
  cbv zeta. run_stat_point; destruct s; cbn in *;
    repeat split; auto; try discriminate; intros;
    repeat match goal with
           | H : _ && _ = true |- _ => apply andb_prop in H; destruct H
           | H : (5 <? _)%Z = true |- _ => apply Z.ltb_lt in H
           end; try lia; congruence.
Qed.

(** The cap on crit chance and the floor on reload time. *)
Lemma applyStatPoint_limits wave s g :
  let s' := fst (GeminiService.applyStatPoint wave s g) in
  (optionLe (Weapon.critChance s) (75 # 100) ->
   optionLe (Weapon.critChance s') (75 # 100)) /\
  (optionGe (Weapon.reloadTime s) 500 -> optionGe (Weapon.reloadTime s') 500).
Proof.
  cbv zeta. run_stat_point; destruct s; cbn in *; split; auto; intros _.
  - apply max_l.
  - apply min_l.
Qed.

Lemma applyStatPoint_draws wave s g :
  Rng.draws (snd (GeminiService.applyStatPoint wave s g)) = Rng.draws g.
Proof. run_stat_point; reflexivity. Qed.

Lemma times_draws {S : Type} (body : S -> Rng.M S) :
  (forall s g, Rng.draws (snd (body s g)) = Rng.draws g) ->
  forall n s g, Rng.draws (snd (Rng.times n body s g)) = Rng.draws g.
Proof.
  intros Hstep. induction n as [| n IH]; intros s g; cbn; [reflexivity |].
  unfold Rng.bind. specialize (Hstep s g).
  destruct (body s g) as [s1 g1]. cbn [snd] in Hstep. now rewrite IH.
Qed.

(** The weapon returned, in terms of the stats after the stat-point loop. *)
Lemma generateUpgradedWeapon_run currentWeapon wave g :
  let rolled :=
    fst (Rng.times (Z.to_nat (5 + wave / 3)) (GeminiService.applyStatPoint wave)
           currentWeapon g) in
  let g1 :=
    snd (Rng.times (Z.to_nat (5 + wave / 3)) (GeminiService.applyStatPoint wave)
           currentWeapon g) in
  exists w,
    fst (GeminiService.generateUpgradedWeapon currentWeapon wave g) = Some w /\
    Weapon.category w = special /\
    Weapon.ammoInClip w = Weapon.clipSize w /\
    Weapon.clipSize w = Weapon.clipSize rolled /\
    Weapon.durability w
      = Some (JS.max 100 (JS.floor (Weapon.quality w * (25 # 10)))) /\
    Weapon.maxDurability w = Weapon.durability w /\
    Weapon.fireRate w
      = JS.max (Weapon.fireRate rolled)
          (JS.toFixed2 (Weapon.fireRate currentWeapon * (101 # 100))) /\
    Weapon.bulletSpeed w = Weapon.bulletSpeed rolled /\
    Weapon.piercing w = Weapon.piercing rolled /\
    Weapon.bulletCount w = Weapon.bulletCount rolled /\
    Weapon.critChance w = Weapon.critChance rolled /\
    Weapon.reloadTime w = Weapon.reloadTime rolled /\
    Weapon.name w
      = (JS.pick GeminiService.WEAPON_PREFIXES (Rng.draws g1 (Rng.cursor g1))
           EmptyString ++ " " ++
         JS.pick GeminiService.WEAPON_SUFFIXES
           (Rng.draws g1 (Datatypes.S (Rng.cursor g1))) EmptyString)%string.
Proof.
  cbv zeta.
  unfold GeminiService.generateUpgradedWeapon, GeminiService.pickRandom,
    Rng.bind, Rng.ret, Rng.random.
  destruct (Rng.times _ _ currentWeapon g) as [rolled g1].
  cbn [fst snd Rng.draws Rng.cursor]. eexists. split; [reflexivity |].
  destruct rolled; cbn. repeat split; reflexivity.
Qed.



(** X10. The generator never changes [bulletSpeed]; up to wave 5 it never
    changes [piercing]; and for a baseline that is not a shotgun it never
    changes [bulletCount]. *)
Theorem generateUpgradedWeapon_untouched_stats
    (currentWeapon : Weapon.t) (wave : Z) (g : Rng.t) (w : Weapon.t) :
  fst (GeminiService.generateUpgradedWeapon currentWeapon wave g) = Some w ->
  Weapon.bulletSpeed w = Weapon.bulletSpeed currentWeapon /\
  ((wave <= 5)%Z -> Weapon.piercing w = Weapon.piercing currentWeapon) /\
  (GeminiService.isShotgun (Weapon.category currentWeapon) = false ->
   Weapon.bulletCount w = Weapon.bulletCount currentWeapon).
Proof.
  intro H.
  destruct (generateUpgradedWeapon_run currentWeapon wave g)
    as (w' & E & _ & _ & _ & _ & _ & _ & Hs & Hp & Hb & _).
  rewrite E in H. injection H as <-.
  pose proof (times_invariant
    (fun _ s =>
       Weapon.bulletSpeed s = Weapon.bulletSpeed currentWeapon /\
       Weapon.category s = Weapon.category currentWeapon /\
       ((wave <= 5)%Z -> Weapon.piercing s = Weapon.piercing currentWeapon) /\
       (GeminiService.isShotgun (Weapon.category currentWeapon) = false ->
        Weapon.bulletCount s = Weapon.bulletCount currentWeapon))
    (GeminiService.applyStatPoint wave)) as Hinv.
  specialize (Hinv (fun k s g0 Hs0 =>
    match Hs0, applyStatPoint_keeps wave s g0 with
    | conj A (conj B (conj C D)), conj A' (conj B' (conj C' D')) =>
        conj (eq_trans A' A)
          (conj (eq_trans B' B)
             (conj (fun Hw => eq_trans (C' Hw) (C Hw))
                (fun Hn => eq_trans (D' (eq_trans (f_equal _ B) Hn)) (D Hn))))
    end)).
  specialize (Hinv (Z.to_nat (5 + wave / 3)) 0%nat currentWeapon g).
  destruct Hinv as (A & _ & C & D); [repeat split; reflexivity |].
  rewrite Hs, Hp, Hb. repeat split; assumption.
Qed.

Lemma generateUpgradedWeapon_untouched_stats_witness :
  exists w,
    fst (GeminiService.generateUpgradedWeapon GeminiService.INITIAL_WEAPON 4
           (Rng.constant (93 # 100))) = Some w /\
    Weapon.bulletSpeed w = 6 /\
    Weapon.piercing w = Some 1 /\
    Weapon.bulletCount w = Some 1.
Proof.
  destruct (generateUpgradedWeapon_returns GeminiService.INITIAL_WEAPON 4
              (Rng.constant (93 # 100))) as [w E].
  exists w. split; [exact E |].
  destruct (generateUpgradedWeapon_untouched_stats _ _ _ _ E) as (Hs & Hp & Hb).
  split; [exact Hs |]. split; [apply Hp; lia | apply Hb; reflexivity].
Defined.

(** X11. Generation keeps crit chance at or below 0.75 and reload time at or
    above 500 ms whenever the baseline respects these limits. *)
Theorem generateUpgradedWeapon_limits
    (currentWeapon : Weapon.t) (wave : Z) (g : Rng.t) (w : Weapon.t) :
  optionLe (Weapon.critChance currentWeapon) (75 # 100) ->
  optionGe (Weapon.reloadTime currentWeapon) 500 ->
  fst (GeminiService.generateUpgradedWeapon currentWeapon wave g) = Some w ->
  optionLe (Weapon.critChance w) (75 # 100) /\
  optionGe (Weapon.reloadTime w) 500.
Proof.
  intros Hcrit Hreload H.
  destruct (generateUpgradedWeapon_run currentWeapon wave g)
    as (w' & E & _ & _ & _ & _ & _ & _ & _ & _ & _ & Hc & Hr & _).
  rewrite E in H. injection H as <-.
  pose proof (times_invariant
    (fun _ s => optionLe (Weapon.critChance s) (75 # 100) /\
                optionGe (Weapon.reloadTime s) 500)
    (GeminiService.applyStatPoint wave)
    (fun k s g0 Hs0 =>
       conj (proj1 (applyStatPoint_limits wave s g0) (proj1 Hs0))
            (proj2 (applyStatPoint_limits wave s g0) (proj2 Hs0)))
    (Z.to_nat (5 + wave / 3)) 0%nat currentWeapon g (conj Hcrit Hreload)) as Hinv.
  rewrite Hc, Hr. exact Hinv.
Qed.

Lemma generateUpgradedWeapon_limits_witness :
  exists w,
    fst (GeminiService.generateUpgradedWeapon GeminiService.INITIAL_WEAPON 30
           (Rng.constant (75 # 100))) = Some w /\
    optionLe (Weapon.critChance w) (75 # 100) /\
    optionGe (Weapon.reloadTime w) 500.
Proof.
  destruct (generateUpgradedWeapon_returns GeminiService.INITIAL_WEAPON 30
              (Rng.constant (75 # 100))) as [w E].
  exists w. split; [exact E |].
  apply (generateUpgradedWeapon_limits GeminiService.INITIAL_WEAPON 30
           (Rng.constant (75 # 100)) w); [cbn; lra | cbn; lra | exact E].
Defined.

Lemma pick_In {A : Type} (arr : list A) (r : Q) (d : A) :
  0 <= r -> r < 1 -> arr <> [] -> In (JS.pick arr r d) arr.
Proof.
  intros H0 H1 Hne. unfold JS.pick. apply nth_In.
  set (n := Z.of_nat (List.length arr)).
  assert (Hn : (0 < n)%Z) by (destruct arr; [contradiction | unfold n; cbn; lia]).
  assert (HnQ : 0 < inject_Z n) by (change 0 with (inject_Z 0); now rewrite <- Zlt_Qlt).
  assert (Hlo : (0 <= Qfloor (r * inject_Z n))%Z).
  { change 0%Z with (Qfloor (inject_Z 0)). apply Qfloor_resp_le.
    change (inject_Z 0) with 0. apply Qmult_le_0_compat; lra. }
  assert (Hhi : (Qfloor (r * inject_Z n) < n)%Z).
  { rewrite Zlt_Qlt. eapply Qle_lt_trans; [apply Qfloor_le |].
    rewrite <- (Qmult_1_l (inject_Z n)) at 2.
    apply Qmult_lt_compat_r; assumption. }
  unfold n in *. lia.
Qed.

(** X12. With draws in [0, 1), the name of a generated weapon is a prefix of
    [WEAPON_PREFIXES], a space, and a suffix of [WEAPON_SUFFIXES]. *)
Theorem generateUpgradedWeapon_name_from_pools
    (currentWeapon : Weapon.t) (wave : Z) (g : Rng.t) (w : Weapon.t) :
  unitDraws g ->
  fst (GeminiService.generateUpgradedWeapon currentWeapon wave g) = Some w ->
  exists prefix suffix,
    In prefix GeminiService.WEAPON_PREFIXES /\
    In suffix GeminiService.WEAPON_SUFFIXES /\
    Weapon.name w = (prefix ++ " " ++ suffix)%string.
Proof.
  intros Hu H.
  destruct (generateUpgradedWeapon_run currentWeapon wave g)
    as (w' & E & _ & _ & _ & _ & _ & _ & _ & _ & _ & _ & _ & Hname).
  rewrite E in H. injection H as <-.
  rewrite (times_draws _ (applyStatPoint_draws wave)) in Hname.
  eexists. eexists. split; [| split; [| exact Hname]].
  - apply pick_In; [apply Hu | apply Hu | discriminate].
  - apply pick_In; [apply Hu | apply Hu | discriminate].
Qed.

Lemma generateUpgradedWeapon_name_from_pools_witness :
  exists w prefix suffix,
    fst (GeminiService.generateUpgradedWeapon GeminiService.INITIAL_WEAPON 1
           (Rng.constant (1 # 2))) = Some w /\
    In prefix GeminiService.WEAPON_PREFIXES /\
    In suffix GeminiService.WEAPON_SUFFIXES /\
    Weapon.name w = (prefix ++ " " ++ suffix)%string.
Proof.
  destruct (generateUpgradedWeapon_returns GeminiService.INITIAL_WEAPON 1
              (Rng.constant (1 # 2))) as [w E].
  destruct (generateUpgradedWeapon_name_from_pools _ _ _ w unitDraws_constant E)
    as (prefix & suffix & H).
  exists w, prefix, suffix. split; [exact E | exact H].
Defined.

(** ** useGameLoop.ts: more on damage to the player *)

(** X13. A call of [_takeDamage] never raises the player's health or
    shield: with a shield between 0 and [maxShield] and a health that is
    not negative before the call, the shield is still between 0 and
    [maxShield] afterwards, and neither value has grown. *)
Theorem takeDamage_never_heals amount sourceType d :
  shieldInBounds (GameLoop.player d) ->
  0 <= Player.health (GameLoop.player d) ->
  let p := GameLoop.player d in
  let p' := GameLoop.player (GameLoop._takeDamage amount sourceType d) in
  shieldInBounds p' /\
  Player.shield p' <= Player.shield p /\
  Player.health p' <= Player.health p.
Proof.
  intros [Hs0 Hs1] Hh p p'. subst p p'. unfold shieldInBounds.
  unfold GameLoop._takeDamage.
  destruct (GameLoop.isGameOver d || GameLoop.invincible d).
  { repeat split; solve [assumption | apply Qle_refl]. }
  set (fin := JS.ceil _).
  destruct (JS.leb fin 0) eqn:Hfin.
  { repeat split; solve [assumption | apply Qle_refl]. }
  apply leb_gt in Hfin.
  cbn [GameLoop.player].
  set (m := JS.min (Player.shield (GameLoop.player d)) fin).
  assert (Hm0 : 0 <= m) by (apply min_glb; lra).
  assert (Hm1 : m <= Player.shield (GameLoop.player d)) by apply min_l.
  destruct (JS.ltb 0 _) eqn:Hrem.
  - destruct (GameLoop.player d); cbn in *.
    repeat split; try lra.
    destruct (max_case 0 (health - (fin - m * JS.or shieldAbsorption (75 # 100))))
      as [E | E]; rewrite E; [lra |].
    apply ltb_lt in Hrem. lra.
  - destruct (GameLoop.player d); cbn in *. repeat split; lra.
Qed.

Lemma takeDamage_never_heals_witness :
  shieldInBounds (GameLoop.player (initialDraft 1000)) /\
  Player.shield
    (GameLoop.player (GameLoop._takeDamage 40 None (initialDraft 1000))) <= 50.
Proof.
  assert (Hs : shieldInBounds (GameLoop.player (initialDraft 1000)))
    by (split; vm_compute; discriminate).
  assert (Hh : 0 <= Player.health (GameLoop.player (initialDraft 1000)))
    by (vm_compute; discriminate).
  split; [exact Hs |].
  exact (proj1 (proj2 (takeDamage_never_heals 40 None (initialDraft 1000) Hs Hh))).
Defined.

Lemma takeDamage_lands amount sourceType d :
  hitLands amount d ->
  GameLoop.now (GameLoop._takeDamage amount sourceType d) = GameLoop.now d /\
  Player.invincibleUntil
    (GameLoop.player (GameLoop._takeDamage amount sourceType d))
    = GameLoop.now d + INVINCIBILITY_DURATION.
Proof.
  intros (Hover & Hinv & Hpos). unfold GameLoop._takeDamage.
  rewrite Hover, Hinv, Hpos. cbn [orb GameLoop.player GameLoop.now].
  destruct (JS.ltb 0 _); split; reflexivity.
Qed.

(** X14. Once a hit has landed, every further call of [_takeDamage] at the
    same clock value, with whatever amount and source, returns the draft
    unchanged: the invincibility window set by the first hit is open.  The
    clock is a timestamp, hence not negative. *)
Theorem takeDamage_second_hit_is_ignored amount sourceType amount' sourceType' d :
  hitLands amount d ->
  0 <= GameLoop.now d ->
  GameLoop._takeDamage amount' sourceType'
    (GameLoop._takeDamage amount sourceType d)
  = GameLoop._takeDamage amount sourceType d.
Proof.
  intros Hland Hnow.
  destruct (takeDamage_lands amount sourceType d Hland) as [En Ei].
  set (d1 := GameLoop._takeDamage amount sourceType d) in *.
  assert (Hinv : GameLoop.invincible d1 = true).
  { unfold GameLoop.invincible. rewrite Ei, En.
    apply andb_true_iff. split.
    - apply negb_true_iff, eqb_neq. unfold INVINCIBILITY_DURATION. lra.
    - apply ltb_lt. unfold INVINCIBILITY_DURATION. lra. }
  unfold GameLoop._takeDamage at 1. rewrite Hinv, orb_true_r. reflexivity.
Qed.

Lemma takeDamage_second_hit_is_ignored_witness :
  hitLands 40 (initialDraft 1000) /\
  GameLoop._takeDamage 500 None (GameLoop._takeDamage 40 None (initialDraft 1000))
  = GameLoop._takeDamage 40 None (initialDraft 1000).
Proof.
  assert (H : hitLands 40 (initialDraft 1000))
    by (repeat split; vm_compute; reflexivity).
  split; [exact H |].
  apply (takeDamage_second_hit_is_ignored 40 None 500 None (initialDraft 1000) H).
  vm_compute; discriminate.
Defined.

Lemma HdRel_insertByScore a e l :
  byScoreDesc a e -> HdRel byScoreDesc a l ->
  HdRel byScoreDesc a (GameLoop.insertByScore e l).
Proof.
  intros Hae Hal. destruct l as [| h l']; cbn.
  - constructor. exact Hae.
  - destruct (JS.ltb (entryScore h) (entryScore e)); constructor.
    + exact Hae.
    + inversion Hal; assumption.
Qed.

Lemma insertByScore_sorted e l :
  Sorted byScoreDesc l -> Sorted byScoreDesc (GameLoop.insertByScore e l).
Proof.
  induction l as [| h l' IH]; intro Hs; cbn.
  - constructor; constructor.
  - inversion Hs as [| ? ? Hs' Hhd]; subst.
    destruct (JS.ltb (entryScore h) (entryScore e)) eqn:E.
    + constructor; [exact Hs |]. constructor.
      apply ltb_lt in E. unfold byScoreDesc. lra.
    + constructor; [apply IH; exact Hs' |].
      apply HdRel_insertByScore; [| exact Hhd].
      apply ltb_ge in E. exact E.
Qed.

Lemma insertByScore_In e l x :
  In x (GameLoop.insertByScore e l) <-> x = e \/ In x l.
Proof.
  induction l as [| h l' IH]; cbn.
  - intuition.
  - destruct (JS.ltb (entryScore h) (entryScore e)); cbn.
    + intuition.
    + rewrite IH. intuition.
Qed.

Lemma insertByScore_length e l :
  List.length (GameLoop.insertByScore e l) = S (List.length l).
Proof.
  induction l as [| h l' IH]; cbn; [reflexivity |].
  destruct (JS.ltb (entryScore h) (entryScore e)); cbn; [reflexivity |].
  now rewrite IH.
Qed.

Lemma fold_insertByScore l : forall acc,
  Sorted byScoreDesc acc ->
  let r := fold_left (fun acc e => GameLoop.insertByScore e acc) l acc in
  Sorted byScoreDesc r /\
  (forall x, In x r <-> In x l \/ In x acc) /\
  List.length r = (List.length l + List.length acc)%nat.
Proof.
  induction l as [| e l' IH]; intros acc Hacc; cbn.
  - repeat split; try assumption; intuition.
  - destruct (IH (GameLoop.insertByScore e acc) (insertByScore_sorted e acc Hacc))
      as (Hs & Hin & Hlen).
    split; [exact Hs |]. split.
    + intro x. rewrite Hin, insertByScore_In. intuition.
    + rewrite Hlen, insertByScore_length. lia.
Qed.

Lemma firstn_sorted {A : Type} (R : A -> A -> Prop) n : forall l,
  Sorted R l -> Sorted R (firstn n l).
Proof.
  induction n as [| n IH]; intros l Hs; [constructor |].
  destruct l as [| a l']; [constructor |].
  inversion Hs as [| ? ? Hs' Hhd]; subst. cbn. constructor.
  - apply IH. exact Hs'.
  - destruct l' as [| b l'']; [destruct n; constructor |].
    destruct n; cbn; constructor. inversion Hhd; assumption.
Qed.

Lemma firstn_In {A : Type} n : forall (l : list A) x, In x (firstn n l) -> In x l.
Proof.
  induction n as [| n IH]; intros [| a l] x; cbn; try tauto.
  intros [-> | H]; [now left | right; now apply IH].
Qed.

(** X15. When a hit that lands leaves the player at zero health,
    [_takeDamage] ends the game and rewrites the leaderboard: the new board
    has at most ten entries, is ordered best score first, holds nothing but
    entries of the old board and the entry of this run, and is one entry
    longer than the old board whenever that had fewer than ten. *)
Theorem takeDamage_death_records_score amount sourceType d :
  hitLands amount d ->
  let d' := GameLoop._takeDamage amount sourceType d in
  Player.health (GameLoop.player d') <= 0 ->
  GameLoop.isGameOver d' = true /\
  (List.length (GameLoop.leaderboard d') <= 10)%nat /\
  Sorted byScoreDesc (GameLoop.leaderboard d') /\
  (forall e, In e (GameLoop.leaderboard d') ->
     In e (GameLoop.leaderboard d) \/
     e = mkLeaderboardEntry (Player.name (GameLoop.player d')) (GameLoop.score d)
           (GameLoop.draftWave d)) /\
  ((List.length (GameLoop.leaderboard d) < 10)%nat ->
   List.length (GameLoop.leaderboard d')
   = S (List.length (GameLoop.leaderboard d))).
Proof.
  intros (Hover & Hinv & Hpos) d'. subst d'.
  unfold GameLoop._takeDamage. rewrite Hover, Hinv, Hpos.
  cbn [orb GameLoop.player GameLoop.isGameOver GameLoop.leaderboard].
  set (p3 := if JS.ltb 0 _ then _ else _).
  intro Hdead. apply leb_le in Hdead. rewrite Hdead.
  set (entry := mkLeaderboardEntry (Player.name p3) (GameLoop.score d)
                  (GameLoop.draftWave d)).
  destruct (fold_insertByScore (GameLoop.leaderboard d ++ [entry]) []
              (Sorted_nil _)) as (Hs & Hin & Hlen).
  fold (GameLoop.sortByScore (GameLoop.leaderboard d ++ [entry])) in Hs, Hin, Hlen.
  cbv zeta in Hs, Hin, Hlen.
  split; [reflexivity |]. split; [apply firstn_le_length |].
  split; [apply firstn_sorted; exact Hs |]. split.
  - intros e He. apply firstn_In in He. apply Hin in He.
    destruct He as [He | []]. apply in_app_or in He.
    destruct He as [He | [<- | []]]; [now left | now right].
  - intro Hlt. rewrite length_firstn, Hlen, length_app. cbn [List.length]. lia.
Qed.

Lemma takeDamage_death_records_score_witness :
  hitLands 1000 (initialDraft 1000) /\
  GameLoop.isGameOver (GameLoop._takeDamage 1000 None (initialDraft 1000)) = true.
Proof.
  assert (H : hitLands 1000 (initialDraft 1000))
    by (repeat split; vm_compute; reflexivity).
  split; [exact H |].
  apply (takeDamage_death_records_score 1000 None (initialDraft 1000) H).
  vm_compute; discriminate.
Defined.

(** ** useGameLoop.ts: the player-bullet loop as a whole *)

Lemma hitFirst_None {A : Type} (test : A -> bool) upd l :
  GameLoop.hitFirst test upd l = None <-> existsb test l = false.
Proof.
  induction l as [| a l IH]; cbn; [tauto |].
  destruct (test a); cbn; [split; discriminate |].
  rewrite <- IH. destruct (GameLoop.hitFirst test upd l); cbn;
    split; congruence.
Qed.

Lemma hitFirst_Forall2 {A : Type} (R : A -> A -> Prop) (test : A -> bool) upd :
  (forall a, R a a) -> (forall a, test a = true -> R a (upd a)) ->
  forall l l', GameLoop.hitFirst test upd l = Some l' -> Forall2 R l l'.
Proof.
  intros Hrefl Hupd. induction l as [| a l IH]; intros l' H; cbn in H;
    [discriminate |].
  destruct (test a) eqn:E.
  - injection H as <-. constructor; [now apply Hupd |].
    clear IH. induction l; constructor; auto.
  - destruct (GameLoop.hitFirst test upd l); [| discriminate].
    injection H as <-. constructor; [apply Hrefl | now apply IH].
Qed.

Lemma Forall2_refl_all {A : Type} (R : A -> A -> Prop) :
  (forall a, R a a) -> forall l, Forall2 R l l.
Proof. intros H l. induction l; constructor; auto. Qed.

Lemma Forall2_trans_all {A : Type} (R : A -> A -> Prop) :
  (forall a b c, R a b -> R b c -> R a c) ->
  forall l1 l2 l3, Forall2 R l1 l2 -> Forall2 R l2 l3 -> Forall2 R l1 l3.
Proof.
  intros Htr l1 l2 l3 H12. revert l3.
  induction H12; intros l3 H23; inversion H23; subst; constructor; eauto.
Qed.

Lemma existsb_Forall2 {A : Type} (R : A -> A -> Prop) (test : A -> bool) :
  (forall a b, R a b -> test b = test a) ->
  forall l l', Forall2 R l l' -> existsb test l' = existsb test l.
Proof.
  intros H l l' HF. induction HF; cbn; [reflexivity |].
  rewrite IHHF. f_equal. now apply H.
Qed.

Lemma monsterHurt_refl m : monsterHurt m m.
Proof. split; auto. Qed.

Lemma monsterHurt_trans a b c : monsterHurt a b -> monsterHurt b c -> monsterHurt a c.
Proof.
  intros [E1 D1] [E2 D2]. split; [congruence |].
  intro H. specialize (D1 H). subst b. auto.
Qed.

Lemma hitsMonster_hurt bullet a b :
  monsterHurt a b -> GameLoop.hitsMonster bullet b = GameLoop.hitsMonster bullet a.
Proof.
  intros [E _].
  change (GameLoop.hitsMonster bullet (Monster.set_health 0 b)
          = GameLoop.hitsMonster bullet (Monster.set_health 0 a)).
  now rewrite E.
Qed.

Lemma hitsObstacle_hurt (bullet : GameObject) a b :
  obstacleHurt a b ->
  Utils.checkCollision bullet (Obstacle.obj b)
  = Utils.checkCollision bullet (Obstacle.obj a).
Proof.
  intro E.
  change (Utils.checkCollision bullet (Obstacle.obj (Obstacle.set_health 0 b))
          = Utils.checkCollision bullet (Obstacle.obj (Obstacle.set_health 0 a))).
  now rewrite E.
Qed.

Lemma hitsBarrel_hurt (bullet : GameObject) a b :
  barrelHurt a b ->
  Utils.checkCollision bullet (ExplosiveBarrel.obj b)
  = Utils.checkCollision bullet (ExplosiveBarrel.obj a).
Proof.
  intro E.
  change (Utils.checkCollision bullet
            (ExplosiveBarrel.obj (ExplosiveBarrel.set_health 0 b))
          = Utils.checkCollision bullet
              (ExplosiveBarrel.obj (ExplosiveBarrel.set_health 0 a))).
  now rewrite E.
Qed.

Lemma onlyHealthsChanged_refl c : onlyHealthsChanged c c.
Proof.
  repeat split; apply Forall2_refl_all; intro; try reflexivity.
  apply monsterHurt_refl.
Qed.

Lemma onlyHealthsChanged_trans a b c :
  onlyHealthsChanged a b -> onlyHealthsChanged b c -> onlyHealthsChanged a c.
Proof.
  intros (O1 & B1 & M1) (O2 & B2 & M2). repeat split.
  - eapply Forall2_trans_all; [| exact O1 | exact O2].
    unfold obstacleHurt. congruence.
  - eapply Forall2_trans_all; [| exact B1 | exact B2].
    unfold barrelHurt. congruence.
  - eapply Forall2_trans_all; [| exact M1 | exact M2].
    exact monsterHurt_trans.
Qed.

Lemma touchesNothing_stable bullet c c' :
  onlyHealthsChanged c c' -> touchesNothing bullet c' = touchesNothing bullet c.
Proof.
  intros (HO & HB & HM). unfold touchesNothing.
  rewrite (existsb_Forall2 obstacleHurt _
             (fun a b => hitsObstacle_hurt (Bullet.obj bullet) a b) _ _ HO).
  rewrite (existsb_Forall2 barrelHurt _
             (fun a b => hitsBarrel_hurt (Bullet.obj bullet) a b) _ _ HB).
  rewrite (existsb_Forall2 monsterHurt _
             (fun a b => hitsMonster_hurt bullet a b) _ _ HM).
  reflexivity.
Qed.

Lemma advanced_createdAt b : Bullet.createdAt (advanced b) = Bullet.createdAt b.
Proof. destruct b; reflexivity. Qed.

Lemma advanced_set_piercingLeft b :
  Bullet.set_piercingLeft (Bullet.piercingLeft b) (advanced b) = advanced b.
Proof. destruct b; reflexivity. Qed.

Lemma hurt_obstacles bullet l l' :
  GameLoop.hitFirst
    (fun o => Utils.checkCollision (Bullet.obj bullet) (Obstacle.obj o))
    (fun o => Obstacle.set_health (Obstacle.health o - Bullet.damage bullet) o)
    l = Some l' ->
  Forall2 obstacleHurt l l'.
Proof.
  apply hitFirst_Forall2; [reflexivity |]. intros a _. reflexivity.
Qed.

Lemma hurt_barrels bullet l l' :
  GameLoop.hitFirst
    (fun o => Utils.checkCollision (Bullet.obj bullet) (ExplosiveBarrel.obj o))
    (fun o => ExplosiveBarrel.set_health
                (ExplosiveBarrel.health o - Bullet.damage bullet) o)
    l = Some l' ->
  Forall2 barrelHurt l l'.
Proof.
  apply hitFirst_Forall2; [reflexivity |]. intros a _. reflexivity.
Qed.

Lemma hurt_monsters bullet (upd : Monster.t -> Monster.t) l :
  (forall m, Monster.set_health 0 (upd m) = Monster.set_health 0 m) ->
  Forall2 monsterHurt l
    match GameLoop.hitFirst (GameLoop.hitsMonster bullet) upd l with
    | Some l' => l'
    | None => l
    end.
Proof.
  intro Hupd. destruct (GameLoop.hitFirst _ _ l) as [l' |] eqn:E.
  - revert E. apply hitFirst_Forall2; [exact monsterHurt_refl |].
    intros a Ha. split; [apply Hupd |].
    intro Hd. unfold GameLoop.hitsMonster in Ha. rewrite Hd in Ha. discriminate.
  - apply Forall2_refl_all. exact monsterHurt_refl.
Qed.

Lemma set_piercingLeft_same b :
  Bullet.set_piercingLeft (Bullet.piercingLeft b) b = b.
Proof. destruct b; reflexivity. Qed.

Ltac healths_only :=
  unfold onlyHealthsChanged;
  cbn [GameLoop.obstacles GameLoop.explosiveBarrels GameLoop.monsters];
  repeat split;
  solve [assumption | apply hurt_monsters; intro; reflexivity].

(** One turn of the loop body, for the bullet as it is tested. *)
Lemma processPlayerBullet_turn now weaponUsed b c g bullet :
  bullet = advanced b ->
  let c1 := fst (GameLoop.processPlayerBullet now weaponUsed b c g) in
  onlyHealthsChanged c c1 /\
  (GameLoop.newBullets c1 = GameLoop.newBullets c \/
   GameLoop.newBullets c1 = GameLoop.newBullets c ++ [bullet] /\
   (0 < Bullet.piercingLeft bullet)%Z /\
   now - Bullet.createdAt bullet <= BULLET_LIFESPAN /\
   touchesNothing bullet c = true).
Proof.
  intro Hb. unfold touchesNothing, GameLoop.processPlayerBullet.
  fold (advanced b). rewrite <- Hb. clear Hb b. cbv zeta.
  destruct (JS.ltb BULLET_LIFESPAN (now - Bullet.createdAt bullet)) eqn:Hage.
  { unfold Rng.ret. cbn [fst].
    destruct (Bullet.onImpact bullet); cbn; split; auto;
      repeat split; apply Forall2_refl_all; intro;
      solve [reflexivity | apply monsterHurt_refl]. }
  apply ltb_ge in Hage.
  assert (HMr : Forall2 monsterHurt (GameLoop.monsters c) (GameLoop.monsters c))
    by (apply Forall2_refl_all; exact monsterHurt_refl).
  assert (HBr : Forall2 barrelHurt (GameLoop.explosiveBarrels c)
                  (GameLoop.explosiveBarrels c))
    by (apply Forall2_refl_all; intro; reflexivity).
  assert (HOr : Forall2 obstacleHurt (GameLoop.obstacles c) (GameLoop.obstacles c))
    by (apply Forall2_refl_all; intro; reflexivity).
  destruct (GameLoop.hitFirst _ _ (GameLoop.obstacles c)) as [lo |] eqn:E1.
  - pose proof (hurt_obstacles _ _ _ E1) as HO. cbv beta iota.
    destruct (_ <=? 0)%Z; cbn [andb]; unfold Rng.bind, Rng.ret.
    { cbn. split; [repeat split; assumption | now left]. }
    destruct (GameLoop.hitFirst _ _ (GameLoop.explosiveBarrels c))
      as [lb |] eqn:E2; cbv beta iota.
    + pose proof (hurt_barrels _ _ _ E2) as HB.
      destruct (_ <=? 0)%Z; cbn [andb].
      { cbn. split; [repeat split; assumption | now left]. }
      destruct (existsb (GameLoop.hitsMonster bullet) (GameLoop.monsters c)); cbn; rewrite ?andb_false_r; cbn;
        (split; [healths_only | now left]).
    + destruct (_ <=? 0)%Z; cbn [andb].
      { cbn. split; [repeat split; assumption | now left]. }
      destruct (existsb (GameLoop.hitsMonster bullet) (GameLoop.monsters c)); cbn; rewrite ?andb_false_r; cbn;
        (split; [healths_only | now left]).
  - apply hitFirst_None in E1. rewrite E1. cbv beta iota. cbn [andb].
    unfold Rng.bind, Rng.ret.
    destruct (GameLoop.hitFirst _ _ (GameLoop.explosiveBarrels c))
      as [lb |] eqn:E2; cbv beta iota.
    + pose proof (hurt_barrels _ _ _ E2) as HB.
      destruct (_ <=? 0)%Z; cbn [andb].
      { cbn. split; [repeat split; assumption | now left]. }
      destruct (existsb (GameLoop.hitsMonster bullet) (GameLoop.monsters c)); cbn; rewrite ?andb_false_r; cbn;
        (split; [healths_only | now left]).
    + apply hitFirst_None in E2. rewrite E2. cbn [andb].
      destruct (existsb (GameLoop.hitsMonster bullet) (GameLoop.monsters c)); cbn [fst snd Rng.random].
      * cbn. rewrite andb_false_r. cbn.
        split; [healths_only | now left].
      * cbn. rewrite andb_true_r.
        destruct (0 <? Bullet.piercingLeft bullet)%Z eqn:Hp; cbn.
        -- split; [repeat split; assumption |]. right.
           rewrite set_piercingLeft_same.
           split; [reflexivity |].
           split; [now apply Z.ltb_lt |]. split; [exact Hage | reflexivity].
        -- split; [repeat split; assumption | now left].
Qed.

Lemma processPlayerBullets_loop now weaponUsed bullets : forall c0 c g,
  onlyHealthsChanged c0 c ->
  let r := fst (Rng.forEach (GameLoop.processPlayerBullet now weaponUsed)
                  bullets c g) in
  onlyHealthsChanged c0 r /\
  (forall b', In b' (GameLoop.newBullets r) ->
     In b' (GameLoop.newBullets c) \/
     exists b, In b bullets /\ survivorOf now c0 b b') /\
  (List.length (GameLoop.newBullets r)
   <= List.length bullets + List.length (GameLoop.newBullets c))%nat.
Proof.
  induction bullets as [| a l IH]; intros c0 c g H0; cbn [Rng.forEach].
  - unfold Rng.ret. cbn. split; [exact H0 |]. split; [auto | lia].
  - unfold Rng.bind.
    pose proof (processPlayerBullet_turn now weaponUsed a c g (advanced a) eq_refl)
      as Hturn.
    destruct (GameLoop.processPlayerBullet now weaponUsed a c g) as [c1 g1].
    cbn [fst] in Hturn. destruct Hturn as [H1 Hnew].
    assert (H01 : onlyHealthsChanged c0 c1)
      by (eapply onlyHealthsChanged_trans; eassumption).
    destruct (IH c0 c1 g1 H01) as (Hr & Hin & Hlen). cbv zeta in Hr, Hin, Hlen.
    split; [exact Hr |]. split.
    + intros b' Hb'. destruct (Hin b' Hb') as [Hold | (b & Hb & Hsurv)].
      * destruct Hnew as [E | (E & Hp & Hage & Htouch)]; rewrite E in Hold.
        -- now left.
        -- apply in_app_or in Hold. destruct Hold as [Hold | [<- | []]];
             [now left |].
           right. exists a. split; [now left |].
           rewrite advanced_piercingLeft in Hp.
           rewrite advanced_createdAt in Hage.
           rewrite (touchesNothing_stable _ _ _ H0) in Htouch.
           repeat split; assumption.
      * right. exists b. split; [now right | exact Hsurv].
    + destruct Hnew as [E | (E & _)]; rewrite E in Hlen;
        [| rewrite length_app in Hlen]; cbn [List.length] in *; lia.
Qed.


(** X17. The player-bullet loop writes nothing but health: obstacles,
    barrels and monsters come out in the same number and order, each equal
    to its input except possibly for [health], and a monster that is
    already dying comes out unchanged, health included. *)
Theorem bullets_change_only_health now weaponUsed bullets c g :
  onlyHealthsChanged c
    (fst (GameLoop.processPlayerBullets now weaponUsed bullets c g)).
Proof.
  unfold GameLoop.processPlayerBullets.
  set (c' := GameLoop.mkCombat _ _ _ _ []).
  destruct (processPlayerBullets_loop now weaponUsed bullets c' c' g
              (onlyHealthsChanged_refl c')) as (H & _).
  exact H.
Qed.

(** ** useGameLoop.ts: post-collision cleanup *)

Lemma chooseDeathEffect_kind t g :
  fst (GameLoop.chooseDeathEffect t g) = run_and_explode -> t = normal.
Proof.
  assert (Hpool : forall r,
            JS.pick GameLoop.DEATH_EFFECTS r explode <> run_and_explode).
  { intro r. unfold JS.pick, GameLoop.DEATH_EFFECTS.
    destruct (Z.to_nat _) as [| [| [| n]]]; cbn; try discriminate.
    destruct n; discriminate. }
  destruct t; try reflexivity; unfold GameLoop.chooseDeathEffect,
    Rng.bind, Rng.ret, Rng.random; cbn [fst]; intro H;
    exfalso; exact (Hpool _ H).
Qed.

Lemma markKilled_loop now l : forall done killed g,
  exists ms,
    fst (Rng.forEach (GameLoop.markKilled now) l (done, killed) g)
    = (done ++ ms, killed ++ filter justKilled l) /\
    Forall2 (cleaned now) l ms.
Proof.
  induction l as [| m l IH]; intros done killed g; cbn [Rng.forEach filter].
  - exists []. rewrite !app_nil_r. split; [reflexivity | constructor].
  - unfold Rng.bind, GameLoop.markKilled at 1. fold (justKilled m).
    destruct (justKilled m) eqn:Hk.
    + unfold Rng.bind, Rng.ret.
      pose proof (chooseDeathEffect_kind (Monster.type m) g) as Hkind.
      destruct (GameLoop.chooseDeathEffect (Monster.type m) g) as [e g1].
      cbn [fst] in Hkind.
      destruct (IH (done ++ [Monster.set_deathEffect (Some e)
                               (Monster.set_diesAt (Some now) m)])
                   (killed ++ [m]) g1) as (ms & E & HF).
      exists (Monster.set_deathEffect (Some e) (Monster.set_diesAt (Some now) m)
              :: ms).
      rewrite E, <- !app_assoc. split; [reflexivity |].
      constructor; [| exact HF].
      unfold cleaned. rewrite Hk. exists e. split; [reflexivity | exact Hkind].
    + unfold Rng.ret.
      destruct (IH (done ++ [m]) killed g) as (ms & E & HF).
      exists (m :: ms). rewrite E, <- !app_assoc. split; [reflexivity |].
      constructor; [| exact HF]. unfold cleaned. now rewrite Hk.
Qed.

(** X18. The post-collision cleanup, at a clock value other than zero,
    goes through the monsters one by one: a monster at or below zero health
    that is not yet dying gets [diesAt = now] and a death effect (which is
    [run_and_explode] only for a normal monster), every other monster is
    left as it is; [newlyKilledMonsters] is exactly the monsters so marked,
    in order; and afterwards every monster at or below zero health is
    dying. *)
Theorem postCollisionCleanup_marks_the_dead now monsters g :
  ~ now == 0 ->
  let r := fst (GameLoop.postCollisionCleanup now monsters g) in
  Forall2 (cleaned now) monsters (fst r) /\
  snd r = filter justKilled monsters /\
  (forall m, In m (fst r) -> Monster.health m <= 0 -> Monster.dying m = true).
Proof.
  intros Hnow. unfold GameLoop.postCollisionCleanup.
  destruct (markKilled_loop now monsters [] [] g) as (ms & E & HF).
  cbv zeta. rewrite E. cbn [fst snd app].
  split; [exact HF |]. split; [reflexivity |].
  clear E. induction HF as [| m m' l l' Hc HF IH]; [intros ? [] |].
  intros k [<- | Hin]; [| now apply IH].
  intro Hh. unfold cleaned, justKilled in Hc.
  destruct (JS.leb (Monster.health m) 0) eqn:Hle; cbn [andb] in Hc.
  - destruct (Monster.dying m) eqn:Hd; cbn [negb] in Hc.
    + now subst.
    + destruct Hc as (e & -> & _). unfold Monster.dying. cbn.
      apply negb_true_iff, eqb_neq. exact Hnow.
  - subst m'. apply leb_gt in Hle. lra.
Qed.

Lemma postCollisionCleanup_marks_the_dead_witness :
  ~ 1000 == 0 /\
  snd (fst (GameLoop.postCollisionCleanup 1000 [shotMonster; toughMonster]
              (Rng.constant (1 # 2))))
  = [shotMonster].
Proof.
  assert (H : ~ 1000 == 0) by (vm_compute; discriminate).
  split; [exact H |].
  exact (proj1 (proj2 (postCollisionCleanup_marks_the_dead 1000
                         [shotMonster; toughMonster] (Rng.constant (1 # 2)) H))).
Defined.

(** ** useGameLoop.ts: the wave director *)

Lemma gameLoop_reaches dm s f :
  reachesWaveBlock s f ->
  GameLoop.gameLoop dm s f = GameLoop.waveProgression dm s f.
Proof.
  intros (Hp & Ho & Hl & Hx). unfold GameLoop.gameLoop.
  now rewrite Hp, Ho, Hl, Hx.
Qed.

Lemma bossWaveStarts_clear s f :
  GameLoop.bossWaveStarts s f = true ->
  GameLoop.waitingAfterKills s f = true /\
  forall m, In m (GameLoop.frameMonsters f) ->
    Monster.dying m = false -> Monster.type m = boss.
Proof.
  unfold GameLoop.bossWaveStarts. intro H.
  apply andb_prop in H. destruct H as [Hw Hn]. split; [exact Hw |].
  apply Nat.eqb_eq, length_zero_iff_nil in Hn.
  intros m Hin Hd.
  destruct (GameLoop.isBoss m) eqn:Hb; [now apply isBoss_type |].
  assert (Hf : In m (filter
                       (fun m => negb (Monster.dying m) && negb (GameLoop.isBoss m))
                       (GameLoop.frameMonsters f))).
  { apply filter_In. split; [exact Hin |]. now rewrite Hd, Hb. }
  rewrite Hn in Hf. destruct Hf.
Qed.

(** X19. In a tick that reaches the wave block outside a boss phase: as
    long as the kills of the wave stay below the threshold, no flag is
    raised and no boss appears; in the tick in which they reach it while a
    living regular monster is still about, [isWaitingForBossClear] is
    raised, the boss wave has not begun, no boss is spawned, the wave and
    the kill counter are carried on, and the guard of the regular spawn is
    off for that tick whatever the clock and the monster count. *)
Theorem kill_threshold_ends_regular_spawning dm s f g :
  reachesWaveBlock s f ->
  GameLoop.isWaitingForBossClear s = false ->
  GameLoop.isBossWave s = false ->
  let r := fst (GameLoop.gameLoop dm s f g) in
  (killsSoFar s f < GameLoop.monstersToKillForNextWave s ->
   GameLoop.isWaitingForBossClear (fst r) = false /\
   GameLoop.isBossWave (fst r) = false /\
   snd r = None) /\
  (GameLoop.monstersToKillForNextWave s <= killsSoFar s f ->
   (exists m, In m (GameLoop.frameMonsters f) /\
              Monster.dying m = false /\ GameLoop.isBoss m = false) ->
   GameLoop.isWaitingForBossClear (fst r) = true /\
   GameLoop.isBossWave (fst r) = false /\
   snd r = None /\
   GameLoop.wave (fst r) = GameLoop.wave s /\
   GameLoop.monstersKilledThisWave (fst r) = killsSoFar s f /\
   forall now lastMonsterSpawnTime monsters,
     GameLoop.regularSpawnDue (fst r) now lastMonsterSpawnTime monsters = false).
Proof.
  intros Hreach Hw Hb r. subst r. rewrite (gameLoop_reaches dm s f Hreach).
  split.
  - intro Hlt. apply leb_gt in Hlt. unfold killsSoFar in Hlt.
    assert (Hwait : GameLoop.waitingAfterKills s f = false).
    { unfold GameLoop.waitingAfterKills. rewrite Hw, Hb, Hlt. reflexivity. }
    assert (Hst : GameLoop.bossWaveStarts s f = false).
    { unfold GameLoop.bossWaveStarts. now rewrite Hwait. }
    unfold GameLoop.waveProgression, GameLoop.bossWaveNow, Rng.bind, Rng.ret.
    rewrite Hst, Hwait, Hb. cbn. repeat split; reflexivity.
  - intros Hle (m & Hin & Hd & Hnb). apply leb_le in Hle. unfold killsSoFar in Hle.
    assert (Hwait : GameLoop.waitingAfterKills s f = true).
    { unfold GameLoop.waitingAfterKills. rewrite Hw, Hb, Hle. reflexivity. }
    assert (Hst : GameLoop.bossWaveStarts s f = false).
    { destruct (GameLoop.bossWaveStarts s f) eqn:E; [| reflexivity].
      destruct (bossWaveStarts_clear s f E) as [_ Hall].
      specialize (Hall m Hin Hd). unfold GameLoop.isBoss in Hnb.
      rewrite Hall in Hnb. discriminate. }
    unfold GameLoop.waveProgression, GameLoop.bossWaveNow, Rng.bind, Rng.ret.
    rewrite Hst, Hwait, Hb. cbn. repeat split; reflexivity.
Qed.

Lemma kill_threshold_ends_regular_spawning_witness :
  reachesWaveBlock nineKills tenthKillFrame /\
  GameLoop.isWaitingForBossClear
    (fst (fst (GameLoop.gameLoop DIFFICULTY_NORMAL nineKills tenthKillFrame
                 (Rng.constant (1 # 2))))) = true.
Proof.
  assert (H : reachesWaveBlock nineKills tenthKillFrame)
    by (repeat split; reflexivity).
  split; [exact H |].
  apply (kill_threshold_ends_regular_spawning DIFFICULTY_NORMAL nineKills
           tenthKillFrame (Rng.constant (1 # 2)) H eq_refl eq_refl).
  - vm_compute; discriminate.
  - exists toughMonster. split; [right; left; reflexivity |].
    split; reflexivity.
Defined.

(** X20. A boss is spawned only in a tick in which the wait for the clear
    field is on and no living regular monster is left; the boss so spawned
    is of type boss, in phase 1, not dying, at full health, its health being
    [(800 + wave * 150 + waveHealthBonus * 5)] times the difficulty's
    monster-health factor, and the state it comes with is in its boss wave
    or has already moved to the next wave. *)
Theorem boss_spawns_on_clear_field dm s f g b :
  snd (fst (GameLoop.gameLoop dm s f g)) = Some b ->
  let s' := fst (fst (GameLoop.gameLoop dm s f g)) in
  GameLoop.waitingAfterKills s f = true /\
  (forall m, In m (GameLoop.frameMonsters f) ->
     Monster.dying m = false -> Monster.type m = boss) /\
  Monster.type b = boss /\
  Monster.phase b = Some 1%Z /\
  Monster.dying b = false /\
  Monster.health b = Monster.maxHealth b /\
  Monster.health b
  = (800 + inject_Z (GameLoop.wave s) * 150
     + GameLoop.waveHealthBonus (GameLoop.wave s) * 5) * monsterHealth dm /\
  GameLoop.isWaitingForBossClear s' = false /\
  (GameLoop.isBossWave s' = true \/
   GameLoop.wave s' = (GameLoop.wave s + 1)%Z).
Proof.
  unfold GameLoop.gameLoop.
  destruct (GameLoop.isPaused s || GameLoop.gameOver s || GameLoop.isLevelingUp s);
    [discriminate |].
  destruct (JS.leb _ _); [discriminate |].
  unfold GameLoop.waveProgression, GameLoop.bossWaveNow, Rng.bind, Rng.ret.
  destruct (GameLoop.bossWaveStarts s f) eqn:Hst; [| discriminate].
  destruct (bossWaveStarts_clear s f Hst) as [Hwait Hclear].
  destruct (GameLoop.currentWaveTheme s); [| discriminate].
  unfold GameLoop.spawnBoss, Rng.bind, Rng.ret.
  destruct (Utils.findSafeTeleportLocation _ _ g) as [pos g1].
  destruct (Rng.uuid g1) as [id g2]. cbn [fst snd].
  intro E. injection E as <-. cbv zeta.
  split; [exact Hwait |]. split; [exact Hclear |].
  cbn [Monster.type Monster.phase Monster.health Monster.maxHealth].
  repeat (split; [reflexivity |]).
  destruct (match GameLoop.bossKilled f with Some _ => true | None => false end);
    cbn; split; auto.
Qed.

Lemma boss_spawns_on_clear_field_witness :
  exists b,
    snd (fst (GameLoop.gameLoop DIFFICULTY_NORMAL waitingForClear clearFrame
                (Rng.constant (1 # 2)))) = Some b /\
    Monster.type b = boss.
Proof.
  eexists. split; [reflexivity |].
  exact (proj1 (proj2 (proj2
    (boss_spawns_on_clear_field DIFFICULTY_NORMAL waitingForClear clearFrame
       (Rng.constant (1 # 2)) _ eq_refl)))).
Defined.

(** X21. Whenever a tick moves the game to the next wave, the kill counter
    starts again at zero, the theme of the new wave is generated, and the
    number of kills asked for grows: it is the floor of 1.2 times the old
    number plus 5, which is more than the old number plus 4 when that was
    not negative. *)
Theorem next_wave_asks_for_more_kills dm s f g :
  let s' := fst (fst (GameLoop.gameLoop dm s f g)) in
  GameLoop.wave s' = (GameLoop.wave s + 1)%Z ->
  0 <= GameLoop.monstersToKillForNextWave s ->
  GameLoop.monstersKilledThisWave s' = 0 /\
  GameLoop.currentWaveTheme s' = Some (GameLoop.wave s + 1)%Z /\
  GameLoop.monstersToKillForNextWave s'
  = JS.floor (GameLoop.monstersToKillForNextWave s * (12 # 10) + 5) /\
  GameLoop.monstersToKillForNextWave s + 4
  < GameLoop.monstersToKillForNextWave s'.
Proof.
  unfold GameLoop.gameLoop.
  destruct (GameLoop.isPaused s || GameLoop.gameOver s || GameLoop.isLevelingUp s).
  { cbn. intros; lia. }
  destruct (JS.leb _ _).
  { cbn. intros; lia. }
  unfold GameLoop.waveProgression, Rng.bind, Rng.ret.
  match goal with
  | |- context [(if GameLoop.bossWaveStarts s f then ?a else ?b) g] =>
      destruct ((if GameLoop.bossWaveStarts s f then a else b) g) as [spawned g1]
  end.
  cbn [fst].
  destruct (GameLoop.bossWaveNow s f && _); cbn; [| intros; lia].
  intros _ H0. repeat (split; [reflexivity |]).
  pose proof (Qlt_floor (GameLoop.monstersToKillForNextWave s * (12 # 10) + 5)) as H.
  rewrite inject_Z_plus in H. change (inject_Z 1) with 1 in H.
  unfold JS.floor. lra.
Qed.

Lemma next_wave_asks_for_more_kills_witness :
  GameLoop.monstersToKillForNextWave
    (fst (fst (GameLoop.gameLoop DIFFICULTY_NORMAL bossWaveOne bossFallsFrame
                 (Rng.constant (1 # 2)))))
  = JS.floor (10 * (12 # 10) + 5).
Proof.
  apply (next_wave_asks_for_more_kills DIFFICULTY_NORMAL bossWaveOne
           bossFallsFrame (Rng.constant (1 # 2))).
  - reflexivity.
  - vm_compute; discriminate.
Defined.

(** X22. A tick in which the player has the experience for the next level
    stops at the level-up check: the level goes up by one, the experience
    kept is what exceeded the threshold, the wave counters and flags are
    not touched and no boss is spawned; [isLevelingUp] is set, so that
    every further tick returns the state as it is until the flag is
    cleared. *)
Theorem level_up_freezes_the_loop dm s f g :
  GameLoop.isPaused s = false ->
  GameLoop.gameOver s = false ->
  GameLoop.isLevelingUp s = false ->
  Player.xpToNextLevel (GameLoop.framePlayer f) <= Player.xp (GameLoop.framePlayer f) ->
  let s' := fst (fst (GameLoop.gameLoop dm s f g)) in
  GameLoop.isLevelingUp s' = true /\
  Player.level (GameLoop.statePlayer s')
  = (Player.level (GameLoop.framePlayer f) + 1)%Z /\
  0 <= Player.xp (GameLoop.statePlayer s') /\
  Player.xp (GameLoop.statePlayer s') + Player.xpToNextLevel (GameLoop.framePlayer f)
  == Player.xp (GameLoop.framePlayer f) /\
  (GameLoop.wave s', GameLoop.monstersKilledThisWave s',
   GameLoop.monstersToKillForNextWave s', GameLoop.isWaitingForBossClear s',
   GameLoop.isBossWave s')
  = (GameLoop.wave s, GameLoop.monstersKilledThisWave s,
     GameLoop.monstersToKillForNextWave s, GameLoop.isWaitingForBossClear s,
     GameLoop.isBossWave s) /\
  snd (fst (GameLoop.gameLoop dm s f g)) = None /\
  forall f' g', GameLoop.gameLoop dm s' f' g' = (s', None, g').
Proof.
  intros Hp Ho Hl Hx. apply leb_le in Hx.
  assert (E : GameLoop.gameLoop dm s f g
              = (GameLoop.mkGameState (GameLoop.isPaused s)
                   (GameLoop.gameOver s || GameLoop.frameGameOver f) true
                   (GameLoop.wave s) (GameLoop.monstersKilledThisWave s)
                   (GameLoop.monstersToKillForNextWave s)
                   (GameLoop.isWaitingForBossClear s) (GameLoop.isBossWave s)
                   (GameLoop.currentWaveTheme s)
                   (GameLoop.levelUp (GameLoop.framePlayer f)), None, g)).
  { unfold GameLoop.gameLoop. rewrite Hp, Ho, Hl, Hx. reflexivity. }
  rewrite E. cbn [fst snd]. cbv zeta.
  cbn [GameLoop.isLevelingUp GameLoop.statePlayer GameLoop.wave
       GameLoop.monstersKilledThisWave GameLoop.monstersToKillForNextWave
       GameLoop.isWaitingForBossClear GameLoop.isBossWave].
  apply leb_le in Hx.
  split; [reflexivity |]. split; [destruct (GameLoop.framePlayer f); reflexivity |].
  split; [destruct (GameLoop.framePlayer f); cbn in *; lra |].
  split; [destruct (GameLoop.framePlayer f); cbn in *; ring |].
  split; [reflexivity |]. split; [reflexivity |].
  intros f' g'. unfold GameLoop.gameLoop. cbn [GameLoop.isPaused GameLoop.gameOver
    GameLoop.isLevelingUp]. now rewrite !orb_true_r.
Qed.

Lemma level_up_freezes_the_loop_witness :
  GameLoop.isLevelingUp
    (fst (fst (GameLoop.gameLoop DIFFICULTY_NORMAL nineKills levelFrame
                 (Rng.constant (1 # 2))))) = true.
Proof.
  apply (level_up_freezes_the_loop DIFFICULTY_NORMAL nineKills levelFrame
           (Rng.constant (1 # 2)) eq_refl eq_refl eq_refl).
  vm_compute; discriminate.
Defined.

(** ** useGameLoop.ts: reloading *)

Lemma orElse_nullish o : JS.orElse o 0 == GameLoop.nullish o.
Proof.
  destruct o as [v |]; cbn; [| reflexivity].
  unfold JS.or. destruct (JS.eqb v 0) eqn:E; [| reflexivity].
  apply eqb_eq in E. now rewrite E.
Qed.

(** X23. Refilling the clip takes from the reserve what the clip lacks, as
    far as the reserve goes.  For a weapon with [0 <= ammoInClip <= clipSize]
    and a reserve ([durability]) that is not negative: the clip afterwards
    holds the old rounds plus the smaller of the missing rounds and the
    reserve, so it never exceeds [clipSize] and is full when the reserve
    suffices; a reserve below 9999 shrinks by exactly the rounds loaded,
    and a reserve of 9999 or more is left as it is. *)
Theorem refill_moves_rounds_from_reserve (w : Weapon.t) :
  let a := GameLoop.nullish (Weapon.ammoInClip w) in
  let c := GameLoop.nullish (Weapon.clipSize w) in
  let d := GameLoop.nullish (Weapon.durability w) in
  let a' := GameLoop.nullish (Weapon.ammoInClip (GameLoop.refill w)) in
  let d' := GameLoop.nullish (Weapon.durability (GameLoop.refill w)) in
  0 <= a -> a <= c -> 0 <= d ->
  a' == a + JS.min (c - a) d /\
  a <= a' /\ a' <= c /\
  (c - a <= d -> a' == c) /\
  (d < 9999 -> a' + d' == a + d /\ 0 <= d') /\
  (9999 <= d -> d' == d) /\
  Weapon.clipSize (GameLoop.refill w) = Weapon.clipSize w.
Proof.
  intros a c d a' d' Ha Hac Hd. subst a' d'. unfold GameLoop.refill.
  pose proof (orElse_nullish (Weapon.ammoInClip w)) as EA.
  pose proof (orElse_nullish (Weapon.clipSize w)) as EC.
  fold a in EA. fold c in EC. fold d.
  set (A := JS.orElse (Weapon.ammoInClip w) 0) in *.
  set (C := JS.orElse (Weapon.clipSize w) 0) in *.
  assert (Hmin : JS.min (c - a) d == JS.min (C - A) d).
  { unfold JS.min. now rewrite EA, EC. }
  set (m := JS.min (C - A) d) in *.
  assert (Hm0 : 0 <= m) by (apply min_glb; lra).
  assert (Hm1 : m <= C - A) by apply min_l.
  assert (Hm2 : m <= d) by apply min_r.
  assert (Hfull : C - A <= d -> m == C - A).
  { intro H. apply Qle_antisym; [exact Hm1 | apply min_glb; lra]. }
  destruct (JS.ltb 0 m) eqn:Hpos.
  - assert (Ed : GameLoop.nullish
                   (Weapon.durability
                      (Weapon.set_ammoInClip (Some (A + m)) w)) = d)
      by reflexivity.
    rewrite Ed.
    destruct (JS.ltb d 9999) eqn:Hinf.
    + apply ltb_lt in Hinf. cbn [Weapon.ammoInClip Weapon.durability
        Weapon.set_durability Weapon.set_ammoInClip Weapon.clipSize
        GameLoop.nullish].
      rewrite Hmin.
      repeat split; lra.
    + apply ltb_ge in Hinf. cbn [Weapon.ammoInClip Weapon.durability
        Weapon.set_ammoInClip Weapon.clipSize GameLoop.nullish].
      fold d. rewrite Hmin.
      repeat split; lra.
  - apply ltb_ge in Hpos. fold a d. rewrite Hmin.
    assert (Em : m == 0) by lra.
    repeat split; lra.
Qed.

Lemma refill_moves_rounds_from_reserve_witness :
  GameLoop.nullish (Weapon.ammoInClip (GameLoop.refill spentWeapon)) == 20.
Proof.
  assert (H0 : 0 <= GameLoop.nullish (Weapon.ammoInClip spentWeapon))
    by (vm_compute; discriminate).
  assert (H1 : GameLoop.nullish (Weapon.ammoInClip spentWeapon)
               <= GameLoop.nullish (Weapon.clipSize spentWeapon))
    by (vm_compute; discriminate).
  assert (H2 : 0 <= GameLoop.nullish (Weapon.durability spentWeapon))
    by (vm_compute; discriminate).
  destruct (refill_moves_rounds_from_reserve spentWeapon H0 H1 H2)
    as (_ & _ & _ & Hfull & _).
  apply Hfull. vm_compute; discriminate.
Defined.

Lemma nth_error_replaceAt {A : Type} (v : A) : forall l i,
  (i < List.length l)%nat ->
  nth_error (GameLoop.replaceAt i v l) i = Some v /\
  List.length (GameLoop.replaceAt i v l) = List.length l /\
  forall j, j <> i ->
    nth_error (GameLoop.replaceAt i v l) j = nth_error l j.
Proof.
  induction l as [| a l IH]; intros i Hi; cbn in Hi; [lia |].
  destruct i as [| i]; cbn.
  - repeat split. intros [| j] Hj; [congruence | reflexivity].
  - destruct (IH i ltac:(lia)) as (E & L & O).
    repeat split; [exact E | now rewrite L |].
    intros [| j] Hj; [reflexivity |]. cbn. apply O. congruence.
Qed.

(** X24. The reload cycle.  A reload asked for while the game runs, with no
    reload under way, a clip that is not full and a reserve that is not
    empty, sets [isReloading] and [reloadUntil = now + (reloadTime || 2000)]
    and touches no weapon; until that time the reloading logic of the tick
    does nothing; from that time on it clears both fields and replaces the
    equipped weapon, and only that slot, by the refilled weapon; and a
    second request made while the reload is under way changes nothing. *)
Theorem reload_cycle (now t t' : Q) (a : GameLoop.Arsenal) (w : Weapon.t) :
  GameLoop.currentWeaponOf a = Some w ->
  GameLoop.isReloading (GameLoop.reloading a) = false ->
  GameLoop.nullish (Weapon.ammoInClip w) < GameLoop.nullish (Weapon.clipSize w) ->
  0 < GameLoop.nullish (Weapon.durability w) ->
  let a1 := GameLoop.handleReload false false now a in
  let a2 := GameLoop.finishReload t a1 in
  GameLoop.equippedWeapons a1 = GameLoop.equippedWeapons a /\
  GameLoop.reloading a1
  = GameLoop.mkReloading true
      (Some (now + JS.orElse (Weapon.reloadTime w) 2000)) /\
  GameLoop.handleReload false false t' a1 = a1 /\
  (t < now + JS.orElse (Weapon.reloadTime w) 2000 -> a2 = a1) /\
  (now + JS.orElse (Weapon.reloadTime w) 2000 <= t ->
   GameLoop.reloading a2 = GameLoop.mkReloading false None /\
   GameLoop.currentWeaponOf a2 = Some (GameLoop.refill w) /\
   List.length (GameLoop.equippedWeapons a2)
   = List.length (GameLoop.equippedWeapons a) /\
   forall j, j <> GameLoop.equippedWeaponIndex a ->
     nth_error (GameLoop.equippedWeapons a2) j
     = nth_error (GameLoop.equippedWeapons a) j).
Proof.
  intros Hw Hidle Hclip Hres a1 a2.
  assert (E1 : a1 = GameLoop.mkArsenal (GameLoop.equippedWeapons a)
                      (GameLoop.equippedWeaponIndex a)
                      (GameLoop.mkReloading true
                         (Some (now + JS.orElse (Weapon.reloadTime w) 2000)))).
  { subst a1. unfold GameLoop.handleReload. rewrite Hw, Hidle.
    apply leb_gt in Hclip. apply leb_gt in Hres. rewrite Hclip, Hres.
    reflexivity. }
  clearbody a1. subst a1.
  set (u := now + JS.orElse (Weapon.reloadTime w) 2000) in *.
  set (a1 := GameLoop.mkArsenal _ _ _) in *.
  assert (Hw1 : GameLoop.currentWeaponOf a1 = Some w) by exact Hw.
  assert (Eu : JS.orElse (GameLoop.reloadUntil (GameLoop.reloading a1)) 0 == u).
  { cbn. unfold JS.or. destruct (JS.eqb u 0) eqn:E; [| reflexivity].
    apply eqb_eq in E. now rewrite E. }
  split; [reflexivity |]. split; [reflexivity |].
  split.
  { unfold GameLoop.handleReload. rewrite Hw1. reflexivity. }
  split.
  - intro Hlt. subst a2. unfold GameLoop.finishReload.
    assert (Hnot : JS.leb (JS.orElse (GameLoop.reloadUntil (GameLoop.reloading a1)) 0) t
                   = false)
      by (apply leb_gt; rewrite Eu; exact Hlt).
    rewrite Hnot, andb_false_r. reflexivity.
  - intro Hge.
    assert (Hdue : JS.leb (JS.orElse (GameLoop.reloadUntil (GameLoop.reloading a1)) 0) t
                   = true)
      by (apply leb_le; rewrite Eu; exact Hge).
    assert (E2 : a2 = GameLoop.mkArsenal
                        (GameLoop.replaceAt (GameLoop.equippedWeaponIndex a)
                           (Some (GameLoop.refill w)) (GameLoop.equippedWeapons a))
                        (GameLoop.equippedWeaponIndex a)
                        (GameLoop.mkReloading false None)).
    { subst a2. unfold GameLoop.finishReload. rewrite Hdue, Hw1. reflexivity. }
    assert (Hi : (GameLoop.equippedWeaponIndex a
                  < List.length (GameLoop.equippedWeapons a))%nat).
    { apply nth_error_Some. unfold GameLoop.currentWeaponOf in Hw.
      destruct (nth_error _ _); [discriminate | discriminate Hw]. }
    destruct (nth_error_replaceAt (Some (GameLoop.refill w)) _ _ Hi)
      as (En & El & Eo).
    rewrite E2. cbn [GameLoop.reloading GameLoop.equippedWeapons].
    split; [reflexivity |]. split; [| split; [exact El | exact Eo]].
    unfold GameLoop.currentWeaponOf.
    cbn [GameLoop.equippedWeapons GameLoop.equippedWeaponIndex].
    now rewrite En.
Qed.

Lemma reload_cycle_witness :
  GameLoop.currentWeaponOf
    (GameLoop.finishReload 3000 (GameLoop.handleReload false false 1000 spentArsenal))
  = Some (GameLoop.refill spentWeapon).
Proof.
  assert (Hc : GameLoop.nullish (Weapon.ammoInClip spentWeapon)
               < GameLoop.nullish (Weapon.clipSize spentWeapon))
    by (vm_compute; reflexivity).
  assert (Hr : 0 < GameLoop.nullish (Weapon.durability spentWeapon))
    by (vm_compute; reflexivity).
  destruct (reload_cycle 1000 3000 1500 spentArsenal spentWeapon
              eq_refl eq_refl Hc Hr) as (_ & _ & _ & _ & Hdone).
  apply Hdone. vm_compute; discriminate.
Defined.

(** ** explosiveBarrelAI.ts: quiet frames and blast damage *)

Lemma detect_quiet st pending barrel :
  ExplosiveBarrelAI.triggered st barrel = false ->
  ExplosiveBarrelAI.detect st pending barrel = pending.
Proof.
  unfold ExplosiveBarrelAI.triggered, ExplosiveBarrelAI.detect. intro H.
  apply orb_false_iff in H. destruct H as [H Hm].
  apply orb_false_iff in H. destruct H as [Hh Hp].
  now rewrite Hh, Hp, Hm.
Qed.

Lemma fold_detect_quiet st barrels : forall pending,
  (forall b, In b barrels -> ExplosiveBarrelAI.triggered st b = false) ->
  fold_left (ExplosiveBarrelAI.detect st) barrels pending = pending.
Proof.
  induction barrels as [| b l IH]; intros pending H; cbn; [reflexivity |].
  rewrite detect_quiet by (apply H; now left).
  apply IH. intros b' Hb'. apply H. now right.
Qed.

Lemma filter_all {A : Type} (l : list A) : filter (fun _ => true) l = l.
Proof. induction l; cbn; congruence. Qed.

(** X25. A frame in which no barrel is out of health, touched by the
    player or touched by a living monster is a frame in which
    [processExplosiveBarrels] does nothing: barrels, obstacles and monsters
    are returned as they came, no explosion, damage number or announcement
    is produced, the target is kept and [takeDamage] is not called. *)
Theorem quiet_barrels_change_nothing
    (W : Type) (takeDamage : Q -> option SourceType -> W -> W)
    (st : ExplosiveBarrelAI.State) (now : Q) (w : W) :
  (forall b, In b (ExplosiveBarrelAI.explosiveBarrels st) ->
     ExplosiveBarrelAI.triggered st b = false) ->
  ExplosiveBarrelAI.processExplosiveBarrels W takeDamage st now w
  = (ExplosiveBarrelAI.mkResult (ExplosiveBarrelAI.explosiveBarrels st)
       (ExplosiveBarrelAI.obstacles st) (ExplosiveBarrelAI.monsters st)
       [] [] 0 (ExplosiveBarrelAI.targetedObstacle st), w).
Proof.
  intro H. unfold ExplosiveBarrelAI.processExplosiveBarrels.
  rewrite (fold_detect_quiet st _ [] H). cbn.
  rewrite filter_all.
  destruct (ExplosiveBarrelAI.targetedObstacle st); reflexivity.
Qed.

Lemma quiet_barrels_change_nothing_witness :
  ExplosiveBarrelAI.updatedBarrels
    (fst (ExplosiveBarrelAI.processExplosiveBarrels GameLoop.Draft
            GameLoop._takeDamage quietBarrel 1000 (initialDraft 1000)))
  = [barrelB].
Proof.
  rewrite (quiet_barrels_change_nothing GameLoop.Draft GameLoop._takeDamage
             quietBarrel 1000 (initialDraft 1000)).
  - reflexivity.
  - intros b [<- | []]. reflexivity.
Defined.

Lemma Forall2_map_same {A : Type} (R : A -> A -> Prop) (f : A -> A) :
  (forall a, R a (f a)) -> forall l, Forall2 R l (map f l).
Proof. intros H l. induction l; cbn; constructor; auto. Qed.

Lemma monsterBlasted_trans a b c :
  monsterBlasted a b -> monsterBlasted b c -> monsterBlasted a c.
Proof.
  intros [H1 L1] [H2 L2]. split; [eapply monsterHurt_trans; eassumption | lra].
Qed.

Lemma obstacleBlasted_trans a b c :
  obstacleBlasted a b -> obstacleBlasted b c -> obstacleBlasted a c.
Proof.
  unfold obstacleBlasted, obstacleHurt. intros [H1 L1] [H2 L2].
  split; [congruence | lra].
Qed.

Lemma iter_shift {W : Type} (f : W -> W) n w :
  Nat.iter n f (f w) = Nat.iter (S n) f w.
Proof.
  induction n as [| n IH]; [reflexivity |].
  change (f (Nat.iter n f (f w)) = f (Nat.iter (S n) f w)). now rewrite IH.
Qed.

(** Stage 2 over any list of blasts of damage 100. *)
Lemma fold_explode_blasts W takeDamage st now blasts : forall acc,
  Forall (fun e => ExplosiveBarrelAI.blastDamage e = 100) blasts ->
  let r := fold_left (ExplosiveBarrelAI.explode W takeDamage st now) blasts acc in
  Forall2 monsterBlasted (ExplosiveBarrelAI.effMonsters acc)
    (ExplosiveBarrelAI.effMonsters r) /\
  Forall2 obstacleBlasted (ExplosiveBarrelAI.effObstacles acc)
    (ExplosiveBarrelAI.effObstacles r) /\
  (Forall (fun n => n = 100) (ExplosiveBarrelAI.effDamageNumbers acc) ->
   Forall (fun n => n = 100) (ExplosiveBarrelAI.effDamageNumbers r)) /\
  exists n, (n <= List.length blasts)%nat /\
    ExplosiveBarrelAI.world r
    = Nat.iter n (takeDamage 100 (Some event)) (ExplosiveBarrelAI.world acc).
Proof.
  induction blasts as [| e l IH]; intros acc Hall; cbn [fold_left].
  - cbv zeta. split; [| split; [| split]].
    + apply Forall2_refl_all. intro m. split; [apply monsterHurt_refl | lra].
    + apply Forall2_refl_all. intro o. split; [reflexivity | lra].
    + auto.
    + exists 0%nat. split; [cbn; lia | reflexivity].
  - inversion Hall as [| ? ? He Hl]; subst.
    destruct (IH (ExplosiveBarrelAI.explode W takeDamage st now acc e) Hl)
      as (HM & HO & HN & n & Hn & HW).
    cbv zeta. split; [| split; [| split]].
    + eapply Forall2_trans_all; [exact monsterBlasted_trans | | exact HM].
      cbn [ExplosiveBarrelAI.explode ExplosiveBarrelAI.effMonsters].
      apply Forall2_map_same. intro m.
      destruct (negb (Monster.dying m) && _) eqn:Hhit.
      * split; [split; [reflexivity |] |].
        -- intro Hd. rewrite Hd in Hhit. discriminate.
        -- rewrite He. cbn. lra.
      * split; [apply monsterHurt_refl | lra].
    + eapply Forall2_trans_all; [exact obstacleBlasted_trans | | exact HO].
      cbn [ExplosiveBarrelAI.explode ExplosiveBarrelAI.effObstacles].
      apply Forall2_map_same. intro o.
      destruct (Utils.checkCollision _ _).
      * split; [reflexivity |]. rewrite He. cbn. lra.
      * split; [reflexivity | lra].
    + intro Hacc. apply HN.
      cbn [ExplosiveBarrelAI.explode ExplosiveBarrelAI.effDamageNumbers].
      apply Forall_app. split; [exact Hacc |].
      apply Forall_forall. intros k Hk. apply in_map_iff in Hk.
      destruct Hk as (m & <- & _). exact He.
    + rewrite HW. cbn [ExplosiveBarrelAI.explode ExplosiveBarrelAI.world].
      destruct (ExplosiveBarrelAI.inBlast e _).
      * exists (S n). split; [cbn; lia |]. rewrite He. apply iter_shift.
      * exists n. split; [cbn; lia | reflexivity].
Qed.

(** X26. Whatever explodes, [processExplosiveBarrels] hands monsters and
    obstacles back in the same number and order, each changed in nothing
    but a health that has not gone up, and a dying monster not changed at
    all; every damage number it shows is 100; and the player's [takeDamage]
    is called with amount 100 and source [event] only, at most once for
    each explosion. *)
Theorem blasts_hurt_only_the_living
    (W : Type) (takeDamage : Q -> option SourceType -> W -> W)
    (st : ExplosiveBarrelAI.State) (now : Q) (w : W) :
  let r := ExplosiveBarrelAI.processExplosiveBarrels W takeDamage st now w in
  Forall2 monsterBlasted (ExplosiveBarrelAI.monsters st)
    (ExplosiveBarrelAI.updatedMonsters (fst r)) /\
  Forall2 obstacleBlasted (ExplosiveBarrelAI.obstacles st)
    (ExplosiveBarrelAI.updatedObstacles (fst r)) /\
  Forall (fun n => n = 100) (ExplosiveBarrelAI.newDamageNumbers (fst r)) /\
  exists n,
    (n <= List.length (ExplosiveBarrelAI.newExplosions (fst r)))%nat /\
    snd r = Nat.iter n (takeDamage 100 (Some event)) w.
Proof.
  cbv zeta. unfold ExplosiveBarrelAI.processExplosiveBarrels.
  set (pending := fold_left (ExplosiveBarrelAI.detect st)
                    (ExplosiveBarrelAI.explosiveBarrels st) []).
  assert (Hfrom : fromBarrels (ExplosiveBarrelAI.explosiveBarrels st) pending).
  { apply fold_detect_fromBarrels; [auto |]. intros k v []. }
  assert (Hall : Forall (fun e => ExplosiveBarrelAI.blastDamage e = 100)
                   (map snd pending)).
  { apply Forall_forall. intros e He. apply in_map_iff in He.
    destruct He as ([k v] & <- & Hin).
    destruct (Hfrom k v Hin) as (b & _ & _ & ->). reflexivity. }
  destruct (fold_explode_blasts W takeDamage st now (map snd pending)
              (ExplosiveBarrelAI.mkEffects w (ExplosiveBarrelAI.monsters st)
                 (ExplosiveBarrelAI.obstacles st) [] []) Hall)
    as (HM & HO & HN & n & Hn & HW).
  cbn [fst snd ExplosiveBarrelAI.updatedMonsters
       ExplosiveBarrelAI.updatedObstacles ExplosiveBarrelAI.newDamageNumbers
       ExplosiveBarrelAI.newExplosions].
  split; [exact HM |]. split; [exact HO |].
  split; [apply HN; constructor |].
  exists n. split; [| exact HW].
  rewrite fold_explode_explosions. cbn [ExplosiveBarrelAI.effExplosions app].
  rewrite !length_map in *. exact Hn.
Qed.

(** ** Monster AI: movement through [getSlidingMove] *)

Lemma getSlidingMove_clear entity moveVector speed obstacles :
  clearOf obstacles entity ->
  clearOf obstacles
    (mkGameObject (Utils.getSlidingMove entity moveVector speed obstacles)
       (size entity)).
Proof.
  unfold clearOf. intro Hstart. apply collidesAny_false.
  assert (H0 : Utils.collidesAny entity obstacles = false)
    by (apply collidesAny_false; exact Hstart).
  destruct entity as [[ex ey] sz]. unfold Utils.getSlidingMove.
  cbn [position size x y].
  destruct (Utils.collidesAny
              (mkGameObject (mkVector2D (ex + x moveVector * speed) ey) sz)
              obstacles) eqn:EX.
  - destruct (Utils.collidesAny
                (mkGameObject (mkVector2D ex (ey + y moveVector * speed)) sz)
                obstacles) eqn:EY; [exact H0 | exact EY].
  - destruct (Utils.collidesAny
                (mkGameObject
                   (mkVector2D (ex + x moveVector * speed)
                               (ey + y moveVector * speed)) sz)
                obstacles) eqn:EY; [exact EX | exact EY].
Qed.

Lemma dashOrChoose_position sqrt monster allObstacles now t phase a g :
  let pos := snd (fst (BossAI.dashOrChoose sqrt monster allObstacles now t phase a g)) in
  pos = Monster.position monster \/
  exists v s, pos = Utils.getSlidingMove (Monster.obj monster) v s allObstacles.
Proof.
  unfold BossAI.dashOrChoose.
  destruct (AIState.type a); try (now left).
  - destruct (AIState.dashTarget a); cbn.
    + destruct (JS.ltb 2000 t); [| now left].
      unfold Rng.bind, Rng.random, Rng.ret.
      destruct (JS.ltb _ (4 # 10)); [now left |].
      destruct (_ && _); now left.
    + destruct (JS.ltb 2000 t); [| now left].
      unfold Rng.bind, Rng.random, Rng.ret.
      destruct (JS.ltb _ (4 # 10)); [now left |].
      destruct (_ && _); now left.
  - destruct (AIState.dashTarget a) as [target |]; [| now left].
    destruct (_ || _); [now left |]. right. eexists. eexists. reflexivity.
Qed.

(** X27. The boss never walks into an obstacle: if its rectangle overlaps
    no obstacle or barrel of the list when [handleBossAI] is called, the
    rectangle of the updated boss overlaps none either, whatever state the
    boss is in; and the call leaves the boss's identity, type, size, speed
    and health as they were. *)
Theorem boss_never_enters_obstacle (sqrt cos sin : Q -> Q) (PI : Q)
    (monster : Monster.t) (player : Player.t) (allObstacles : list GameObject)
    (dm : DifficultyModifiers) (now : Q) (g : Rng.t) :
  clearOf allObstacles (Monster.obj monster) ->
  let updated :=
    BossAI.updatedMonster
      (fst (BossAI.handleBossAI sqrt cos sin PI monster player allObstacles
              dm now g)) in
  clearOf allObstacles (Monster.obj updated) /\
  Monster.id updated = Monster.id monster /\
  Monster.type updated = Monster.type monster /\
  Monster.size updated = Monster.size monster /\
  Monster.speed updated = Monster.speed monster /\
  Monster.health updated = Monster.health monster /\
  Monster.maxHealth updated = Monster.maxHealth monster.
Proof.
  intro Hclear. unfold BossAI.handleBossAI, Rng.bind. cbv zeta.
  destruct (BossAI.dialogueTrigger _ _ g) as [spoken g1].
  match goal with
  | |- context [BossAI.dashOrChoose sqrt monster allObstacles now ?t ?ph ?a g1] =>
      pose proof (dashOrChoose_position sqrt monster allObstacles now t ph a g1)
        as Hpos;
      destruct (BossAI.dashOrChoose sqrt monster allObstacles now t ph a g1)
        as [moved g2]
  end.
  match goal with
  | |- context [BossAI.actOnState ?c ?s ?pi ?m ?p ?d ?n ?t ?ph ?a g2] =>
      destruct (BossAI.actOnState c s pi m p d n t ph a g2) as [acted g3]
  end.
  match goal with
  | |- context [BossAI.minionSpawning ?m ?d ?n ?ph ?a g3] =>
      destruct (BossAI.minionSpawning m d n ph a g3) as [spawned g4]
  end.
  unfold Rng.ret. cbn [fst snd BossAI.updatedMonster] in *. cbv zeta in Hpos.
  split; [| repeat split; reflexivity].
  change (clearOf allObstacles
            (mkGameObject (snd moved) (Monster.size monster))).
  destruct Hpos as [-> | (v & s & ->)].
  - exact Hclear.
  - apply (getSlidingMove_clear (Monster.obj monster)). exact Hclear.
Qed.

Lemma boss_never_enters_obstacle_witness :
  clearOf [pillar] (Monster.obj dashingBoss) /\
  clearOf [pillar]
    (Monster.obj
       (BossAI.updatedMonster
          (fst (BossAI.handleBossAI (fun _ => 400) (fun _ => 1) (fun _ => 0) 3
                  dashingBoss initialPlayer [pillar] DIFFICULTY_NORMAL 5000
                  (Rng.constant (1 # 2)))))).
Proof.
  assert (H : clearOf [pillar] (Monster.obj dashingBoss))
    by (intros b [<- | []]; reflexivity).
  split; [exact H |].
  exact (proj1 (boss_never_enters_obstacle (fun _ => 400) (fun _ => 1)
                  (fun _ => 0) 3 dashingBoss initialPlayer [pillar]
                  DIFFICULTY_NORMAL 5000 (Rng.constant (1 # 2)) H)).
Defined.




(** ** Game.tsx: what every upgrade choice ends with *)

Lemma sameSlot_refl w : sameSlot w w.
Proof. destruct w; cbn; auto. Qed.

Lemma sameSlot_trans a b c : sameSlot a b -> sameSlot b c -> sameSlot a c.
Proof.
  destruct a, b, c; cbn; try tauto; congruence.
Qed.

Lemma modWeapon_sameSlot mod_ value w : sameSlot w (Game.modWeapon mod_ value w).
Proof. destruct w as [w |]; [| exact I]. destruct mod_; reflexivity. Qed.

Lemma applyEffect_slots acc effect :
  Forall2 sameSlot (snd acc) (snd (Game.applyEffect acc effect)).
Proof.
  destruct acc as [p ws]. cbn [snd].
  destruct effect as [stat [|] value | mod_ value | amount | amount | c d s r];
    cbn [Game.applyEffect snd];
    try (apply Forall2_refl_all; exact sameSlot_refl).
  apply Forall2_map_same. intro w. apply modWeapon_sameSlot.
Qed.

Lemma fold_applyEffect_slots effects : forall acc,
  Forall2 sameSlot (snd acc) (snd (fold_left Game.applyEffect effects acc)).
Proof.
  induction effects as [| e l IH]; intro acc; cbn [fold_left].
  - apply Forall2_refl_all. exact sameSlot_refl.
  - eapply Forall2_trans_all; [exact sameSlot_trans | | apply IH].
    apply applyEffect_slots.
Qed.

(** X29. Whatever upgrade is chosen, [handleLevelUpSelect] hands back a
    player whose health is at most [maxHealth] and whose shield is at most
    [maxShield], with [isLevelingUp] and [isPaused] cleared, and with the
    weapon slots in the same number and order: an empty slot stays empty
    and a weapon is changed in nothing but [piercing] and [bulletCount]. *)
Theorem handleLevelUpSelect_caps_and_resumes
    (choice : Game.UpgradeChoice) (prev : Game.LevelUpState) :
  let s := Game.handleLevelUpSelect choice prev in
  Player.health (Game.player s) <= Player.maxHealth (Game.player s) /\
  Player.shield (Game.player s) <= Player.maxShield (Game.player s) /\
  Game.isLevelingUp s = false /\
  Game.isPaused s = false /\
  Forall2 sameSlot (Game.equippedWeapons prev) (Game.equippedWeapons s).
Proof.
  cbv zeta. unfold Game.handleLevelUpSelect.
  set (p0 := if Game.isArtifact choice then _ else _).
  pose proof (fold_applyEffect_slots (Game.effects choice)
                (p0, Game.equippedWeapons prev)) as Hslots.
  destruct (fold_left Game.applyEffect (Game.effects choice)
              (p0, Game.equippedWeapons prev)) as [p1 ws].
  cbn [snd] in Hslots.
  cbn [Game.player Game.isLevelingUp Game.isPaused Game.equippedWeapons].
  set (p2 := if JS.ltb (Player.maxHealth p1) (Player.health p1)
             then Player.set_health (Player.maxHealth p1) p1 else p1).
  assert (H2 : Player.health p2 <= Player.maxHealth p2).
  { subst p2. destruct (JS.ltb (Player.maxHealth p1) (Player.health p1)) eqn:Eh.
    - cbn. apply Qle_refl.
    - apply ltb_ge in Eh. exact Eh. }
  destruct (JS.ltb (Player.maxShield p2) (Player.shield p2)) eqn:Es.
  - split; [exact H2 |]. split; [cbn; apply Qle_refl |].
    repeat split. exact Hslots.
  - apply ltb_ge in Es. split; [exact H2 |]. split; [exact Es |].
    repeat split. exact Hslots.
Qed.

(** ** CardManagementScreen.tsx: equipping and unequipping cards *)

Lemma inStock_cons c e l :
  inStock c (e :: l)
  = if String.eqb (CardManagementScreen.cardId e) c
    then (CardManagementScreen.count e + inStock c l)%Z else inStock c l.
Proof. reflexivity. Qed.

Lemma inStock_app c l l' : inStock c (l ++ l') = (inStock c l + inStock c l')%Z.
Proof.
  induction l as [| e l IH]; [reflexivity |].
  cbn [app]. rewrite !inStock_cons, IH.
  destruct (String.eqb _ c); lia.
Qed.

Lemma inStock_bump card d c l e0 :
  find (fun e => String.eqb (CardManagementScreen.cardId e) card) l = Some e0 ->
  inStock c (CardManagementScreen.bump card d l)
  = (inStock c l + if String.eqb card c then d else 0)%Z.
Proof.
  induction l as [| e l IH]; cbn [find CardManagementScreen.bump];
    [discriminate |].
  destruct (String.eqb (CardManagementScreen.cardId e) card) eqn:E.
  - intros _. rewrite !inStock_cons.
    cbn [CardManagementScreen.cardId CardManagementScreen.count].
    apply String.eqb_eq in E. rewrite E.
    destruct (String.eqb card c); lia.
  - intro H. rewrite !inStock_cons, (IH H).
    destruct (String.eqb (CardManagementScreen.cardId e) c); lia.
Qed.

Lemma count_occ_without card c l :
  count_occ string_dec
    (filter (fun id => negb (String.eqb id card)) l) c
  = if String.eqb card c then 0%nat else count_occ string_dec l c.
Proof.
  induction l as [| a l IH]; cbn.
  - now destruct (String.eqb card c).
  - destruct (String.eqb a card) eqn:Ea; cbn.
    + apply String.eqb_eq in Ea. subst a. rewrite IH.
      destruct (String.eqb card c) eqn:Ec; [reflexivity |].
      apply String.eqb_neq in Ec. destruct (string_dec card c); [contradiction |].
      reflexivity.
    + rewrite IH. apply String.eqb_neq in Ea.
      destruct (String.eqb card c) eqn:Ec; [| reflexivity].
      apply String.eqb_eq in Ec. subst c.
      destruct (string_dec a card); [contradiction | reflexivity].
Qed.

Lemma existsb_eqb_In card l :
  existsb (String.eqb card) l = true <-> In card l.
Proof.
  rewrite existsb_exists. split.
  - intros (a & Ha & E). apply String.eqb_eq in E. now subst.
  - intro H. exists card. split; [exact H | apply String.eqb_refl].
Qed.

Lemma without_fresh card l :
  ~ In card l -> filter (fun id => negb (String.eqb id card)) (l ++ [card]) = l.
Proof.
  intro H. rewrite filter_app. cbn. rewrite String.eqb_refl. cbn.
  rewrite app_nil_r. induction l as [| a l IH]; cbn; [reflexivity |].
  destruct (String.eqb a card) eqn:E.
  - apply String.eqb_eq in E. subst. exfalso. apply H. now left.
  - cbn. f_equal. apply IH. intro Hin. apply H. now right.
Qed.

Lemma bump_find card d l e0 :
  find (fun e => String.eqb (CardManagementScreen.cardId e) card) l = Some e0 ->
  find (fun e => String.eqb (CardManagementScreen.cardId e) card)
    (CardManagementScreen.bump card d l)
  = Some (CardManagementScreen.mkInventoryCard
            (CardManagementScreen.cardId e0)
            (CardManagementScreen.count e0 + d)).
Proof.
  induction l as [| e l IH]; cbn; [discriminate |].
  destruct (String.eqb (CardManagementScreen.cardId e) card) eqn:E; cbn.
  - intro H. injection H as <-. cbn. now rewrite E.
  - intro H. rewrite E. now apply IH.
Qed.

Lemma bump_back card l e0 :
  find (fun e => String.eqb (CardManagementScreen.cardId e) card) l = Some e0 ->
  CardManagementScreen.bump card 1 (CardManagementScreen.bump card (-1) l) = l.
Proof.
  induction l as [| e l IH]; cbn; [discriminate |].
  destruct (String.eqb (CardManagementScreen.cardId e) card) eqn:E; cbn.
  - intros _. rewrite E. destruct e as [i n]. cbn. f_equal. f_equal. lia.
  - intro H. rewrite E. f_equal. now apply IH.
Qed.

Lemma bump_nonneg card d l e0 :
  find (fun e => String.eqb (CardManagementScreen.cardId e) card) l = Some e0 ->
  (0 <= CardManagementScreen.count e0 + d)%Z ->
  Forall (fun e => (0 <= CardManagementScreen.count e)%Z) l ->
  Forall (fun e => (0 <= CardManagementScreen.count e)%Z)
    (CardManagementScreen.bump card d l).
Proof.
  induction l as [| e l IH]; cbn; [discriminate |].
  intros Hf Hd Hall. inversion Hall as [| ? ? He Hl]; subst.
  destruct (String.eqb (CardManagementScreen.cardId e) card) eqn:E.
  - injection Hf as <-. constructor; [exact Hd | exact Hl].
  - constructor; [exact He | now apply IH].
Qed.

(** X30. A click on a card moves one copy between the stock and the
    equipped slots and never loses or invents one.  For a profile whose
    equipped cards are distinct: they are still distinct after
    [handleCardClick]; if no more than [MAX_EQUIPPED_CARDS] were equipped,
    no more are afterwards; for every card, the copies held (in stock plus
    equipped) are as many as before; no count goes below zero if none was;
    and when the click equips the card, a second click on it gives the
    original profile back. *)
Theorem card_click_conserves_cards
    (card : string) (p : CardManagementScreen.PlayerProfile) :
  NoDup (CardManagementScreen.equippedCardIds p) ->
  let p' := CardManagementScreen.handleCardClick card p in
  NoDup (CardManagementScreen.equippedCardIds p') /\
  ((List.length (CardManagementScreen.equippedCardIds p) <= MAX_EQUIPPED_CARDS)%nat ->
   (List.length (CardManagementScreen.equippedCardIds p') <= MAX_EQUIPPED_CARDS)%nat) /\
  (forall c, owned c p' = owned c p) /\
  (Forall (fun e => (0 <= CardManagementScreen.count e)%Z)
     (CardManagementScreen.cardInventory p) ->
   Forall (fun e => (0 <= CardManagementScreen.count e)%Z)
     (CardManagementScreen.cardInventory p')) /\
  (~ In card (CardManagementScreen.equippedCardIds p) ->
   In card (CardManagementScreen.equippedCardIds p') ->
   CardManagementScreen.handleCardClick card p' = p).
Proof.
  intros Hnd p'. subst p'. destruct p as [eq inv].
  unfold CardManagementScreen.handleCardClick, owned.
  cbn [CardManagementScreen.equippedCardIds CardManagementScreen.cardInventory] in *.
  destruct (existsb (String.eqb card) eq) eqn:Heq.
  - (* unequip *)
    apply existsb_eqb_In in Heq.
    cbn [CardManagementScreen.equippedCardIds CardManagementScreen.cardInventory].
    split; [apply NoDup_filter; exact Hnd |].
    split; [intro H; etransitivity; [apply filter_length_le | exact H] |].
    split; [| split].
    + intro c. rewrite count_occ_without.
      assert (Hone : String.eqb card c = true ->
                     count_occ string_dec eq c = 1%nat).
      { intro E. apply String.eqb_eq in E. subst c.
        apply NoDup_count_occ'; assumption. }
      destruct (find _ inv) as [e0 |] eqn:Hf.
      * rewrite (inStock_bump card 1 c inv e0 Hf).
        destruct (String.eqb card c); [rewrite Hone by reflexivity |]; lia.
      * rewrite inStock_app, inStock_cons.
        cbn [CardManagementScreen.cardId CardManagementScreen.count].
        change (inStock c []) with 0%Z.
        destruct (String.eqb card c); [rewrite Hone by reflexivity |]; lia.
    + intro Hall. destruct (find _ inv) as [e0 |] eqn:Hf.
      * apply (bump_nonneg card 1 inv e0 Hf); [| exact Hall].
        pose proof (find_some _ _ Hf) as [Hin _].
        rewrite Forall_forall in Hall. specialize (Hall e0 Hin).
        cbv beta in Hall. lia.
      * apply Forall_app. split; [exact Hall |].
        constructor; [cbn; lia | constructor].
    + intros Hnot. contradiction.
  - (* equip *)
    assert (Hnotin : ~ In card eq).
    { intro H. apply existsb_eqb_In in H. congruence. }
    destruct (find _ inv) as [e0 |] eqn:Hf.
    + destruct ((List.length eq <? MAX_EQUIPPED_CARDS)%nat
                && (0 <? CardManagementScreen.count e0)%Z) eqn:Hok;
        cbn [CardManagementScreen.equippedCardIds
             CardManagementScreen.cardInventory].
      * apply andb_prop in Hok. destruct Hok as [Hlen Hpos].
        apply Nat.ltb_lt in Hlen. apply Z.ltb_lt in Hpos.
        split.
        { apply NoDup_app; [exact Hnd | repeat constructor; auto |].
          intros a Ha [<- | []]. contradiction. }
        split; [intros _; rewrite length_app; cbn [List.length]; lia |].
        split; [| split].
        -- intro c. rewrite (inStock_bump card (-1) c inv e0 Hf).
           rewrite count_occ_app. cbn [count_occ].
           destruct (String.eqb card c) eqn:Ec.
           ++ apply String.eqb_eq in Ec. subst c.
              destruct (string_dec card card); [lia | contradiction].
           ++ apply String.eqb_neq in Ec.
              destruct (string_dec card c); [contradiction | lia].
        -- intro Hall. apply (bump_nonneg card (-1) inv e0 Hf); [lia | exact Hall].
        -- intros _ _.
           assert (Hex : existsb (String.eqb card) (eq ++ [card]) = true).
           { apply existsb_eqb_In, in_or_app. right. now left. }
           rewrite Hex, (bump_find card (-1) inv e0 Hf).
           rewrite (without_fresh card eq Hnotin), (bump_back card inv e0 Hf).
           reflexivity.
      * split; [exact Hnd |]. split; [auto |]. split; [reflexivity |].
        split; [auto |]. intros Hn Hin. contradiction.
    + cbn [CardManagementScreen.equippedCardIds
           CardManagementScreen.cardInventory].
      split; [exact Hnd |]. split; [auto |]. split; [reflexivity |].
      split; [auto |]. intros Hn Hin. contradiction.
Qed.

Lemma card_click_conserves_cards_witness :
  NoDup (CardManagementScreen.equippedCardIds someProfile) /\
  owned "tough" (CardManagementScreen.handleCardClick "tough" someProfile) = 2%Z.
Proof.
  assert (H : NoDup (CardManagementScreen.equippedCardIds someProfile)).
  { repeat constructor. intros []. }
  split; [exact H |].
  rewrite (proj1 (proj2 (proj2
             (card_click_conserves_cards "tough" someProfile H))) "tough"%string).
  reflexivity.
Defined.

(** * Part IV: the health bound, entity by entity *)

(** ** Obstacles *)









(** ** Allies *)






(** ** The claim *)



